(** * A shallow embedding of tideland/go-bcd (bcd.go) and its specification.

    The Go type [BCD] keeps its decimal digits little-endian in a
    [[]uint8], a scale (digits after the point) and a sign flag.  Digits
    are modelled as [Z] values; the [uint8], [uint16], [int8] and [int64]
    arithmetic of the source is written out with explicit wrap-around
    ([u8], [u16], [i8], [wrap64]).  Go's [int] (scales, lengths) is
    modelled as [Z] without wrap-around: it only ever holds lengths of
    digit slices.  A Go string is a [String.string] of bytes. *)

From Stdlib Require Import ZArith Lia String Ascii Bool.
From stdpp Require Import base list.

Open Scope Z_scope.

(** ** Machine arithmetic *)

Definition u8 (x : Z) : Z := x mod 256.
Definition u16 (x : Z) : Z := x mod 65536.
Definition i8 (x : Z) : Z := (x + 128) mod 256 - 128.
Definition wrap64 (x : Z) : Z := (x + 2 ^ 63) mod 2 ^ 64 - 2 ^ 63.
Definition MaxInt64 : Z := 2 ^ 63 - 1.

(** ** Data model *)

Inductive RoundingMode :=
| RoundDown | RoundUp | RoundHalfUp | RoundHalfDown
| RoundHalfEven | RoundCeiling | RoundFloor.

Inductive bcd_error :=
| ErrDivisionByZero | ErrInvalidFormat | ErrOverflow | ErrPrecisionLoss.

(** A Go pair [(T, error)]: either a value or an error. *)
Inductive res (A : Type) := Ok (a : A) | Err (e : bcd_error).
Arguments Ok {A} a.
Arguments Err {A} e.

Record BCD := mkBCD { digits : list Z; scale : Z; negative : bool }.

(** [Copy] is a deep copy: in a value model it is the identity. *)
Definition Copy (b : BCD) : BCD := b.

Definition Zero : BCD := mkBCD [0] 0 false.

Definition isZero (ds : list Z) : bool := forallb (fun d => d =? 0) ds.

Definition IsZero (b : BCD) : bool := isZero (digits b).

Definition zeros (n : Z) : list Z := repeat 0 (Z.to_nat n).

Definition len {A} (l : list A) : Z := Z.of_nat (length l).

(** [for len(r) > 1 && r[len(r)-1] == 0 { r = r[:len(r)-1] }], written on
    the reversed slice (most significant digit first). *)
Fixpoint trim_rev (l : list Z) : list Z :=
  match l with
  | Z0 :: ((_ :: _) as t) => trim_rev t
  | _ => l
  end.

Definition trimTop (l : list Z) : list Z := rev (trim_rev (rev l)).

(** ** Comparison *)

Definition alignDecimals (a b : BCD) : BCD * BCD :=
  if scale a =? scale b then (Copy a, Copy b)
  else if scale a <? scale b then
    (mkBCD (zeros (scale b - scale a) ++ digits a) (scale b) (negative a), Copy b)
  else
    (Copy a, mkBCD (zeros (scale a - scale b) ++ digits b) (scale a) (negative b)).

(** The loop [for i := len-1; i >= 0; i--] over two slices of equal
    length, on their reversals. *)
Fixpoint cmp_from_top (x y : list Z) : Z :=
  match x, y with
  | p :: xs, q :: ys =>
      if q <? p then 1 else if p <? q then -1 else cmp_from_top xs ys
  | _, _ => 0
  end.

Definition compareMagnitudes (a b : BCD) : Z :=
  let '(a1, a2) := alignDecimals a b in
  if len (digits a2) <? len (digits a1) then 1
  else if len (digits a1) <? len (digits a2) then -1
  else cmp_from_top (rev (digits a1)) (rev (digits a2)).

Definition Cmp (b other : BCD) : Z :=
  if negative b && negb (negative other) then -1
  else if negb (negative b) && negative other then 1
  else
    let result := compareMagnitudes b other in
    if negative b then - result else result.

Definition Equal (b other : BCD) : bool := Cmp b other =? 0.

(** ** Addition and subtraction *)

(** The loop of [addMagnitudes]: [for i := 0; i < maxLen || carry > 0; i++].
    [fuel] is [maxLen + 1], the length of the result slice. *)
Fixpoint add_loop (fuel : nat) (i : nat) (maxLen : nat) (a b : list Z)
    (carry : Z) (result : list Z) : list Z :=
  match fuel with
  | O => result
  | S f =>
      if (i <? maxLen)%nat || (0 <? carry) then
        let sum := carry in
        let sum := if (i <? length a)%nat then u8 (sum + nth i a 0) else sum in
        let sum := if (i <? length b)%nat then u8 (sum + nth i b 0) else sum in
        add_loop f (S i) maxLen a b (sum / 10) (<[i := sum mod 10]> result)
      else result
  end.

Definition addMagnitudes (a b : BCD) : BCD :=
  let maxLen := Nat.max (length (digits b)) (length (digits a)) in
  let result := add_loop (S maxLen) 0 maxLen (digits a) (digits b) 0
                  (repeat 0 (S maxLen)) in
  mkBCD (trimTop result) (scale a) false.

(** The loop of [subtractMagnitudes] over [a]'s digits, from index [i]. *)
Fixpoint sub_loop (i : nat) (a b : list Z) (borrow : Z) : list Z :=
  match a with
  | [] => []
  | ai :: a' =>
      let diff := i8 (i8 ai - i8 borrow) in
      let diff := if (i <? length b)%nat then i8 (diff - i8 (nth i b 0)) else diff in
      let '(diff, borrow) := if diff <? 0 then (i8 (diff + 10), 1) else (diff, 0) in
      u8 diff :: sub_loop (S i) a' b borrow
  end.

Definition subtractMagnitudes (a b : BCD) : BCD :=
  mkBCD (trimTop (sub_loop 0 (digits a) (digits b) 0)) (scale a) false.

Definition Neg (b : BCD) : BCD :=
  if IsZero b then Copy b
  else mkBCD (digits b) (scale b) (negb (negative b)).

Definition Add (b other : BCD) : BCD :=
  if Bool.eqb (negative b) (negative other) then
    let '(a1, a2) := alignDecimals b other in
    let sum := addMagnitudes a1 a2 in
    mkBCD (digits sum) (scale sum) (negative b)
  else
    let c := compareMagnitudes b other in
    if c =? 0 then Zero
    else
      let '(a1, a2) := alignDecimals b other in
      if 0 <? c then
        let diff := subtractMagnitudes a1 a2 in
        mkBCD (digits diff) (scale diff) (negative b)
      else
        let diff := subtractMagnitudes a2 a1 in
        mkBCD (digits diff) (scale diff) (negative other).

Definition Sub (b other : BCD) : BCD := Add b (Neg other).

(** ** Multiplication *)

(** The inner loop [for j := range other.digits] of row [i]; [k] is [i+j]. *)
Fixpoint mul_inner (ai : Z) (k : nat) (bs : list Z) (r : list Z) (carry : Z)
    : list Z * Z :=
  match bs with
  | [] => (r, carry)
  | bj :: bs' =>
      let prod := u8 (u8 (u8 (ai * bj) + nth k r 0) + carry) in
      mul_inner ai (S k) bs' (<[k := prod mod 10]> r) (prod / 10)
  end.

Definition mul_row (ai : Z) (i : nat) (bs : list Z) (r : list Z) : list Z :=
  let '(r', carry) := mul_inner ai i bs r 0 in
  if 0 <? carry then <[(i + length bs)%nat := carry]> r' else r'.

(** The outer loop [for i := range b.digits]. *)
Fixpoint mul_outer (i : nat) (as_ : list Z) (bs : list Z) (r : list Z) : list Z :=
  match as_ with
  | [] => r
  | ai :: as' => mul_outer (S i) as' bs (mul_row ai i bs r)
  end.

Definition Mul (b other : BCD) : BCD :=
  if IsZero b || IsZero other then Zero
  else
    let resultDigits :=
      mul_outer 0 (digits b) (digits other)
        (repeat 0 (length (digits b) + length (digits other))) in
    mkBCD (trimTop resultDigits) (scale b + scale other)
      (negb (Bool.eqb (negative b) (negative other))).

(** ** Rounding *)

Definition shouldRoundUp (digit nextDigit : Z) (isEven : bool)
    (mode : RoundingMode) (neg : bool) : bool :=
  match mode with
  | RoundDown => false
  | RoundUp => (0 <? digit) || (0 <? nextDigit)
  | RoundHalfUp => 5 <=? digit
  | RoundHalfDown => (5 <? digit) || ((digit =? 5) && (0 <? nextDigit))
  | RoundHalfEven =>
      if (5 <? digit) || ((digit =? 5) && (0 <? nextDigit)) then true
      else if (digit =? 5) && (nextDigit =? 0) then negb isEven
      else false
  | RoundCeiling => if neg then false else (0 <? digit) || (0 <? nextDigit)
  | RoundFloor => if negb neg then false else (0 <? digit) || (0 <? nextDigit)
  end.

(** The carry loop "Add 1 to the result", with the final append. *)
Fixpoint inc_digits (l : list Z) (carry : Z) : list Z :=
  match l with
  | [] => if 0 <? carry then [carry] else []
  | d :: t =>
      if 0 <? carry then
        let sum := u8 (d + carry) in (sum mod 10) :: inc_digits t (sum / 10)
      else l
  end.

(** [for len(newDigits) > 1 && newDigits[0] == 0 { newDigits = newDigits[1:] }] *)
Fixpoint strip_low_zeros (l : list Z) : list Z :=
  match l with
  | Z0 :: ((_ :: _) as t) => strip_low_zeros t
  | _ => l
  end.

Definition Round (b : BCD) (places : Z) (mode : RoundingMode) : BCD :=
  let places := if places <? 0 then 0 else places in
  if scale b <=? places then Copy b
  else
    let removeCount := scale b - places in
    if len (digits b) <=? removeCount then
      if IsZero b then Zero
      else if shouldRoundUp (nth (length (digits b) - 1) (digits b) 0) 0 false
                mode (negative b) then
        if places =? 0 then mkBCD [1] 0 (negative b)
        else mkBCD (zeros (places - 1) ++ [1]) places (negative b)
      else Zero
    else
      let rc := Z.to_nat removeCount in
      let newDigits := skipn rc (digits b) in
      let roundDigit := nth (rc - 1) (digits b) 0 in
      let nextDigit := if 2 <=? removeCount then nth (rc - 2) (digits b) 0 else 0 in
      let isEven := nth 0 newDigits 0 mod 2 =? 0 in
      let newDigits :=
        if shouldRoundUp roundDigit nextDigit isEven mode (negative b)
        then inc_digits newDigits 1 else newDigits in
      let newDigits := if places =? 0 then strip_low_zeros newDigits else newDigits in
      mkBCD newDigits places (negative b).

(** ** Division *)

Definition divideBySmallInt_loop (d : Z) :=
  fix go (msFirst : list Z) (remainder : Z) : list Z * Z :=
    match msFirst with
    | [] => ([], remainder)
    | x :: xs =>
        let dividend := u16 (u16 (remainder * 10) + x) in
        let '(qs, r) := go xs (dividend mod d) in
        (u8 (dividend / d) :: qs, r)
    end.

(** Quotient digits are produced most significant first and stored back at
    the same indices, i.e. the result is reversed into little-endian. *)
Definition divideBySmallInt (a : BCD) (divisor : Z) : BCD * BCD :=
  let '(qs, r) := divideBySmallInt_loop divisor (rev (digits a)) 0 in
  (mkBCD (trimTop (rev qs)) 0 false, mkBCD [u8 r] 0 false).

Fixpoint value (ds : list Z) : Z :=
  match ds with
  | [] => 0
  | d :: t => d + 10 * value t
  end.

(** [for v > 0 { ds = append(ds, uint8(v % 10)); v /= 10 }]; [fuel] bounds
    the number of decimal digits of [v]. *)
Fixpoint digits_of (fuel : nat) (v : Z) : list Z :=
  match fuel with
  | O => []
  | S f => if 0 <? v then (v mod 10) :: digits_of f (v / 10) else []
  end.

Definition multiplyByDigit_loop (digit : Z) :=
  fix go (l : list Z) (carry : Z) : list Z * Z :=
    match l with
    | [] => ([], carry)
    | x :: t =>
        let prod := u8 (u8 (x * digit) + carry) in
        let '(rs, c) := go t (prod / 10) in ((prod mod 10) :: rs, c)
    end.

Definition multiplyByDigit (b : BCD) (digit : Z) : BCD :=
  if digit =? 0 then Zero
  else
    let '(rs, carry) := multiplyByDigit_loop digit (digits b) 0 in
    mkBCD (if 0 <? carry then rs ++ [carry] else rs) (scale b) false.

(** The search for the largest [multiplier <= 9] with
    [divisor * multiplier <= remainder]. *)
Fixpoint find_multiplier (fuel : nat) (divisor remainder : BCD)
    (multiplier : Z) (testProduct : BCD) : Z * BCD :=
  match fuel with
  | O => (multiplier, testProduct)
  | S f =>
      if multiplier <? 9 then
        let nextProduct := multiplyByDigit divisor (multiplier + 1) in
        if 0 <? compareMagnitudes nextProduct remainder then (multiplier, testProduct)
        else find_multiplier f divisor remainder (multiplier + 1) nextProduct
      else (multiplier, testProduct)
  end.

(** One iteration of the fallback loop of [longDivision]. *)
Definition ld_step (divisor : BCD) (st : list Z * BCD) : list Z * BCD :=
  let '(quotientDigits, remainder) := st in
  let '(multiplier, testProduct) := find_multiplier 8 divisor remainder 1 (Copy divisor) in
  (multiplier :: quotientDigits, subtractMagnitudes remainder testProduct).

(** [for compareMagnitudes(remainder, divisor) >= 0 { ... }], run for up to
    [2^n] iterations; the flag tells whether the loop condition became
    false. *)
Fixpoint ld_iter (divisor : BCD) (n : nat) (st : list Z * BCD) : bool * (list Z * BCD) :=
  match n with
  | O => if 0 <=? compareMagnitudes (snd st) divisor
         then (false, ld_step divisor st) else (true, st)
  | S n' =>
      let '(done, st1) := ld_iter divisor n' st in
      if done then (true, st1) else ld_iter divisor n' st1
  end.

(** Each iteration subtracts at least the (nonzero) divisor, so the Go loop
    runs at most [value dividend < 10^len] times; [2^(4 len + 4)] bounds it. *)
Definition longDivision (dividend divisor : BCD) : BCD * BCD :=
  if compareMagnitudes dividend divisor <? 0 then (Zero, Copy dividend)
  else if (length (digits divisor) <=? 15)%nat && (length (digits dividend) <=? 15)%nat then
    let divisorValue := value (digits divisor) in
    let dividendValue := value (digits dividend) in
    let quotientValue := dividendValue / divisorValue in
    let remainderValue := dividendValue mod divisorValue in
    (mkBCD (if 0 <? quotientValue then digits_of 20 quotientValue else [0]) 0 false,
     mkBCD (if 0 <? remainderValue then digits_of 20 remainderValue else [0]) 0 false)
  else
    let fuel := (4 * length (digits dividend) + 4)%nat in
    let '(quotientDigits, remainder) :=
      snd (ld_iter divisor fuel ([], Copy dividend)) in
    let quotientDigits := rev quotientDigits in
    let quotientDigits := match quotientDigits with [] => [0] | _ => quotientDigits end in
    (mkBCD quotientDigits 0 false, remainder).

(** [divideIntegers]; its [panic] on a zero divisor is unreachable, all
    callers reject a zero divisor first. *)
Definition divideIntegers (a b : BCD) : BCD * BCD :=
  match digits b with
  | [d] => divideBySmallInt a d
  | _ => longDivision a b
  end.

Definition divideWithRemainder (a b : BCD) (targetScale : Z) : BCD * BCD :=
  let extraZeros := targetScale + scale b in
  let ddigits := if 0 <? extraZeros then zeros extraZeros ++ digits a else digits a in
  let dividend := mkBCD ddigits 0 (negative a) in
  let divisor := mkBCD (digits b) 0 (negative b) in
  let '(quotient, remainder) := divideIntegers dividend divisor in
  (mkBCD (digits quotient) (targetScale + scale a) (negative quotient), remainder).

Definition Div (b other : BCD) (sc : Z) (mode : RoundingMode) : res BCD :=
  if IsZero other then Err ErrDivisionByZero
  else if IsZero b then Ok Zero
  else
    let '(quotient, _) := divideWithRemainder b other (sc + 1) in
    let quotient := mkBCD (digits quotient) (scale quotient)
                      (negb (Bool.eqb (negative b) (negative other))) in
    Ok (Round quotient sc mode).

Definition DivInt (b other : BCD) : res BCD :=
  if IsZero other then Err ErrDivisionByZero
  else if IsZero b then Ok Zero
  else
    let '(quotient, _) := divideWithRemainder b other 0 in
    let quotient := mkBCD (digits quotient) (scale quotient)
                      (negb (Bool.eqb (negative b) (negative other))) in
    if 0 <? scale quotient then
      if len (digits quotient) <=? scale quotient then Ok Zero
      else Ok (mkBCD (skipn (Z.to_nat (scale quotient)) (digits quotient)) 0
                 (negative quotient))
    else Ok quotient.

Definition Mod (b other : BCD) : res BCD :=
  if IsZero other then Err ErrDivisionByZero
  else if IsZero b then Ok Zero
  else
    let '(_, remainder) := divideWithRemainder b other 0 in
    Ok (mkBCD (digits remainder) (scale remainder) (negative b)).

(** ** Conversions *)

(** The digit loop of [ToInt64], over [rounded.digits]. *)
Fixpoint toInt64_loop (ds : list Z) (result multiplier : Z) : res Z :=
  match ds with
  | [] => Ok result
  | digit :: t =>
      let digitValue := wrap64 (digit * multiplier) in
      if MaxInt64 / 10 <? multiplier then Err ErrOverflow
      else
        let newResult := wrap64 (result + digitValue) in
        if ((0 <? result) && (newResult <? result)) ||
           ((result <? 0) && (result <? newResult)) then Err ErrOverflow
        else toInt64_loop t newResult (wrap64 (multiplier * 10))
  end.

Definition ToInt64 (b : BCD) : res Z :=
  let rounded := Round b 0 RoundDown in
  if IsZero rounded then Ok 0
  else
    match toInt64_loop (digits rounded) 0 1 with
    | Err e => Err e
    | Ok result =>
        if negative b then
          let result := wrap64 (- result) in
          if 0 <? result then Err ErrOverflow else Ok result
        else Ok result
    end.

(** [fromInt64]: [-n] wraps for the minimum [int64], the digit loop
    [for n > 0] then does not run. An [int64] has at most 19 digits. *)
Definition fromInt64 (n : Z) : BCD :=
  if n =? 0 then Zero
  else
    let neg := n <? 0 in
    let n := if neg then wrap64 (- n) else n in
    mkBCD (digits_of 19 n) 0 neg.

Definition digit_char (d : Z) : ascii := ascii_of_nat (Z.to_nat (u8 (d + 48))).

Fixpoint chars_of (msFirst : list Z) : string :=
  match msFirst with
  | [] => EmptyString
  | d :: t => String (digit_char d) (chars_of t)
  end.

Fixpoint repeat_char (n : nat) (c : ascii) : string :=
  match n with
  | O => EmptyString
  | S n' => String c (repeat_char n' c)
  end.

Definition String_of (b : BCD) : string :=
  match digits b with
  | [] | [Z0] => "0"%string
  | _ =>
      let sign := if negative b then "-"%string else EmptyString in
      let intDigits := len (digits b) - scale b in
      if intDigits <=? 0 then
        (sign ++ "0." ++ repeat_char (Z.to_nat (- intDigits)) "0"%char
              ++ chars_of (rev (digits b)))%string
      else
        let sc := Z.to_nat (scale b) in
        (sign ++ chars_of (rev (skipn sc (digits b)))
              ++ (if Z.ltb 0 (scale b) then "." ++ chars_of (rev (firstn sc (digits b)))
                  else EmptyString))%string
  end.

(** The count of [trailingZeros] in [Normalize]. *)
Fixpoint count_low_zeros (fuel : nat) (ds : list Z) : nat :=
  match fuel, ds with
  | S f, Z0 :: t => S (count_low_zeros f t)
  | _, _ => O
  end.

Definition Normalize (b : BCD) : BCD :=
  if (scale b =? 0) || IsZero b then Copy b
  else
    let tz := count_low_zeros (Z.to_nat (scale b)) (digits b) in
    if (0 <? tz)%nat then
      let ds := skipn tz (digits b) in
      let sc := scale b - Z.of_nat tz in
      if (sc =? 0) || (length ds =? 0)%nat then
        mkBCD (match ds with [] => [0] | _ => ds end) 0 (negative b)
      else mkBCD ds sc (negative b)
    else Copy b.

(** ** Parsing *)

Fixpoint trim_left_by (p : ascii -> bool) (s : string) : string :=
  match s with
  | EmptyString => EmptyString
  | String c t => if p c then trim_left_by p t else s
  end.

Fixpoint rev_string (s : string) : string :=
  match s with
  | EmptyString => EmptyString
  | String c t => (rev_string t ++ String c EmptyString)%string
  end.

Definition trim_right_by (p : ascii -> bool) (s : string) : string :=
  rev_string (trim_left_by p (rev_string s)).

(** *** [strings.TrimSpace]

    Go's [strings.TrimSpace] works on the UTF-8 bytes of the string and
    trims the runes for which [unicode.IsSpace] holds.  The definitions
    below follow the Go standard library: [utf8.DecodeRuneInString],
    [utf8.DecodeLastRuneInString], [unicode.IsSpace], [strings.TrimLeftFunc],
    [strings.TrimRightFunc] (with [lastIndexFunc]), [strings.TrimFunc] and
    the ASCII fast path of [strings.TrimSpace]. Bytes are [Z] values 0..255. *)

Definition byte_of (c : ascii) : Z := Z.of_nat (nat_of_ascii c).

Definition bytes_of (s : string) : list Z := map byte_of (list_ascii_of_string s).

Definition string_of_bytes (l : list Z) : string :=
  string_of_list_ascii (map (fun b => ascii_of_nat (Z.to_nat b)) l).

Definition RuneError : Z := 65533.
Definition RuneSelf : Z := 128.
Definition UTFMax : nat := 4.

(** The [first] and [acceptRanges] tables of package [utf8]: for a byte
    that starts a multi-byte sequence, the sequence size and the accepted
    range of its second byte; [None] for the bytes that start none. *)
Definition accept_range (b : Z) : option (nat * Z * Z) :=
  if (194 <=? b) && (b <=? 223) then Some (2%nat, 128, 191)
  else if b =? 224 then Some (3%nat, 160, 191)
  else if (225 <=? b) && (b <=? 236) then Some (3%nat, 128, 191)
  else if b =? 237 then Some (3%nat, 128, 159)
  else if (238 <=? b) && (b <=? 239) then Some (3%nat, 128, 191)
  else if b =? 240 then Some (4%nat, 144, 191)
  else if (241 <=? b) && (b <=? 243) then Some (4%nat, 128, 191)
  else if b =? 244 then Some (4%nat, 128, 143)
  else None.

(** [utf8.DecodeRuneInString]: the first rune and its width; an invalid
    sequence decodes to [RuneError] of width 1. *)
Definition DecodeRune (s : list Z) : Z * nat :=
  match s with
  | [] => (RuneError, 0%nat)
  | s0 :: _ =>
      if s0 <? RuneSelf then (s0, 1%nat)
      else
        match accept_range s0 with
        | None => (RuneError, 1%nat)
        | Some (sz, lo, hi) =>
            if (length s <? sz)%nat then (RuneError, 1%nat)
            else
              let s1 := nth 1 s 0 in
              if (s1 <? lo) || (hi <? s1) then (RuneError, 1%nat)
              else if (sz <=? 2)%nat then
                (Z.lor (Z.shiftl (Z.land s0 31) 6) (Z.land s1 63), 2%nat)
              else
                let s2 := nth 2 s 0 in
                if (s2 <? 128) || (191 <? s2) then (RuneError, 1%nat)
                else if (sz <=? 3)%nat then
                  (Z.lor (Z.lor (Z.shiftl (Z.land s0 15) 12) (Z.shiftl (Z.land s1 63) 6))
                     (Z.land s2 63), 3%nat)
                else
                  let s3 := nth 3 s 0 in
                  if (s3 <? 128) || (191 <? s3) then (RuneError, 1%nat)
                  else
                    (Z.lor (Z.lor (Z.lor (Z.shiftl (Z.land s0 7) 18)
                                         (Z.shiftl (Z.land s1 63) 12))
                                  (Z.shiftl (Z.land s2 63) 6)) (Z.land s3 63), 4%nat)
        end
  end.

(** [utf8.RuneStart]: the byte is not a continuation byte. *)
Definition RuneStart (b : Z) : bool := negb (Z.land b 192 =? 128).

(** The loop [for start--; start >= lim; start-- { if RuneStart(s[start]) { break } }]
    of [DecodeLastRuneInString], entered with [start] already decremented;
    it runs at most [UTFMax] times, so [S UTFMax] steps suffice. *)
Fixpoint scan_rune_start (fuel : nat) (s : list Z) (start lim : Z) : Z :=
  match fuel with
  | O => start
  | S f =>
      if start <? lim then start
      else if RuneStart (nth (Z.to_nat start) s 0) then start
      else scan_rune_start f s (start - 1) lim
  end.

(** [utf8.DecodeLastRuneInString]: the last rune and its width. *)
Definition DecodeLastRune (s : list Z) : Z * nat :=
  let end_ := Z.of_nat (length s) in
  if end_ =? 0 then (RuneError, 0%nat)
  else
    let start := end_ - 1 in
    let r := nth (Z.to_nat start) s 0 in
    if r <? RuneSelf then (r, 1%nat)
    else
      let lim := Z.max 0 (end_ - Z.of_nat UTFMax) in
      let start := scan_rune_start (S UTFMax) s (start - 1) lim in
      let start := if start <? 0 then 0 else start in
      let '(r, size) := DecodeRune (skipn (Z.to_nat start) s) in
      if start + Z.of_nat size =? end_ then (r, size) else (RuneError, 1%nat).

(** [unicode.IsSpace]: in the Latin-1 range the listed characters, above
    it the [White_Space] table. *)
Definition IsSpace (r : Z) : bool :=
  if (0 <=? r) && (r <=? 255) then
    (r =? 9) || (r =? 10) || (r =? 11) || (r =? 12) || (r =? 13) || (r =? 32) ||
    (r =? 133) || (r =? 160)
  else
    (r =? 5760) || ((8192 <=? r) && (r <=? 8202)) || (r =? 8232) || (r =? 8233) ||
    (r =? 8239) || (r =? 8287) || (r =? 12288).

(** The [asciiSpace] table of package [strings]. *)
Definition asciiSpace (c : Z) : bool :=
  (c =? 9) || (c =? 10) || (c =? 11) || (c =? 12) || (c =? 13) || (c =? 32).

(** [strings.TrimLeftFunc] through [indexFunc]: [for i, r := range s]
    decodes one rune per step and moves past its width, at least one byte,
    so [length s] steps suffice. *)
Fixpoint trim_left_func (fuel : nat) (f : Z -> bool) (s : list Z) : list Z :=
  match fuel with
  | O => s
  | S k =>
      match s with
      | [] => []
      | _ :: _ =>
          let '(r, w) := DecodeRune s in
          if f r then trim_left_func k f (skipn w s) else s
      end
  end.

Definition TrimLeftFunc (s : list Z) (f : Z -> bool) : list Z :=
  trim_left_func (length s) f s.

(** [lastIndexFunc(s, f, false)]: [for i := len(s); i > 0;] decode the last
    rune of [s[0:i]], step back by its width, stop at the first rune
    failing [f]; -1 when there is none.  Each step moves back at least one
    byte, so [length s] steps suffice. *)
Fixpoint last_index_func (fuel : nat) (f : Z -> bool) (s : list Z) (i : nat) : Z :=
  match fuel with
  | O => -1
  | S k =>
      match i with
      | O => -1
      | S _ =>
          let '(r, size) := DecodeLastRune (firstn i s) in
          let i := (i - size)%nat in
          if negb (f r) then Z.of_nat i else last_index_func k f s i
      end
  end.

(** [strings.TrimRightFunc]. *)
Definition TrimRightFunc (s : list Z) (f : Z -> bool) : list Z :=
  let i := last_index_func (length s) f s (length s) in
  let i := if (0 <=? i) && (RuneSelf <=? nth (Z.to_nat i) s 0)
           then i + Z.of_nat (snd (DecodeRune (skipn (Z.to_nat i) s)))
           else i + 1 in
  firstn (Z.to_nat i) s.

(** [strings.TrimFunc]. *)
Definition TrimFunc (s : list Z) (f : Z -> bool) : list Z :=
  TrimRightFunc (TrimLeftFunc s f) f.

(** The second loop of [strings.TrimSpace], [for ; stop > start; stop--],
    over [s[start:stop]] read from its end (the list reversed): a non-ASCII
    byte falls back to [TrimRightFunc], an ASCII space is dropped, another
    byte ends the loop. *)
Fixpoint trim_space_right (rs : list Z) : list Z :=
  match rs with
  | [] => []
  | c :: t =>
      if RuneSelf <=? c then TrimRightFunc (rev rs) IsSpace
      else if asciiSpace c then trim_space_right t
      else rev rs
  end.

(** The first loop of [strings.TrimSpace], [for ; start < len(s); start++]:
    a non-ASCII byte falls back to [TrimFunc] on the rest, an ASCII space
    is dropped, another byte ends the loop. *)
Fixpoint trim_space_left (s : list Z) : list Z :=
  match s with
  | [] => []
  | c :: t =>
      if RuneSelf <=? c then TrimFunc s IsSpace
      else if asciiSpace c then trim_space_left t
      else trim_space_right (rev s)
  end.

Definition TrimSpace (s : string) : string :=
  string_of_bytes (trim_space_left (bytes_of s)).

Fixpoint contains_char (p : ascii -> bool) (s : string) : bool :=
  match s with
  | EmptyString => false
  | String c t => p c || contains_char p t
  end.

Definition is_char (c : ascii) (d : ascii) : bool := Ascii.eqb d c.

(** [strings.Split(s, ".")]. *)
Fixpoint split_dot (s : string) : list string :=
  match s with
  | EmptyString => [EmptyString]
  | String c t =>
      match split_dot t with
      | [] => [String c EmptyString]
      | p :: ps => if is_char "."%char c then EmptyString :: p :: ps
                   else String c p :: ps
      end
  end.

Definition is_digit_char (c : ascii) : bool :=
  (48 <=? nat_of_ascii c)%nat && (nat_of_ascii c <=? 57)%nat.

Fixpoint digit_values (s : string) : list Z :=
  match s with
  | EmptyString => []
  | String c t => (Z.of_nat (nat_of_ascii c) - 48) :: digit_values t
  end.

Inductive parse_result :=
| Parsed (b : BCD)
| ParseError (e : bcd_error)
| ViaFloat (s : string).

(** [parseString].  Input with an [e] or [E] is handed to
    [strconv.ParseFloat] and [fromFloat64] ([ViaFloat]), which this model
    does not cover. *)
Definition parseString (s0 : string) : parse_result :=
  let s := TrimSpace s0 in
  if String.eqb s EmptyString then Parsed Zero
  else if contains_char (fun c => is_char "e"%char c || is_char "E"%char c) s
  then ViaFloat s
  else
    let '(neg, s) :=
      match s with
      | String c t =>
          if is_char "-"%char c then (true, t)
          else if is_char "+"%char c then (false, t) else (false, s)
      | EmptyString => (false, s)
      end in
    let parts := split_dot s in
    if (2 <? length parts)%nat then ParseError ErrInvalidFormat
    else
      let intPart := trim_left_by (is_char "0"%char) (nth 0 parts EmptyString) in
      let intPart := if String.eqb intPart EmptyString then "0"%string else intPart in
      let decPart := if (length parts =? 2)%nat
                     then trim_right_by (is_char "0"%char) (nth 1 parts EmptyString)
                     else EmptyString in
      let sc := Z.of_nat (String.length decPart) in
      let allDigits := (intPart ++ decPart)%string in
      if negb (forallb is_digit_char (list_ascii_of_string allDigits))
      then ParseError ErrInvalidFormat
      else if String.eqb allDigits EmptyString || String.eqb allDigits "0"
      then Parsed Zero
      else
        let ds := trimTop (rev (digit_values allDigits)) in
        Parsed (mkBCD ds sc (neg && negb (isZero ds))).

(** [New] on a string; a value that the model parses. *)
Definition parse (s : string) : BCD :=
  match parseString s with Parsed b => b | _ => Zero end.

(** ** Sign predicates, [Abs], [Precision] and the order predicates *)

Definition IsNegative (b : BCD) : bool := negative b && negb (IsZero b).

Definition IsPositive (b : BCD) : bool := negb (negative b) && negb (IsZero b).

Definition Abs (b : BCD) : BCD :=
  let c := Copy b in mkBCD (digits c) (scale c) false.

(** [for len(digits) > 0 && scale > 0 && digits[0] == 0 { digits = digits[1:]; scale-- }] *)
Fixpoint precision_strip (ds : list Z) (sc : Z) : list Z :=
  match ds with
  | [] => []
  | d :: t => if (0 <? sc) && (d =? 0) then precision_strip t (sc - 1) else ds
  end.

Definition Precision (b : BCD) : Z := len (precision_strip (digits b) (scale b)).

Definition LessThan (b other : BCD) : bool := Cmp b other <? 0.
Definition LessOrEqual (b other : BCD) : bool := Cmp b other <=? 0.
Definition GreaterThan (b other : BCD) : bool := 0 <? Cmp b other.
Definition GreaterOrEqual (b other : BCD) : bool := 0 <=? Cmp b other.

(** [New] on [uint] and [uint64]: values above [math.MaxInt64] are refused,
    the others are converted with [int64(val)]. *)
Definition New_uint64 (v : Z) : res BCD :=
  if MaxInt64 <? v then Err ErrOverflow else Ok (fromInt64 (wrap64 v)).

(** ** Auxiliary notions for the specification *)

(** Every digit of a BCD value is a decimal digit. *)
Definition wf_digits (ds : list Z) : bool :=
  forallb (fun d => (0 <=? d) && (d <=? 9)) ds.

(** The same value written with [k] more fractional zeros. *)
Definition pad (k : nat) (b : BCD) : BCD :=
  mkBCD (repeat 0 k ++ digits b) (scale b + Z.of_nat k) (negative b).

(** [utf8.EncodeRune] for a valid rune: its UTF-8 bytes. *)
Definition EncodeRune (r : Z) : list Z :=
  if r <? 128 then [r]
  else if r <? 2048 then [Z.lor 192 (Z.shiftr r 6); Z.lor 128 (Z.land r 63)]
  else if r <? 65536 then
    [Z.lor 224 (Z.shiftr r 12); Z.lor 128 (Z.land (Z.shiftr r 6) 63);
     Z.lor 128 (Z.land r 63)]
  else
    [Z.lor 240 (Z.shiftr r 18); Z.lor 128 (Z.land (Z.shiftr r 12) 63);
     Z.lor 128 (Z.land (Z.shiftr r 6) 63); Z.lor 128 (Z.land r 63)].

(** White-space padding: the UTF-8 encoding of a sequence of runes for
    which [unicode.IsSpace] holds. *)
Definition space_padding (ws : string) : Prop :=
  exists rs, forallb IsSpace rs = true /\ bytes_of ws = flat_map EncodeRune rs.

(** The most significant digit is present and not 0 (no leading zero). *)
Definition msd_nonzero (ds : list Z) : bool :=
  match rev ds with
  | d :: _ => negb (d =? 0)
  | [] => false
  end.

(** A character that can occur in a decimal number without exponent:
    a digit, the point or a sign. *)
Definition is_number_char (c : ascii) : bool :=
  is_digit_char c || is_char "."%char c || is_char "-"%char c || is_char "+"%char c.

(** The number of characters of [s] that satisfy [p]. *)
Fixpoint count_char (p : ascii -> bool) (s : string) : nat :=
  match s with
  | EmptyString => O
  | String c t => ((if p c then 1 else 0) + count_char p t)%nat
  end.

(** The digits' value with the sign applied, in units of [10^-scale]. *)
Definition signed_value (b : BCD) : Z :=
  if negative b then - value (digits b) else value (digits b).

(** * Proofs *)

(** ** Comparison *)

Lemma cmp_from_top_antisym (x y : list Z) :
  cmp_from_top y x = - cmp_from_top x y.
Proof.
  revert y; induction x as [|p xs IH]; intros [|q ys]; simpl; try reflexivity.
  destruct (p <? q) eqn:E1, (q <? p) eqn:E2; simpl;
    try (apply Z.ltb_lt in E1); try (apply Z.ltb_lt in E2);
    try (apply Z.ltb_ge in E1); try (apply Z.ltb_ge in E2); try lia.
  apply IH.
Qed.

Lemma cmp_from_top_zero (x y : list Z) :
  length x = length y -> (cmp_from_top x y = 0 <-> x = y).
Proof.
  revert y; induction x as [|p xs IH]; intros [|q ys] Hl; simpl in *;
    try (split; congruence).
  destruct (q <? p) eqn:E1; [apply Z.ltb_lt in E1; split; [lia|intros [=]; lia]|].
  destruct (p <? q) eqn:E2; [apply Z.ltb_lt in E2; split; [lia|intros [=]; lia]|].
  apply Z.ltb_ge in E1, E2.
  assert (p = q) as -> by lia.
  rewrite IH by lia. split; [intros ->|intros [=]]; auto.
Qed.

Lemma compareMagnitudes_zero (a b : BCD) :
  compareMagnitudes a b = 0 <->
  digits (fst (alignDecimals a b)) = digits (snd (alignDecimals a b)).
Proof.
  unfold compareMagnitudes.
  destruct (alignDecimals a b) as [a1 a2]; simpl. unfold len.
  destruct (Z.of_nat (length (digits a2)) <? Z.of_nat (length (digits a1))) eqn:E1.
  { apply Z.ltb_lt in E1. split; [lia|]. intros H; rewrite H in E1; lia. }
  destruct (Z.of_nat (length (digits a1)) <? Z.of_nat (length (digits a2))) eqn:E2.
  { apply Z.ltb_lt in E2. split; [lia|]. intros H; rewrite H in E2; lia. }
  apply Z.ltb_ge in E1, E2.
  rewrite cmp_from_top_zero by (rewrite !length_rev; lia).
  split; [intros H; rewrite <- (rev_involutive (digits a1)), H; apply rev_involutive
         |intros ->; reflexivity].
Qed.

Lemma alignDecimals_pad (k : nat) (a : BCD) :
  digits (fst (alignDecimals a (pad k a))) = digits (snd (alignDecimals a (pad k a))).
Proof.
  unfold alignDecimals, pad; simpl.
  destruct (scale a =? scale a + Z.of_nat k) eqn:E1.
  - apply Z.eqb_eq in E1. assert (k = O) as -> by lia. reflexivity.
  - destruct (scale a <? scale a + Z.of_nat k) eqn:E2.
    + simpl. unfold zeros. f_equal. f_equal. lia.
    + apply Z.ltb_ge in E2. apply Z.eqb_neq in E1. lia.
Qed.

(** C8: [Cmp a b] is [-1] when only [a] is negative and [1] when only [b]
    is; with equal signs it is the comparison of the aligned magnitudes,
    negated when both are negative, and it is [0] exactly when the aligned
    digit sequences are equal.  So the same value written with more
    fractional zeros compares equal, e.g. "123.4500" and "123.45". *)
Theorem Cmp_sign_then_magnitude (a b : BCD) :
  (negative a = true -> negative b = false -> Cmp a b = -1) /\
  (negative a = false -> negative b = true -> Cmp a b = 1) /\
  (negative a = negative b ->
     Cmp a b = (if negative a then - compareMagnitudes a b else compareMagnitudes a b) /\
     (Cmp a b = 0 <->
      digits (fst (alignDecimals a b)) = digits (snd (alignDecimals a b)))) /\
  (forall k : nat, Cmp a (pad k a) = 0 /\ Cmp (pad k a) a = 0) /\
  Cmp (parse "123.4500") (parse "123.45") = 0.
Proof.
  unfold Cmp. split; [|split; [|split; [|split]]].
  - intros -> ->. reflexivity.
  - intros -> ->. reflexivity.
  - intros Hs. rewrite Hs. destruct (negative b); simpl.
    + split; [reflexivity|]. rewrite <- compareMagnitudes_zero. lia.
    + split; [reflexivity|]. apply compareMagnitudes_zero.
  - intros k. simpl.
    assert (H : compareMagnitudes a (pad k a) = 0)
      by (apply compareMagnitudes_zero, alignDecimals_pad).
    assert (H' : compareMagnitudes (pad k a) a = 0).
    { unfold compareMagnitudes in *.
      destruct (alignDecimals a (pad k a)) as [x y] eqn:Ea.
      assert (Hsw : alignDecimals (pad k a) a = (y, x)).
      { revert Ea. unfold alignDecimals.
        destruct (scale a =? scale (pad k a)) eqn:E1;
          [rewrite Z.eqb_sym in E1; rewrite E1; intros [= <- <-]; reflexivity|].
        rewrite Z.eqb_sym in E1. rewrite E1.
        destruct (scale a <? scale (pad k a)) eqn:E2;
          destruct (scale (pad k a) <? scale a) eqn:E3;
          apply Z.eqb_neq in E1;
          try (apply Z.ltb_lt in E2); try (apply Z.ltb_ge in E2);
          try (apply Z.ltb_lt in E3); try (apply Z.ltb_ge in E3); try lia;
          intros [= <- <-]; reflexivity. }
      rewrite Hsw.
      destruct (len (digits x) <? len (digits y)) eqn:E1;
        destruct (len (digits y) <? len (digits x)) eqn:E2; try discriminate.
      rewrite cmp_from_top_antisym, H. reflexivity. }
    destruct (negative a); rewrite ?H, ?H'; simpl; auto.
  - reflexivity.
Qed.

Lemma Cmp_sign_then_magnitude_witness :
  negative (parse "-1") = true /\ negative (parse "2") = false /\
  Cmp (parse "-1") (parse "2") = -1.
Proof.
  assert (H1 : negative (parse "-1") = true) by reflexivity.
  assert (H2 : negative (parse "2") = false) by reflexivity.
  split; [exact H1|]. split; [exact H2|].
  exact (proj1 (Cmp_sign_then_magnitude (parse "-1") (parse "2")) H1 H2).
Defined.

(** ** Commutativity of addition *)

Lemma alignDecimals_swap (a b : BCD) :
  alignDecimals b a = (snd (alignDecimals a b), fst (alignDecimals a b)).
Proof.
  unfold alignDecimals. rewrite (Z.eqb_sym (scale b)).
  destruct (scale a =? scale b) eqn:E1; [reflexivity|].
  apply Z.eqb_neq in E1.
  destruct (scale a <? scale b) eqn:E2; destruct (scale b <? scale a) eqn:E3;
    try (apply Z.ltb_lt in E2); try (apply Z.ltb_ge in E2);
    try (apply Z.ltb_lt in E3); try (apply Z.ltb_ge in E3); try lia; reflexivity.
Qed.

Lemma alignDecimals_scale (a b : BCD) :
  scale (fst (alignDecimals a b)) = scale (snd (alignDecimals a b)).
Proof.
  unfold alignDecimals.
  destruct (scale a =? scale b) eqn:E1; [apply Z.eqb_eq in E1; exact E1|].
  destruct (scale a <? scale b); reflexivity.
Qed.

Lemma compareMagnitudes_antisym (a b : BCD) :
  compareMagnitudes b a = - compareMagnitudes a b.
Proof.
  unfold compareMagnitudes. rewrite alignDecimals_swap.
  destruct (alignDecimals a b) as [x y]; simpl.
  destruct (len (digits x) <? len (digits y)) eqn:E1;
    destruct (len (digits y) <? len (digits x)) eqn:E2;
    try (apply Z.ltb_lt in E1); try (apply Z.ltb_ge in E1);
    try (apply Z.ltb_lt in E2); try (apply Z.ltb_ge in E2); try lia.
  apply cmp_from_top_antisym.
Qed.

Lemma u8_add_swap (c x y : Z) : u8 (u8 (c + x) + y) = u8 (u8 (c + y) + x).
Proof.
  unfold u8. rewrite !Zplus_mod_idemp_l. f_equal. lia.
Qed.

Lemma add_loop_comm (fuel i maxLen : nat) (a b : list Z) (carry : Z) (r : list Z) :
  add_loop fuel i maxLen a b carry r = add_loop fuel i maxLen b a carry r.
Proof.
  revert i carry r; induction fuel as [|f IH]; intros i carry r; simpl; [reflexivity|].
  destruct ((i <? maxLen)%nat || (0 <? carry)); [|reflexivity].
  rewrite IH.
  destruct (i <? length a)%nat, (i <? length b)%nat; try reflexivity.
  rewrite (u8_add_swap carry (nth i a 0)). reflexivity.
Qed.

Lemma addMagnitudes_comm (x y : BCD) :
  scale x = scale y -> addMagnitudes x y = addMagnitudes y x.
Proof.
  intros Hs. unfold addMagnitudes. rewrite Hs, Nat.max_comm, add_loop_comm.
  reflexivity.
Qed.

Lemma bool_eqb_comm (x y : bool) : Bool.eqb x y = Bool.eqb y x.
Proof. destruct x, y; reflexivity. Qed.

Lemma Add_comm (a b : BCD) : Add a b = Add b a.
Proof.
  unfold Add. rewrite (bool_eqb_comm (negative b)).
  rewrite (compareMagnitudes_antisym a b), (alignDecimals_swap a b).
  pose proof (alignDecimals_scale a b) as Hsc.
  destruct (alignDecimals a b) as [x y]; cbn [fst snd] in *.
  destruct (Bool.eqb (negative a) (negative b)) eqn:Es.
  - apply Bool.eqb_prop in Es.
    rewrite (addMagnitudes_comm x y) by exact Hsc. rewrite Es. reflexivity.
  - destruct (compareMagnitudes a b =? 0) eqn:E0.
    + apply Z.eqb_eq in E0. rewrite E0. reflexivity.
    + apply Z.eqb_neq in E0.
      destruct (0 <? compareMagnitudes a b) eqn:E1;
        destruct (0 <? - compareMagnitudes a b) eqn:E2;
        destruct (- compareMagnitudes a b =? 0) eqn:E3;
        try (apply Z.ltb_lt in E1); try (apply Z.ltb_ge in E1);
        try (apply Z.ltb_lt in E2); try (apply Z.ltb_ge in E2);
        try (apply Z.eqb_eq in E3); try lia; reflexivity.
Qed.

(** ** Commutativity of multiplication *)

Section Schoolbook.

Definition dig (l : list Z) : Prop := Forall (fun d => 0 <= d <= 9) l.

Lemma wf_digits_dig (l : list Z) : wf_digits l = true -> dig l.
Proof.
  unfold wf_digits, dig. intros H. apply List.Forall_forall. intros x Hx.
  rewrite forallb_forall in H. specialize (H x Hx).
  apply andb_prop in H as [H1 H2]. apply Z.leb_le in H1, H2. lia.
Qed.

Lemma dig_nth (l : list Z) (k : nat) : dig l -> 0 <= nth k l 0 <= 9.
Proof.
  revert k; induction l as [|x l IH]; intros [|k] H; simpl; try lia;
    inversion H; subst; auto.
Qed.

Lemma dig_insert (l : list Z) (k : nat) (v : Z) :
  dig l -> 0 <= v <= 9 -> dig (<[k := v]> l).
Proof.
  unfold dig; revert k; induction l as [|x l IH]; intros [|k] H Hv; simpl;
    [constructor|constructor| |]; inversion H; subst; constructor; auto.
Qed.

Lemma nth_insert_eq (l : list Z) (k : nat) (v : Z) :
  (k < length l)%nat -> nth k (<[k := v]> l) 0 = v.
Proof.
  revert k; induction l as [|x l IH]; intros [|k] H; simpl in *; try lia; auto.
  apply IH. lia.
Qed.

Lemma nth_insert_ne (l : list Z) (k p : nat) (v : Z) :
  k <> p -> nth p (<[k := v]> l) 0 = nth p l 0.
Proof.
  revert k p; induction l as [|x l IH]; intros [|k] [|p] H; simpl; auto; try lia.
Qed.

Lemma value_insert (l : list Z) (k : nat) (v : Z) :
  (k < length l)%nat ->
  value (<[k := v]> l) = value l + (v - nth k l 0) * 10 ^ Z.of_nat k.
Proof.
  revert k; induction l as [|x l IH]; intros [|k] H; simpl in *; try lia.
  rewrite IH by lia. rewrite Nat2Z.inj_succ, Z.pow_succ_r by lia. ring.
Qed.

Lemma value_repeat_zero (n : nat) : value (repeat 0 n) = 0.
Proof. induction n; simpl; [reflexivity|]. rewrite IHn. reflexivity. Qed.

Lemma dig_repeat_zero (n : nat) : dig (repeat 0 n).
Proof. induction n; constructor; auto; lia. Qed.

Lemma nth_repeat_zero (n p : nat) : nth p (repeat 0 n) 0 = 0.
Proof. revert p; induction n; intros [|p]; simpl; auto. Qed.

Lemma dig_unique (x y : list Z) :
  dig x -> dig y -> length x = length y -> value x = value y -> x = y.
Proof.
  revert y; induction x as [|a x IH]; intros [|b y] Hx Hy Hl Hv; simpl in *;
    try discriminate; auto.
  inversion Hx; inversion Hy; subst.
  assert (a = b) as -> by lia.
  f_equal. apply IH; auto. lia.
Qed.

Lemma u8_small (x : Z) : 0 <= x < 256 -> u8 x = x.
Proof. intros H. unfold u8. apply Z.mod_small. exact H. Qed.

(** One row of the schoolbook product: the inner loop adds [ai * bs]
    at position [k], keeps every slot a decimal digit, and leaves the
    slots from [k + length bs] on untouched. *)
Lemma mul_inner_spec (ai : Z) (bs : list Z) :
  0 <= ai <= 9 -> dig bs ->
  forall (k : nat) (r : list Z) (carry : Z),
  dig r -> 0 <= carry <= 9 -> (k + length bs <= length r)%nat ->
  length (fst (mul_inner ai k bs r carry)) = length r /\
  dig (fst (mul_inner ai k bs r carry)) /\
  0 <= snd (mul_inner ai k bs r carry) <= 9 /\
  value (fst (mul_inner ai k bs r carry))
    + snd (mul_inner ai k bs r carry) * 10 ^ Z.of_nat (k + length bs)
    = value r + (carry + ai * value bs) * 10 ^ Z.of_nat k /\
  (forall p, (k + length bs <= p)%nat ->
     nth p (fst (mul_inner ai k bs r carry)) 0 = nth p r 0).
Proof.
  intros Hai Hbs. induction bs as [|bj bs IH]; intros k r carry Hr Hc Hk; simpl.
  - rewrite Nat.add_0_r. repeat split; auto; try lia.
  - inversion Hbs as [|? ? Hbj Hbs']; subst. simpl in Hk.
    pose proof (dig_nth r k Hr) as Hrk.
    assert (Hprod : u8 (u8 (u8 (ai * bj) + nth k r 0) + carry)
                    = ai * bj + nth k r 0 + carry).
    { rewrite (u8_small (ai * bj)) by nia.
      rewrite (u8_small (ai * bj + nth k r 0)) by nia.
      apply u8_small. nia. }
    rewrite Hprod.
    set (P := ai * bj + nth k r 0 + carry).
    assert (HP : 0 <= P <= 99) by (unfold P; nia).
    destruct (IH Hbs' (S k) (<[k := P mod 10]> r) (P / 10)) as [H1 [H2 [H3 [H4 H5]]]].
    + apply dig_insert; auto. pose proof (Z.mod_pos_bound P 10). lia.
    + split; [apply Z.div_pos; lia|].
      assert (P / 10 < 10) by (apply Z.div_lt_upper_bound; lia). lia.
    + rewrite length_insert. lia.
    + rewrite length_insert in H1.
      replace (k + S (length bs))%nat with (S k + length bs)%nat by lia.
      split; [exact H1|]. split; [exact H2|]. split; [exact H3|]. split.
      * rewrite H4, value_insert by lia.
        rewrite Nat2Z.inj_succ, Z.pow_succ_r by lia.
        rewrite (Z.mod_eq P 10) by lia. unfold P. ring.
      * intros p Hp. rewrite H5 by lia. apply nth_insert_ne. lia.
Qed.

Lemma mul_row_spec (ai : Z) (i : nat) (bs r : list Z) :
  0 <= ai <= 9 -> dig bs -> dig r -> (i + length bs < length r)%nat ->
  (forall p, (i + length bs <= p)%nat -> nth p r 0 = 0) ->
  length (mul_row ai i bs r) = length r /\ dig (mul_row ai i bs r) /\
  value (mul_row ai i bs r) = value r + ai * value bs * 10 ^ Z.of_nat i /\
  (forall p, (S (i + length bs) <= p)%nat -> nth p (mul_row ai i bs r) 0 = 0).
Proof.
  intros Hai Hbs Hr Hlen Hz. unfold mul_row.
  destruct (mul_inner_spec ai bs Hai Hbs i r 0 Hr ltac:(lia) ltac:(lia))
    as [H1 [H2 [H3 [H4 H5]]]].
  destruct (mul_inner ai i bs r 0) as [r' c]; cbn [fst snd] in *.
  destruct (0 <? c) eqn:Ec.
  - assert (Htop : nth (i + length bs) r' 0 = 0) by (rewrite H5, Hz; lia).
    split; [rewrite length_insert; exact H1|].
    split; [apply dig_insert; auto|].
    split.
    + rewrite value_insert by lia. rewrite Htop. lia.
    + intros p Hp. rewrite nth_insert_ne by lia. rewrite H5, Hz; lia.
  - apply Z.ltb_ge in Ec. assert (c = 0) as -> by lia.
    split; [exact H1|]. split; [exact H2|]. split; [lia|].
    intros p Hp. rewrite H5, Hz; lia.
Qed.

Lemma mul_outer_spec (bs : list Z) :
  dig bs ->
  forall (as_ : list Z) (i : nat) (r : list Z),
  dig as_ -> dig r -> (i + length as_ + length bs <= length r)%nat ->
  (forall p, (i + length bs <= p)%nat -> nth p r 0 = 0) ->
  length (mul_outer i as_ bs r) = length r /\ dig (mul_outer i as_ bs r) /\
  value (mul_outer i as_ bs r) = value r + value as_ * value bs * 10 ^ Z.of_nat i.
Proof.
  intros Hbs as_. induction as_ as [|ai as' IH]; intros i r Has Hr Hlen Hz; simpl.
  - repeat split; auto. lia.
  - inversion Has as [|? ? Hai Has']; subst. simpl in Hlen.
    destruct (mul_row_spec ai i bs r Hai Hbs Hr ltac:(lia) Hz)
      as [R1 [R2 [R3 R4]]].
    destruct (IH (S i) (mul_row ai i bs r) Has' R2 ltac:(lia)
                 ltac:(intros p Hp; apply R4; lia)) as [I1 [I2 I3]].
    split; [lia|]. split; [exact I2|].
    rewrite I3, R3, Nat2Z.inj_succ, Z.pow_succ_r by lia. ring.
Qed.

End Schoolbook.

Lemma Mul_comm (a b : BCD) :
  wf_digits (digits a) = true -> wf_digits (digits b) = true -> Mul a b = Mul b a.
Proof.
  intros Ha Hb. apply wf_digits_dig in Ha, Hb. unfold Mul.
  rewrite orb_comm. destruct (IsZero b || IsZero a); [reflexivity|].
  set (la := length (digits a)). set (lb := length (digits b)).
  destruct (mul_outer_spec (digits b) Hb (digits a) 0 (repeat 0 (la + lb)) Ha
              (dig_repeat_zero _) ltac:(rewrite repeat_length; lia)
              ltac:(intros p _; apply nth_repeat_zero)) as [L1 [D1 V1]].
  destruct (mul_outer_spec (digits a) Ha (digits b) 0 (repeat 0 (lb + la)) Hb
              (dig_repeat_zero _) ltac:(rewrite repeat_length; lia)
              ltac:(intros p _; apply nth_repeat_zero)) as [L2 [D2 V2]].
  rewrite (dig_unique _ _ D1 D2) by
    (rewrite ?L1, ?L2, ?repeat_length; lia || (rewrite V1, V2, !value_repeat_zero; ring)).
  rewrite (Z.add_comm (scale a)), (bool_eqb_comm (negative a)). reflexivity.
Qed.

(** C9: addition and multiplication are commutative: [Add a b] and
    [Add b a] are the same value, and so are [Mul a b] and [Mul b a], for
    values whose digits are decimal digits (every value the package
    builds). *)
Theorem Add_Mul_commutative (a b : BCD) :
  wf_digits (digits a) = true -> wf_digits (digits b) = true ->
  Add a b = Add b a /\ Mul a b = Mul b a.
Proof.
  intros Ha Hb. split; [apply Add_comm | apply Mul_comm; assumption].
Qed.

Lemma Add_Mul_commutative_witness :
  wf_digits (digits (parse "123.45")) = true /\
  wf_digits (digits (parse "-67.89")) = true /\
  Add (parse "123.45") (parse "-67.89") = Add (parse "-67.89") (parse "123.45") /\
  Mul (parse "123.45") (parse "-67.89") = Mul (parse "-67.89") (parse "123.45").
Proof.
  assert (Ha : wf_digits (digits (parse "123.45")) = true) by reflexivity.
  assert (Hb : wf_digits (digits (parse "-67.89")) = true) by reflexivity.
  split; [exact Ha|]. split; [exact Hb|].
  apply (Add_Mul_commutative (parse "123.45") (parse "-67.89") Ha Hb).
Defined.

(** ** Parsing input without digits *)

Lemma str_app_nil_r (s : string) : (s ++ EmptyString)%string = s.
Proof. induction s as [|c s IH]; simpl; [reflexivity|]. rewrite IH. reflexivity. Qed.

Lemma str_app_assoc (s t u : string) : (s ++ (t ++ u))%string = ((s ++ t) ++ u)%string.
Proof. induction s as [|c s IH]; simpl; [reflexivity|]. rewrite IH. reflexivity. Qed.

Lemma list_ascii_of_string_app' (s t : string) :
  list_ascii_of_string (s ++ t) = list_ascii_of_string s ++ list_ascii_of_string t.
Proof. induction s as [|c s IH]; simpl; [reflexivity|]. rewrite IH. reflexivity. Qed.

Lemma rev_string_app (s t : string) :
  rev_string (s ++ t) = (rev_string t ++ rev_string s)%string.
Proof.
  induction s as [|c s IH]; simpl.
  - rewrite str_app_nil_r. reflexivity.
  - rewrite IH. rewrite str_app_assoc. reflexivity.
Qed.

Lemma bytes_of_app (s t : string) : bytes_of (s ++ t) = bytes_of s ++ bytes_of t.
Proof. unfold bytes_of. rewrite list_ascii_of_string_app', map_app. reflexivity. Qed.

Lemma string_of_bytes_of (s : string) : string_of_bytes (bytes_of s) = s.
Proof.
  unfold string_of_bytes, bytes_of, byte_of. induction s as [|c s IH]; [reflexivity|].
  cbn [list_ascii_of_string map string_of_list_ascii].
  rewrite Nat2Z.id, ascii_nat_embedding, IH. reflexivity.
Qed.

Lemma IsSpace_cases (r : Z) : IsSpace r = true ->
  r = 9 \/ r = 10 \/ r = 11 \/ r = 12 \/ r = 13 \/ r = 32 \/ r = 133 \/ r = 160 \/
  r = 5760 \/ r = 8192 \/ r = 8193 \/ r = 8194 \/ r = 8195 \/ r = 8196 \/ r = 8197 \/
  r = 8198 \/ r = 8199 \/ r = 8200 \/ r = 8201 \/ r = 8202 \/ r = 8232 \/ r = 8233 \/
  r = 8239 \/ r = 8287 \/ r = 12288.
Proof.
  unfold IsSpace. intros H.
  destruct ((0 <=? r) && (r <=? 255)).
  - repeat (apply orb_true_iff in H as [H|H]); apply Z.eqb_eq in H; lia.
  - repeat (apply orb_true_iff in H as [H|H]); try (apply Z.eqb_eq in H; lia).
    apply andb_true_iff in H as [H1 H2]. apply Z.leb_le in H1. apply Z.leb_le in H2. lia.
Qed.

Lemma asciiSpace_IsSpace (c : Z) : asciiSpace c = true -> IsSpace c = true.
Proof.
  unfold asciiSpace. intros H.
  repeat (apply orb_true_iff in H as [H|H]); apply Z.eqb_eq in H; subst c; reflexivity.
Qed.

Lemma DecodeRune_ascii (c : Z) (rest : list Z) :
  (c <? RuneSelf) = true -> DecodeRune (c :: rest) = (c, 1%nat).
Proof. intros H. unfold DecodeRune. rewrite H. reflexivity. Qed.

Lemma DecodeRune_space (r : Z) (rest : list Z) :
  IsSpace r = true -> DecodeRune (EncodeRune r ++ rest) = (r, length (EncodeRune r)).
Proof.
  intros H. apply IsSpace_cases in H. repeat destruct H as [H|H]; subst r; reflexivity.
Qed.

Lemma EncodeRune_space_shape (r : Z) : IsSpace r = true ->
  (r < 128 /\ EncodeRune r = [r] /\ asciiSpace r = true) \/
  ((RuneSelf <=? hd 0 (EncodeRune r)) && (RuneSelf <=? hd 0 (rev (EncodeRune r))) = true /\
   EncodeRune r <> []).
Proof.
  intros H. apply IsSpace_cases in H. repeat destruct H as [H|H]; subst r;
    first [left; split; [lia|split; reflexivity]
          |right; split; [reflexivity|discriminate]].
Qed.

Lemma EncodeRune_length (r : Z) : (1 <= length (EncodeRune r))%nat.
Proof.
  unfold EncodeRune. destruct (r <? 128); [simpl; lia|].
  destruct (r <? 2048); [simpl; lia|]. destruct (r <? 65536); simpl; lia.
Qed.

Lemma flat_map_EncodeRune_length (rs : list Z) :
  (length rs <= length (flat_map EncodeRune rs))%nat.
Proof.
  induction rs as [|r rs IH]; [simpl; lia|].
  cbn [flat_map]. rewrite length_app. pose proof (EncodeRune_length r). simpl. lia.
Qed.

Lemma skipn_app_len (p e : list Z) : skipn (length p) (p ++ e) = e.
Proof. induction p as [|x p IH]; [reflexivity|]. exact IH. Qed.

Lemma firstn_app_len (p e : list Z) : firstn (length p) (p ++ e) = p.
Proof. induction p as [|x p IH]; [reflexivity|]. simpl. rewrite IH. reflexivity. Qed.

Lemma scan_rune_start_step (f : nat) (s : list Z) (start lim : Z) :
  scan_rune_start (S f) s start lim =
  if start <? lim then start
  else if RuneStart (nth (Z.to_nat start) s 0) then start
  else scan_rune_start f s (start - 1) lim.
Proof. reflexivity. Qed.

Lemma DecodeLastRune_1 (p : list Z) (c : Z) :
  (c <? RuneSelf) = true -> DecodeLastRune (p ++ [c]) = (c, 1%nat).
Proof.
  intros H. unfold DecodeLastRune. cbv zeta. rewrite length_app. cbn [length].
  replace (Z.of_nat (length p + 1) =? 0) with false by (symmetry; apply Z.eqb_neq; lia).
  replace (Z.to_nat (Z.of_nat (length p + 1) - 1)) with (length p) by lia.
  rewrite nth_middle, H. reflexivity.
Qed.

Lemma DecodeLastRune_2 (p : list Z) (a b r : Z) :
  RuneStart a = true -> (RuneSelf <=? b) = true -> DecodeRune [a; b] = (r, 2%nat) ->
  DecodeLastRune (p ++ [a; b]) = (r, 2%nat).
Proof.
  intros Ha Hb Hd. apply Z.leb_le in Hb.
  unfold DecodeLastRune, UTFMax. cbv zeta. rewrite length_app. cbn [length].
  replace (Z.of_nat (length p + 2) =? 0) with false by (symmetry; apply Z.eqb_neq; lia).
  replace (Z.to_nat (Z.of_nat (length p + 2) - 1)) with (length p + 1)%nat by lia.
  rewrite app_nth2_plus. cbn [nth].
  rewrite (proj2 (Z.ltb_ge b RuneSelf)) by lia.
  replace (Z.of_nat (length p + 2) - 1 - 1) with (Z.of_nat (length p)) by lia.
  rewrite scan_rune_start_step.
  rewrite (proj2 (Z.ltb_ge (Z.of_nat (length p)) _)) by lia.
  rewrite Nat2Z.id, nth_middle, Ha.
  rewrite (proj2 (Z.ltb_ge (Z.of_nat (length p)) 0)) by lia.
  rewrite Nat2Z.id, skipn_app_len, Hd.
  replace (Z.of_nat (length p) + Z.of_nat 2 =? Z.of_nat (length p + 2)) with true
    by (symmetry; apply Z.eqb_eq; lia).
  reflexivity.
Qed.

Lemma DecodeLastRune_3 (p : list Z) (a b c r : Z) :
  RuneStart a = true -> RuneStart b = false -> (RuneSelf <=? c) = true ->
  DecodeRune [a; b; c] = (r, 3%nat) ->
  DecodeLastRune (p ++ [a; b; c]) = (r, 3%nat).
Proof.
  intros Ha Hb Hc Hd. apply Z.leb_le in Hc.
  unfold DecodeLastRune, UTFMax. cbv zeta. rewrite length_app. cbn [length].
  replace (Z.of_nat (length p + 3) =? 0) with false by (symmetry; apply Z.eqb_neq; lia).
  replace (Z.to_nat (Z.of_nat (length p + 3) - 1)) with (length p + 2)%nat by lia.
  rewrite app_nth2_plus. cbn [nth].
  rewrite (proj2 (Z.ltb_ge c RuneSelf)) by lia.
  replace (Z.of_nat (length p + 3) - 1 - 1) with (Z.of_nat (length p) + 1) by lia.
  rewrite scan_rune_start_step.
  rewrite (proj2 (Z.ltb_ge (Z.of_nat (length p) + 1) _)) by lia.
  replace (Z.to_nat (Z.of_nat (length p) + 1)) with (length p + 1)%nat by lia.
  rewrite app_nth2_plus. cbn [nth]. rewrite Hb.
  replace (Z.of_nat (length p) + 1 - 1) with (Z.of_nat (length p)) by lia.
  rewrite scan_rune_start_step.
  rewrite (proj2 (Z.ltb_ge (Z.of_nat (length p)) _)) by lia.
  rewrite Nat2Z.id, nth_middle, Ha.
  rewrite (proj2 (Z.ltb_ge (Z.of_nat (length p)) 0)) by lia.
  rewrite Nat2Z.id, skipn_app_len, Hd.
  replace (Z.of_nat (length p) + Z.of_nat 3 =? Z.of_nat (length p + 3)) with true
    by (symmetry; apply Z.eqb_eq; lia).
  reflexivity.
Qed.

Lemma DecodeLastRune_space (p : list Z) (r : Z) :
  IsSpace r = true -> DecodeLastRune (p ++ EncodeRune r) = (r, length (EncodeRune r)).
Proof.
  intros H. apply IsSpace_cases in H. repeat destruct H as [H|H]; subst r;
    first [apply DecodeLastRune_1; reflexivity
          |apply DecodeLastRune_2; reflexivity
          |apply DecodeLastRune_3; reflexivity].
Qed.

Lemma trim_left_func_spaces (rs : list Z) (c : Z) (rest : list Z) (fuel : nat) :
  forallb IsSpace rs = true -> (c <? RuneSelf) = true -> IsSpace c = false ->
  (length (flat_map EncodeRune rs ++ c :: rest) <= fuel)%nat ->
  trim_left_func fuel IsSpace (flat_map EncodeRune rs ++ c :: rest) = c :: rest.
Proof.
  revert fuel. induction rs as [|r rs IH]; intros fuel Hs Hc Hn L.
  - destruct fuel as [|k]; [simpl in L; lia|].
    cbn [flat_map app trim_left_func]. rewrite DecodeRune_ascii by exact Hc.
    cbv iota. rewrite Hn. reflexivity.
  - apply andb_prop in Hs as [Hr Hs]. cbn [flat_map] in *. rewrite <- app_assoc in *.
    pose proof (EncodeRune_length r) as Lr. rewrite length_app in L.
    destruct fuel as [|k]; [lia|].
    cbn [trim_left_func]. rewrite DecodeRune_space by exact Hr. cbv iota.
    rewrite Hr, skipn_app_len.
    destruct (EncodeRune r ++ flat_map EncodeRune rs ++ c :: rest) eqn:E.
    + apply app_eq_nil in E as [E _]. rewrite E in Lr. simpl in Lr. lia.
    + apply IH; auto. lia.
Qed.

Lemma last_index_step (k : nat) (f : Z -> bool) (s : list Z) (i : nat) :
  last_index_func (S k) f s (S i) =
  let '(r, size) := DecodeLastRune (firstn (S i) s) in
  let i := (S i - size)%nat in
  if negb (f r) then Z.of_nat i else last_index_func k f s i.
Proof. reflexivity. Qed.

Lemma last_index_spaces (c : Z) (rs : list Z) :
  forallb IsSpace rs = true -> (c <? RuneSelf) = true -> IsSpace c = false ->
  forall (Y : list Z) (fuel : nat), (length rs < fuel)%nat ->
  last_index_func fuel IsSpace ((c :: flat_map EncodeRune rs) ++ Y)
    (length (c :: flat_map EncodeRune rs)) = 0.
Proof.
  induction rs as [|r rs IH] using rev_ind; intros Hs Hc Hn Y fuel L.
  - destruct fuel as [|k]; [simpl in L; lia|].
    cbn [flat_map length]. rewrite last_index_step.
    cbn [firstn app]. change (c :: firstn 0 Y) with [c]. pose proof (DecodeLastRune_1 [] c Hc) as D. simpl in D. rewrite D.
    cbv iota zeta. rewrite Hn. reflexivity.
  - rewrite forallb_app in Hs. apply andb_prop in Hs as [Hs Hr].
    cbn [forallb] in Hr. rewrite andb_true_r in Hr.
    rewrite flat_map_app. cbn [flat_map]. rewrite app_nil_r.
    set (E := flat_map EncodeRune rs) in *. set (e := EncodeRune r).
    rewrite length_app in L. cbn [length] in L.
    destruct fuel as [|k]; [lia|].
    cbn [length]. rewrite last_index_step.
    change (S (length (E ++ e))) with (length (c :: E ++ e)).
    change ((c :: E ++ e) ++ Y) with ((c :: E ++ e) ++ Y).
    rewrite firstn_app_len.
    change (c :: E ++ e) with ((c :: E) ++ e).
    rewrite (DecodeLastRune_space (c :: E) r Hr : DecodeLastRune ((c :: E) ++ e) = (r, length e)). cbv iota zeta.
    rewrite Hr. cbn [negb].
    replace (length ((c :: E) ++ e) - length e)%nat with (length (c :: E))
      by (rewrite length_app; lia).
    replace (((c :: E) ++ e) ++ Y) with ((c :: E) ++ (e ++ Y)) by (rewrite <- app_assoc; reflexivity).
    apply IH; auto. lia.
Qed.

Lemma TrimRightFunc_spaces (c : Z) (rs : list Z) :
  forallb IsSpace rs = true -> (c <? RuneSelf) = true -> IsSpace c = false ->
  TrimRightFunc (c :: flat_map EncodeRune rs) IsSpace = [c].
Proof.
  intros Hs Hc Hn. unfold TrimRightFunc. cbv zeta.
  pose proof (flat_map_EncodeRune_length rs) as L.
  pose proof (last_index_spaces c rs Hs Hc Hn [] (length (c :: flat_map EncodeRune rs)))
    as I.
  rewrite app_nil_r in I. rewrite I by (simpl; lia).
  change (nth (Z.to_nat 0) (c :: flat_map EncodeRune rs) 0) with c. apply Z.ltb_lt in Hc.
  rewrite (proj2 (Z.leb_gt RuneSelf c)) by exact Hc. reflexivity.
Qed.

Lemma TrimFunc_spaces (rs1 rs2 : list Z) (c : Z) :
  forallb IsSpace rs1 = true -> forallb IsSpace rs2 = true ->
  (c <? RuneSelf) = true -> IsSpace c = false ->
  TrimFunc (flat_map EncodeRune rs1 ++ c :: flat_map EncodeRune rs2) IsSpace = [c].
Proof.
  intros H1 H2 Hc Hn. unfold TrimFunc, TrimLeftFunc.
  rewrite trim_left_func_spaces by auto.
  apply TrimRightFunc_spaces; assumption.
Qed.

Lemma trim_space_right_spaces (c : Z) (rs : list Z) :
  forallb IsSpace rs = true -> (c <? RuneSelf) = true -> IsSpace c = false ->
  trim_space_right (rev (c :: flat_map EncodeRune rs)) = [c].
Proof.
  induction rs as [|r rs IH] using rev_ind; intros Hs Hc Hn.
  - assert (Ha : asciiSpace c = false).
    { destruct (asciiSpace c) eqn:E; [|reflexivity].
      apply asciiSpace_IsSpace in E. congruence. }
    cbn. apply Z.ltb_lt in Hc. rewrite (proj2 (Z.leb_gt RuneSelf c)) by exact Hc.
    rewrite Ha. reflexivity.
  - pose proof Hs as Hs0.
    rewrite forallb_app in Hs. apply andb_prop in Hs as [Hs Hr].
    cbn [forallb] in Hr. rewrite andb_true_r in Hr.
    rewrite flat_map_app. cbn [flat_map]. rewrite app_nil_r.
    destruct (EncodeRune_space_shape r Hr) as [[Hlt [He Ha]] | [Hb Hne]].
    + rewrite He.
      replace (rev (c :: flat_map EncodeRune rs ++ [r]))
        with (r :: rev (c :: flat_map EncodeRune rs))
        by (cbn [rev]; rewrite rev_unit; reflexivity).
      cbn [trim_space_right].
      rewrite (proj2 (Z.leb_gt RuneSelf r)) by (unfold RuneSelf; lia).
      rewrite Ha. apply IH; auto.
    + destruct (rev (EncodeRune r)) as [|l ls] eqn:Er.
      { destruct (EncodeRune r) as [|x xs] eqn:Ex; [congruence|].
        cbn [rev] in Er. apply app_eq_nil in Er as [_ Er]. discriminate. }
      assert (Hrv : rev (c :: flat_map EncodeRune rs ++ EncodeRune r)
                    = l :: (ls ++ rev (c :: flat_map EncodeRune rs))).
      { cbn [rev]. rewrite rev_app_distr, Er. cbn [app]. rewrite <- app_assoc. reflexivity. }
      rewrite Hrv. cbn [trim_space_right].
      apply andb_prop in Hb as [_ Hl]. cbn [hd] in Hl. rewrite Hl.
      rewrite <- Hrv, rev_involutive.
      replace (flat_map EncodeRune rs ++ EncodeRune r) with (flat_map EncodeRune (rs ++ [r]))
        by (rewrite flat_map_app; cbn [flat_map]; rewrite app_nil_r; reflexivity).
      apply TrimRightFunc_spaces; assumption.
Qed.

Lemma trim_space_left_spaces (rs : list Z) (c : Z) (rest : list Z) :
  forallb IsSpace rs = true -> (c <? RuneSelf) = true -> IsSpace c = false ->
  trim_space_left (flat_map EncodeRune rs ++ c :: rest) = trim_space_right (rev (c :: rest)) \/
  exists rs', forallb IsSpace rs' = true /\
    trim_space_left (flat_map EncodeRune rs ++ c :: rest)
    = TrimFunc (flat_map EncodeRune rs' ++ c :: rest) IsSpace.
Proof.
  induction rs as [|r rs IH]; intros Hs Hc Hn.
  - left. cbn [flat_map app trim_space_left].
    assert (Ha : asciiSpace c = false).
    { destruct (asciiSpace c) eqn:E; [|reflexivity].
      apply asciiSpace_IsSpace in E. congruence. }
    apply Z.ltb_lt in Hc. rewrite (proj2 (Z.leb_gt RuneSelf c)) by exact Hc.
    rewrite Ha. reflexivity.
  - apply andb_prop in Hs as [Hr Hs'].
    destruct (EncodeRune_space_shape r Hr) as [[Hlt [He Ha]] | [Hb Hne]].
    + cbn [flat_map]. rewrite He. cbn [app trim_space_left].
      rewrite (proj2 (Z.leb_gt RuneSelf r)) by (unfold RuneSelf; lia).
      rewrite Ha. apply IH; auto.
    + right. exists (r :: rs). split; [exact (andb_true_intro (conj Hr Hs'))|].
      cbn [flat_map]. destruct (EncodeRune r) as [|b bs] eqn:Eb; [congruence|].
      apply andb_prop in Hb as [Hb _]. cbn [hd] in Hb.
      cbn [app trim_space_left]. rewrite Hb. reflexivity.
Qed.

Lemma TrimSpace_padded_char (ws1 ws2 : string) (a : ascii) :
  space_padding ws1 -> space_padding ws2 ->
  (byte_of a <? RuneSelf) = true -> IsSpace (byte_of a) = false ->
  TrimSpace (ws1 ++ String a EmptyString ++ ws2) = String a EmptyString.
Proof.
  intros [rs1 [S1 B1]] [rs2 [S2 B2]] Hc Hn. unfold TrimSpace.
  rewrite !bytes_of_app, B1, B2.
  change (bytes_of (String a EmptyString)) with [byte_of a]. cbn [app].
  destruct (trim_space_left_spaces rs1 (byte_of a) (flat_map EncodeRune rs2) S1 Hc Hn)
    as [E|[rs' [S' E]]]; rewrite E.
  - rewrite trim_space_right_spaces by assumption.
    apply (string_of_bytes_of (String a EmptyString)).
  - rewrite TrimFunc_spaces by assumption.
    apply (string_of_bytes_of (String a EmptyString)).
Qed.

(** C10: the string constructor trims surrounding white space first (the
    runes of [unicode.IsSpace], multi-byte ones included), and the
    digit-less inputs "-", "+" and ".", bare or padded with white space,
    parse to canonical zero instead of [ErrInvalidFormat]. *)
Theorem parse_digitless_is_zero (ws1 ws2 t : string) :
  space_padding ws1 -> space_padding ws2 ->
  (t = "-" \/ t = "+" \/ t = ".")%string ->
  TrimSpace (ws1 ++ t ++ ws2) = t /\ parseString (ws1 ++ t ++ ws2) = Parsed Zero.
Proof.
  intros H1 H2 Ht.
  assert (Htrim : TrimSpace (ws1 ++ t ++ ws2) = t)
    by (destruct Ht as [->|[->| ->]]; apply TrimSpace_padded_char; auto).
  split; [exact Htrim|].
  unfold parseString. rewrite Htrim.
  destruct Ht as [->|[->| ->]]; reflexivity.
Qed.

Lemma parse_digitless_is_zero_witness :
  space_padding (string_of_bytes [32; 194; 160]) /\
  space_padding (string_of_bytes [227; 128; 128; 9]) /\
  TrimSpace (string_of_bytes [32; 194; 160] ++ "." ++ string_of_bytes [227; 128; 128; 9])
    = "."%string /\
  parseString (string_of_bytes [32; 194; 160] ++ "." ++ string_of_bytes [227; 128; 128; 9])
    = Parsed Zero.
Proof.
  assert (H1 : space_padding (string_of_bytes [32; 194; 160]))
    by (exists [32; 160]; split; reflexivity).
  assert (H2 : space_padding (string_of_bytes [227; 128; 128; 9]))
    by (exists [12288; 9]; split; reflexivity).
  split; [exact H1|]. split; [exact H2|].
  apply (parse_digitless_is_zero _ _ "."%string H1 H2). right; right; reflexivity.
Defined.

(** ** Division scenarios and rounding at the boundary *)

(** C1 (code defect): [Div] does not return the correctly rounded
    quotient.  It keeps one guard digit and throws the remainder away, so
    1/11 rounded away from zero at scale 0 gives 0 instead of 1; and its
    final [Round] to scale 0 strips the units zeros, so 100/5 at scale 0
    gives 2 instead of 20. *)
Theorem Div_not_correctly_rounded :
  Div (parse "1") (parse "11") 0 RoundUp = Ok Zero /\
  Div (parse "100") (parse "5") 0 RoundHalfUp = Ok (mkBCD [2] 0 false) /\
  String_of (mkBCD [2] 0 false) = "2"%string.
Proof. vm_compute. repeat split. Qed.

(** C3, as stated, is false: [String] keeps the result's scale, so the
    quotient 100/5 at scale 10 prints with ten fractional zeros. *)
Lemma Div_scenario_string_not_20 :
  exists q, Div (parse "100") (parse "5") 10 RoundHalfUp = Ok q /\
            String_of q <> "20"%string.
Proof.
  exists (mkBCD (repeat 0 11 ++ [2]) 10 false). split; [vm_compute; reflexivity|].
  vm_compute. discriminate.
Qed.

(** C3 (amended): [String] prints every digit of the scale, so
    [Div(100, 5, 10, HalfUp)] prints "20.0000000000" and
    [Div(10, 4, 10, HalfUp).Round(2, HalfUp)] prints "2.50"; after
    [Normalize] they print "20" and "2.5". *)
Theorem Div_scenario_strings :
  (exists q, Div (parse "100") (parse "5") 10 RoundHalfUp = Ok q /\
             String_of q = "20.0000000000"%string /\
             String_of (Normalize q) = "20"%string) /\
  (exists q, Div (parse "10") (parse "4") 10 RoundHalfUp = Ok q /\
             String_of (Round q 2 RoundHalfUp) = "2.50"%string /\
             String_of (Normalize (Round q 2 RoundHalfUp)) = "2.5"%string).
Proof.
  split.
  - exists (mkBCD (repeat 0 11 ++ [2]) 10 false). vm_compute. repeat split.
  - exists (mkBCD (repeat 0 9 ++ [5; 2]) 10 false). vm_compute. repeat split.
Qed.

(** C2 (code defect): [Round] passes [shouldRoundUp] only the digit right
    after the rounding digit, so nonzero digits further out are ignored:
    1.001 rounded away from zero to scale 0 gives 1, and 2.5001 with
    ties-to-even gives 2. *)
Theorem Round_ignores_far_digits :
  Round (parse "1.001") 0 RoundUp = mkBCD [1] 0 false /\
  Round (parse "2.5001") 0 RoundHalfEven = mkBCD [2] 0 false.
Proof. vm_compute. split; reflexivity. Qed.

(** C4 (code defect): when every digit is discarded, [Round] passes
    [isEven = false] although the retained digit is 0, so 0.5 rounds to 1
    with ties-to-even; and a round-up to scale [places >= 2] puts the 1 at
    the most significant place, so 0.009 rounds to 0.10, not 0.01. *)
Theorem Round_all_discarded_slips :
  Round (parse "0.5") 0 RoundHalfEven = mkBCD [1] 0 false /\
  String_of (Round (parse "0.5") 0 RoundHalfEven) = "1"%string /\
  Round (parse "0.009") 2 RoundHalfUp = mkBCD [0; 1] 2 false /\
  String_of (Round (parse "0.009") 2 RoundHalfUp) = "0.10"%string.
Proof. vm_compute. repeat split. Qed.

(** ** Negative zero *)

(** C5 (code defect): [Mod] copies the dividend's sign onto a zero
    remainder, [DivInt] sets the sign of a zero quotient of scale 0, and
    [fromInt64] of the minimum [int64] keeps the sign with no digits: all
    three values are zero with the sign flag set, and such a zero
    compares below [Zero]. *)
Theorem negative_zero_results :
  Mod (parse "-4") (parse "2") = Ok (mkBCD [0] 0 true) /\
  DivInt (parse "-1") (parse "2") = Ok (mkBCD [0] 0 true) /\
  fromInt64 (- 2 ^ 63) = mkBCD [] 0 true /\
  IsZero (mkBCD [0] 0 true) = true /\ IsZero (mkBCD [] 0 true) = true /\
  Cmp (mkBCD [0] 0 true) Zero = -1.
Proof. vm_compute. repeat split. Qed.

(** ** Conversion to [int64] *)

(** C6 (code defect): [ToInt64] of 10.5 is 1, since [Round] to scale 0
    strips the units zero of the truncated 10; and [ToInt64] of 10^18, which
    fits in an [int64], reports [ErrOverflow] because the guard
    [multiplier > MaxInt64/10] fires at the 19th digit. *)
Theorem ToInt64_slips :
  ToInt64 (parse "10.5") = Ok 1 /\
  ToInt64 (parse "1000000000000000000") = Err ErrOverflow /\
  10 ^ 18 <= MaxInt64.
Proof. vm_compute. repeat split. discriminate. Qed.

(** ** Integer division and modulo *)

(** C7 (code defect): the digit-by-digit fallback of [longDivision]
    (divisor or dividend longer than 15 digits) does not place quotient
    digits, so [DivInt(2*10^16, 10^15)] is 299, not 20; and [Mod] returns
    the remainder of the scaled integers at scale 0, so
    [Mod(10.50, 3.25)] is 100, not 0.75. *)
Theorem DivInt_Mod_slips :
  DivInt (parse "20000000000000000") (parse "1000000000000000")
    = Ok (mkBCD [9; 9; 2] 0 false) /\
  String_of (mkBCD [9; 9; 2] 0 false) = "299"%string /\
  Mod (parse "10.50") (parse "3.25") = Ok (mkBCD [0; 0; 1] 0 false) /\
  String_of (mkBCD [0; 0; 1] 0 false) = "100"%string.
Proof. vm_compute. repeat split. Qed.

(** * Further properties of the package *)

(** ** Comparison and the order predicates *)

Lemma cmp_from_top_range (x y : list Z) :
  cmp_from_top x y = -1 \/ cmp_from_top x y = 0 \/ cmp_from_top x y = 1.
Proof.
  revert y; induction x as [|p xs IH]; intros [|q ys]; simpl; auto.
  destruct (q <? p); auto. destruct (p <? q); auto.
Qed.

Lemma compareMagnitudes_range (a b : BCD) :
  compareMagnitudes a b = -1 \/ compareMagnitudes a b = 0 \/ compareMagnitudes a b = 1.
Proof.
  unfold compareMagnitudes. destruct (alignDecimals a b) as [x y].
  destruct (len (digits y) <? len (digits x)); auto.
  destruct (len (digits x) <? len (digits y)); auto.
  apply cmp_from_top_range.
Qed.

Lemma compareMagnitudes_refl (a : BCD) : compareMagnitudes a a = 0.
Proof.
  apply compareMagnitudes_zero. unfold alignDecimals. rewrite Z.eqb_refl. reflexivity.
Qed.

(** [compareMagnitudes] does not look at the sign flags. *)
Lemma compareMagnitudes_flags (da db : list Z) (sa sb : Z) (x y x' y' : bool) :
  compareMagnitudes (mkBCD da sa x) (mkBCD db sb y)
  = compareMagnitudes (mkBCD da sa x') (mkBCD db sb y').
Proof.
  unfold compareMagnitudes, alignDecimals, Copy; simpl.
  destruct (sa =? sb); [reflexivity|]. destruct (sa <? sb); reflexivity.
Qed.

Lemma Cmp_antisym (a b : BCD) : Cmp b a = - Cmp a b.
Proof.
  unfold Cmp. rewrite (compareMagnitudes_antisym a b).
  destruct (negative a), (negative b); simpl; lia.
Qed.

Lemma Cmp_refl (a : BCD) : Cmp a a = 0.
Proof.
  unfold Cmp. rewrite compareMagnitudes_refl. destruct (negative a); reflexivity.
Qed.

Lemma Cmp_range (a b : BCD) : Cmp a b = -1 \/ Cmp a b = 0 \/ Cmp a b = 1.
Proof.
  unfold Cmp. destruct (compareMagnitudes_range a b) as [H|[H|H]]; rewrite H;
    destruct (negative a), (negative b); simpl; auto.
Qed.

(** X1: [Cmp] only returns -1, 0 or 1, swapping its operands negates the
    result, and every value compares equal to itself. *)
Theorem Cmp_laws (a b : BCD) :
  (Cmp a b = -1 \/ Cmp a b = 0 \/ Cmp a b = 1) /\ Cmp b a = - Cmp a b /\ Cmp a a = 0.
Proof.
  split; [apply Cmp_range|]. split; [apply Cmp_antisym|apply Cmp_refl].
Qed.

(** X2: the order predicates are consistent: [a < b] exactly when [b > a],
    [a <= b] exactly when [b >= a], [Equal] is symmetric, [a <= b] is
    [a < b] or [a = b], and it is the negation of [a > b]. *)
Theorem order_predicates_consistent (a b : BCD) :
  LessThan a b = GreaterThan b a /\ LessOrEqual a b = GreaterOrEqual b a /\
  Equal a b = Equal b a /\ LessOrEqual a b = LessThan a b || Equal a b /\
  LessOrEqual a b = negb (GreaterThan a b).
Proof.
  unfold LessThan, LessOrEqual, GreaterThan, GreaterOrEqual, Equal.
  rewrite (Cmp_antisym a b).
  destruct (Cmp_range a b) as [H|[H|H]]; rewrite H; repeat split.
Qed.

(** ** Negation and absolute value *)

Lemma Neg_nonzero (b : BCD) :
  IsZero b = false -> Neg b = mkBCD (digits b) (scale b) (negb (negative b)).
Proof. intros H. unfold Neg. rewrite H. reflexivity. Qed.

(** X3: [Neg] is an involution that keeps zero as it is and swaps
    [IsNegative] with [IsPositive]. *)
Theorem Neg_involutive_swaps_sign (b : BCD) :
  Neg (Neg b) = b /\ IsZero (Neg b) = IsZero b /\
  IsNegative (Neg b) = IsPositive b /\ IsPositive (Neg b) = IsNegative b.
Proof.
  destruct b as [ds sc ng].
  unfold Neg, IsNegative, IsPositive, IsZero, Copy; simpl.
  destruct (isZero ds) eqn:Hz; simpl; rewrite ?Hz; simpl;
    destruct ng; repeat split.
Qed.

(** X4: [Abs] never yields a negative value, ignores the sign of its
    operand, is idempotent, is positive exactly for nonzero values, and
    every value is at most its absolute value. *)
Theorem Abs_properties (b : BCD) :
  IsNegative (Abs b) = false /\ Abs (Neg b) = Abs b /\ Abs (Abs b) = Abs b /\
  IsPositive (Abs b) = negb (IsZero b) /\ LessOrEqual b (Abs b) = true.
Proof.
  destruct b as [ds sc ng].
  unfold Abs, Neg, IsNegative, IsPositive, IsZero, LessOrEqual, Cmp, Copy; simpl.
  destruct (isZero ds) eqn:Hz; simpl; rewrite ?Hz;
    destruct ng; simpl; rewrite ?compareMagnitudes_refl; repeat split.
Qed.

(** X5: for nonzero operands, negating both reverses the comparison. *)
Theorem Cmp_Neg_reverses (a b : BCD) :
  IsZero a = false -> IsZero b = false -> Cmp (Neg a) (Neg b) = Cmp b a.
Proof.
  intros Ha Hb. rewrite (Neg_nonzero a Ha), (Neg_nonzero b Hb), (Cmp_antisym a b).
  destruct a as [da sa na], b as [db sb nb]. unfold Cmp; simpl.
  rewrite (compareMagnitudes_flags da db sa sb (negb na) (negb nb) na nb).
  destruct na, nb; simpl; lia.
Qed.

Lemma Cmp_Neg_reverses_witness :
  IsZero (parse "1.5") = false /\ IsZero (parse "-2") = false /\
  Cmp (Neg (parse "1.5")) (Neg (parse "-2")) = Cmp (parse "-2") (parse "1.5").
Proof.
  assert (Ha : IsZero (parse "1.5") = false) by reflexivity.
  assert (Hb : IsZero (parse "-2") = false) by reflexivity.
  split; [exact Ha|]. split; [exact Hb|].
  exact (Cmp_Neg_reverses (parse "1.5") (parse "-2") Ha Hb).
Defined.

(** X6: a nonzero value minus itself, and a nonzero value plus its
    negation in either order, is exactly [Zero]. *)
Theorem Sub_self_is_Zero (a : BCD) :
  IsZero a = false -> Sub a a = Zero /\ Add a (Neg a) = Zero /\ Add (Neg a) a = Zero.
Proof.
  intros Ha. unfold Sub. rewrite (Neg_nonzero a Ha).
  destruct a as [da sa na]. unfold Add; simpl.
  rewrite (compareMagnitudes_flags da da sa sa na (negb na) na na).
  rewrite (compareMagnitudes_flags da da sa sa (negb na) na na na).
  rewrite compareMagnitudes_refl.
  destruct na; repeat split.
Qed.

Lemma Sub_self_is_Zero_witness :
  IsZero (parse "-12.50") = false /\
  Sub (parse "-12.50") (parse "-12.50") = Zero /\
  Add (parse "-12.50") (Neg (parse "-12.50")) = Zero /\
  Add (Neg (parse "-12.50")) (parse "-12.50") = Zero.
Proof.
  assert (Ha : IsZero (parse "-12.50") = false) by reflexivity.
  split; [exact Ha|]. exact (Sub_self_is_Zero (parse "-12.50") Ha).
Defined.

(** ** Rounding twice *)

Lemma Round_scale (b : BCD) (p : Z) (m : RoundingMode) :
  scale (Round b p m) <= Z.max 0 p.
Proof.
  unfold Round, Copy; cbv zeta.
  destruct (p <? 0) eqn:Hp; [apply Z.ltb_lt in Hp|apply Z.ltb_ge in Hp].
  all: destruct (scale b <=? _) eqn:E1; [apply Z.leb_le in E1; lia|].
  all: destruct (len (digits b) <=? _);
    [destruct (IsZero b); [simpl; lia|];
     destruct (shouldRoundUp _ _ _ _ _); [destruct (_ =? 0); simpl; lia|simpl; lia]
    |simpl; lia].
Qed.

Lemma Round_noop (b : BCD) (p : Z) (m : RoundingMode) :
  scale b <= Z.max 0 p -> Round b p m = b.
Proof.
  intros H. unfold Round, Copy; cbv zeta.
  destruct (p <? 0) eqn:Hp; [apply Z.ltb_lt in Hp|apply Z.ltb_ge in Hp];
    rewrite (proj2 (Z.leb_le _ _)) by lia; reflexivity.
Qed.

(** X7: the result of [Round] has at most [max 0 places] fractional
    digits, so rounding it again to the same scale, in any mode, returns
    it unchanged. *)
Theorem Round_idempotent (b : BCD) (p : Z) (m m' : RoundingMode) :
  scale (Round b p m) <= Z.max 0 p /\ Round (Round b p m) p m' = Round b p m.
Proof.
  split; [apply Round_scale|]. apply Round_noop, Round_scale.
Qed.

(** ** Normalization *)

Lemma isZero_app (l m : list Z) : isZero (l ++ m) = isZero l && isZero m.
Proof. unfold isZero. apply forallb_app. Qed.

Lemma isZero_repeat_zero (n : nat) : isZero (repeat 0 n) = true.
Proof. induction n as [|n IH]; [reflexivity|]. exact IH. Qed.

Lemma nth_repeat_app (n : nat) (l : list Z) : nth n (repeat 0 n ++ l) 0 = nth 0 l 0.
Proof. induction n as [|n IH]; [reflexivity|]. exact IH. Qed.

Lemma count_low_zeros_spec (f : nat) (l : list Z) :
  (count_low_zeros f l <= f)%nat /\ (count_low_zeros f l <= length l)%nat /\
  l = repeat 0 (count_low_zeros f l) ++ skipn (count_low_zeros f l) l /\
  ((count_low_zeros f l < f)%nat -> (count_low_zeros f l < length l)%nat ->
   nth (count_low_zeros f l) l 0 <> 0).
Proof.
  revert l; induction f as [|f IH]; intros l; simpl.
  - repeat split; lia.
  - destruct l as [|d t]; simpl; [repeat split; lia|].
    destruct d as [|p|p]; simpl.
    + destruct (IH t) as [H1 [H2 [H3 H4]]].
      split; [lia|]. split; [lia|]. split; [f_equal; exact H3|].
      intros Hf Hl. apply H4; lia.
    + repeat split; try lia; intros _ _; discriminate.
    + repeat split; try lia; intros _ _; discriminate.
Qed.

Lemma Normalize_cases (b : BCD) :
  Normalize b = b \/
  exists tz : nat,
    digits b = repeat 0 tz ++ digits (Normalize b) /\
    scale b = scale (Normalize b) + Z.of_nat tz /\
    negative (Normalize b) = negative b /\ 0 <= scale (Normalize b) /\
    (scale (Normalize b) = 0 \/
     exists d t, digits (Normalize b) = d :: t /\ d <> 0).
Proof.
  unfold Normalize, Copy.
  destruct ((scale b =? 0) || IsZero b) eqn:E0; [left; reflexivity|].
  apply orb_false_iff in E0 as [Es Ez]. apply Z.eqb_neq in Es.
  destruct (count_low_zeros_spec (Z.to_nat (scale b)) (digits b)) as [C1 [C2 [C3 C4]]].
  set (tz := count_low_zeros (Z.to_nat (scale b)) (digits b)) in *.
  destruct (0 <? tz)%nat eqn:Et; [|left; reflexivity].
  apply Nat.ltb_lt in Et. right. exists tz.
  destruct (skipn tz (digits b)) as [|d t] eqn:Hds.
  { exfalso. unfold IsZero in Ez. rewrite C3, app_nil_r, isZero_repeat_zero in Ez.
    discriminate. }
  try rewrite Hds in C3.
  assert (Hsc : Z.of_nat tz <= scale b) by lia.
  destruct ((scale b - Z.of_nat tz =? 0) || (length (d :: t) =? 0)%nat) eqn:E1.
  - simpl. split; [exact C3|]. apply orb_true_iff in E1 as [E1|E1].
    + apply Z.eqb_eq in E1. split; [lia|]. split; [reflexivity|]. split; [lia|].
      left; reflexivity.
    + discriminate.
  - simpl. split; [exact C3|]. split; [lia|]. split; [reflexivity|]. split; [lia|].
    right. exists d, t. split; [reflexivity|].
    apply orb_false_iff in E1 as [E1 _]. apply Z.eqb_neq in E1.
    rewrite C3 in C4. rewrite nth_repeat_app in C4. apply C4.
    + lia.
    + rewrite length_app, repeat_length. simpl. lia.
Qed.

Lemma Normalize_fixed (r : BCD) :
  (scale r = 0 \/ exists d t, digits r = d :: t /\ d <> 0) -> Normalize r = r.
Proof.
  intros H. unfold Normalize, Copy.
  destruct ((scale r =? 0) || IsZero r) eqn:E0; [reflexivity|].
  destruct H as [H|[d [t [Hd Hn]]]].
  - rewrite H in E0. discriminate.
  - assert (Hc : count_low_zeros (Z.to_nat (scale r)) (digits r) = O).
    { rewrite Hd. destruct (Z.to_nat (scale r)); [reflexivity|].
      destruct d; [congruence|reflexivity|reflexivity]. }
    rewrite Hc. reflexivity.
Qed.

Lemma Cmp_pad (k : nat) (r : BCD) : Cmp r (pad k r) = 0 /\ Cmp (pad k r) r = 0.
Proof.
  assert (H : Cmp r (pad k r) = 0).
  { unfold Cmp. assert (Hm : compareMagnitudes r (pad k r) = 0)
      by (apply compareMagnitudes_zero, alignDecimals_pad).
    rewrite Hm. unfold pad; simpl. destruct (negative r); reflexivity. }
  split; [exact H|]. rewrite Cmp_antisym, H. reflexivity.
Qed.

Lemma precision_strip_zeros (k : nat) (l : list Z) (s : Z) :
  0 <= s -> precision_strip (repeat 0 k ++ l) (s + Z.of_nat k) = precision_strip l s.
Proof.
  intros Hs. induction k as [|k IH]; simpl; [rewrite Z.add_0_r; reflexivity|].
  replace (0 <? s + Z.of_nat (S k)) with true by (symmetry; apply Z.ltb_lt; lia).
  simpl. replace (s + Z.of_nat (S k) - 1) with (s + Z.of_nat k) by lia.
  exact IH.
Qed.

(** X8: [Normalize] keeps the value as [Cmp] sees it, is idempotent and
    keeps [Precision]. *)
Theorem Normalize_keeps_value (b : BCD) :
  Cmp b (Normalize b) = 0 /\ Cmp (Normalize b) b = 0 /\
  Normalize (Normalize b) = Normalize b /\ Precision (Normalize b) = Precision b.
Proof.
  destruct (Normalize_cases b) as [H | [tz [H1 [H2 [H3 [H0 H4]]]]]].
  - rewrite !H, Cmp_refl. repeat split.
  - assert (Hb : b = pad tz (Normalize b)).
    { unfold pad. rewrite <- H1, H3, <- H2. destruct b; reflexivity. }
    destruct (Cmp_pad tz (Normalize b)) as [P1 P2]. rewrite <- Hb in P1, P2.
    split; [exact P2|]. split; [exact P1|].
    split; [apply Normalize_fixed; exact H4|].
    unfold Precision. rewrite H1, H2.
    rewrite precision_strip_zeros by exact H0. reflexivity.
Qed.

(** ** The values [parseString] builds *)

Lemma contains_char_app (q : ascii -> bool) (x y : string) :
  contains_char q (x ++ y) = contains_char q x || contains_char q y.
Proof.
  induction x as [|c x IH]; simpl; [reflexivity|]. rewrite IH, orb_assoc. reflexivity.
Qed.

Lemma trim_left_by_cases (p : ascii -> bool) (s : string) :
  trim_left_by p s = EmptyString \/
  exists c t, trim_left_by p s = String c t /\ p c = false.
Proof.
  induction s as [|c t IH]; simpl; [left; reflexivity|].
  destruct (p c) eqn:E; [exact IH|]. right. exists c, t. split; [reflexivity|exact E].
Qed.

Lemma rev_string_contains (q : ascii -> bool) (s : string) :
  contains_char q (rev_string s) = contains_char q s.
Proof.
  induction s as [|c t IH]; simpl; [reflexivity|].
  rewrite contains_char_app, IH. simpl. rewrite orb_false_r, orb_comm. reflexivity.
Qed.

Lemma trim_right_by_cases (p : ascii -> bool) (s : string) :
  trim_right_by p s = EmptyString \/
  contains_char (fun c => negb (p c)) (trim_right_by p s) = true.
Proof.
  unfold trim_right_by.
  destruct (trim_left_by_cases p (rev_string s)) as [H|[c [t [H Hc]]]]; rewrite H;
    [left; reflexivity|right].
  rewrite rev_string_contains. simpl. rewrite Hc. reflexivity.
Qed.

Lemma digit_values_wf (s : string) :
  forallb is_digit_char (list_ascii_of_string s) = true ->
  wf_digits (digit_values s) = true.
Proof.
  induction s as [|c t IH]; simpl; [reflexivity|].
  intros H. apply andb_prop in H as [Hc Ht].
  unfold is_digit_char in Hc. apply andb_prop in Hc as [Hc1 Hc2].
  apply Nat.leb_le in Hc1, Hc2.
  unfold wf_digits in *. simpl. rewrite IH by exact Ht.
  rewrite (proj2 (Z.leb_le _ _)) by lia. rewrite (proj2 (Z.leb_le _ _)) by lia.
  reflexivity.
Qed.

Lemma digit_values_nonzero (s : string) :
  forallb is_digit_char (list_ascii_of_string s) = true ->
  contains_char (fun c => negb (is_char "0"%char c)) s = true ->
  isZero (digit_values s) = false.
Proof.
  induction s as [|c t IH]; simpl; [discriminate|].
  intros H1 H2. apply andb_prop in H1 as [_ Ht].
  unfold isZero in *. simpl.
  apply orb_true_iff in H2 as [H2|H2].
  - unfold is_char in H2. destruct (Ascii.eqb_spec c "0"%char) as [E|E]; [discriminate|].
    assert (Hn : nat_of_ascii c <> 48%nat).
    { intros Hn. apply E. rewrite <- (ascii_nat_embedding c), Hn. reflexivity. }
    rewrite (proj2 (Z.eqb_neq _ _)) by lia. reflexivity.
  - rewrite IH by assumption. apply andb_false_r.
Qed.

Lemma forallb_rev' (f : Z -> bool) (l : list Z) : forallb f (rev l) = forallb f l.
Proof.
  induction l as [|x l IH]; simpl; [reflexivity|].
  rewrite forallb_app, IH. simpl. rewrite andb_true_r, andb_comm. reflexivity.
Qed.

Lemma forallb_trim_rev (f : Z -> bool) (r : list Z) :
  forallb f r = true -> forallb f (trim_rev r) = true.
Proof.
  induction r as [|x r IH]; simpl; [auto|].
  destruct x; auto. destruct r as [|y r]; auto.
  intros H. apply andb_prop in H as [_ H]. apply IH. exact H.
Qed.

Lemma isZero_trim_rev (r : list Z) : isZero (trim_rev r) = isZero r.
Proof.
  induction r as [|x r IH]; simpl; [reflexivity|].
  destruct x; try reflexivity. destruct r as [|y r]; [reflexivity|].
  rewrite IH. reflexivity.
Qed.

Lemma trim_rev_shape (r : list Z) :
  r <> [] -> exists x t, trim_rev r = x :: t /\ (x <> 0 \/ t = []).
Proof.
  induction r as [|x r IH]; intros Hr; [congruence|].
  destruct x as [|p|p].
  - destruct r as [|y r].
    + exists 0, []. auto.
    + apply IH. discriminate.
  - exists (Z.pos p), r. split; [reflexivity|left; lia].
  - exists (Z.neg p), r. split; [reflexivity|left; lia].
Qed.

Lemma parse_digits_canonical (ip dp : string) (neg : bool) (b : BCD) :
  (ip = "0"%string \/ exists c t, ip = String c t /\ is_char "0"%char c = false) ->
  (dp = EmptyString \/ contains_char (fun c => negb (is_char "0"%char c)) dp = true) ->
  (if negb (forallb is_digit_char (list_ascii_of_string (ip ++ dp)))
   then ParseError ErrInvalidFormat
   else if String.eqb (ip ++ dp) EmptyString || String.eqb (ip ++ dp) "0"
   then Parsed Zero
   else Parsed (mkBCD (trimTop (rev (digit_values (ip ++ dp))))
                      (Z.of_nat (String.length dp))
                      (neg && negb (isZero (trimTop (rev (digit_values (ip ++ dp)))))))) =
  Parsed b ->
  wf_digits (digits b) = true /\ 0 <= scale b /\
  (b = Zero \/ (IsZero b = false /\ exists ds d, digits b = ds ++ [d] /\ d <> 0)).
Proof.
  intros Hip Hdp H.
  destruct (forallb is_digit_char (list_ascii_of_string (ip ++ dp))) eqn:Hd;
    [|discriminate].
  destruct (String.eqb (ip ++ dp) EmptyString || String.eqb (ip ++ dp) "0") eqn:Hz.
  { injection H as <-. split; [reflexivity|]. split; [simpl; lia|]. left; reflexivity. }
  injection H as <-. cbn [digits scale].
  assert (Hc : contains_char (fun c => negb (is_char "0"%char c)) (ip ++ dp) = true).
  { rewrite contains_char_app. destruct Hdp as [Hdp|Hdp]; [|rewrite Hdp; apply orb_true_r].
    subst dp. rewrite str_app_nil_r in Hz.
    destruct Hip as [Hip|[c [t [Hip Hc]]]].
    - subst ip. discriminate.
    - subst ip. simpl. rewrite Hc. reflexivity. }
  pose proof (digit_values_nonzero _ Hd Hc) as Hnz.
  pose proof (digit_values_wf _ Hd) as Hwf.
  set (dv := digit_values (ip ++ dp)) in *.
  assert (Hds : trimTop (rev dv) = rev (trim_rev dv))
    by (unfold trimTop; rewrite rev_involutive; reflexivity).
  rewrite Hds.
  assert (Hz' : isZero (rev (trim_rev dv)) = false)
    by (unfold isZero; rewrite forallb_rev'; fold (isZero (trim_rev dv));
        rewrite isZero_trim_rev; exact Hnz).
  split; [unfold wf_digits; rewrite forallb_rev'; apply forallb_trim_rev; exact Hwf|].
  split; [lia|]. right. split; [exact Hz'|].
  assert (Hne : dv <> []) by (intros E; rewrite E in Hnz; discriminate).
  destruct (trim_rev_shape dv Hne) as [x [t [Ht Hx]]].
  rewrite Ht in Hz' |- *. exists (rev t), x. split; [reflexivity|].
  destruct Hx as [Hx|Hx]; [exact Hx|]. subst t. simpl in Hz'.
  unfold isZero in Hz'. simpl in Hz'. rewrite andb_true_r in Hz'.
  apply Z.eqb_neq in Hz'. exact Hz'.
Qed.

Lemma intPart_shape (y : string) :
  (if String.eqb (trim_left_by (is_char "0"%char) y) EmptyString then "0"%string
   else trim_left_by (is_char "0"%char) y) = "0"%string \/
  exists c t, (if String.eqb (trim_left_by (is_char "0"%char) y) EmptyString then "0"%string
               else trim_left_by (is_char "0"%char) y) = String c t /\
              is_char "0"%char c = false.
Proof.
  destruct (trim_left_by_cases (is_char "0"%char) y) as [H|[c [t [H Hc]]]];
    rewrite H; [left; reflexivity|right]. exists c, t. split; [reflexivity|exact Hc].
Qed.

Lemma decPart_shape (n : nat) (z : string) :
  (if (n =? 2)%nat then trim_right_by (is_char "0"%char) z else EmptyString) = EmptyString \/
  contains_char (fun c => negb (is_char "0"%char c))
    (if (n =? 2)%nat then trim_right_by (is_char "0"%char) z else EmptyString) = true.
Proof.
  destruct (n =? 2)%nat; [apply trim_right_by_cases|left; reflexivity].
Qed.

(** X9: every value [parseString] builds has decimal digits and a
    nonnegative scale, and it is either the canonical [Zero] or a nonzero
    value whose most significant digit is not 0; in particular it is
    never a negative zero. *)
Theorem parseString_canonical (s : string) (b : BCD) :
  parseString s = Parsed b ->
  wf_digits (digits b) = true /\ 0 <= scale b /\
  (b = Zero \/ (IsZero b = false /\ exists ds d, digits b = ds ++ [d] /\ d <> 0)).
Proof.
  intros H. unfold parseString in H. cbv zeta in H.
  destruct (TrimSpace s) as [|c t].
  { simpl in H. injection H as <-. split; [reflexivity|]. split; [simpl; lia|].
    left; reflexivity. }
  cbn [String.eqb contains_char] in H.
  destruct (_ || contains_char _ t); [discriminate|].
  destruct (is_char "-"%char c); [|destruct (is_char "+"%char c)];
    (destruct (2 <? length (split_dot _))%nat; [discriminate|]);
    (eapply parse_digits_canonical; [apply intPart_shape|apply decPart_shape|exact H]).
Qed.

Lemma parseString_canonical_witness :
  parseString " -0012.3400 "%string = Parsed (mkBCD [4; 3; 2; 1] 2 true) /\
  wf_digits [4; 3; 2; 1] = true /\ 0 <= 2 /\
  (mkBCD [4; 3; 2; 1] 2 true = Zero \/
   (IsZero (mkBCD [4; 3; 2; 1] 2 true) = false /\
    exists ds d, [4; 3; 2; 1] = ds ++ [d] /\ d <> 0)).
Proof.
  assert (H : parseString " -0012.3400 "%string = Parsed (mkBCD [4; 3; 2; 1] 2 true))
    by (vm_compute; reflexivity).
  split; [exact H|]. exact (parseString_canonical _ _ H).
Defined.

(** ** Conversions from and to [int64] *)

Lemma wrap64_id (x : Z) :
  - 9223372036854775808 <= x < 9223372036854775808 -> wrap64 x = x.
Proof.
  intros H. unfold wrap64.
  change (2 ^ 63) with 9223372036854775808. change (2 ^ 64) with 18446744073709551616.
  rewrite Z.mod_small by lia. lia.
Qed.

Lemma dig_wf_digits (l : list Z) : dig l -> wf_digits l = true.
Proof.
  unfold dig, wf_digits. intros H. apply forallb_forall. intros x Hx.
  rewrite List.Forall_forall in H. specialize (H x Hx).
  apply andb_true_intro. split; apply Z.leb_le; lia.
Qed.

Lemma isZero_value (l : list Z) : isZero l = true -> value l = 0.
Proof.
  induction l as [|x l IH]; simpl; [reflexivity|].
  unfold isZero; simpl. intros H. apply andb_prop in H as [Hx Hl].
  apply Z.eqb_eq in Hx. rewrite IH by exact Hl. lia.
Qed.

Lemma digits_of_spec (f : nat) (v : Z) :
  0 <= v < 10 ^ Z.of_nat f ->
  value (digits_of f v) = v /\ dig (digits_of f v) /\
  (forall k : nat, v < 10 ^ Z.of_nat k -> (length (digits_of f v) <= k)%nat).
Proof.
  revert v; induction f as [|f IH]; intros v Hv; simpl.
  - assert (v = 0) by (simpl in Hv; lia). subst v.
    split; [reflexivity|]. split; [constructor|]. intros; lia.
  - destruct (0 <? v) eqn:E.
    + apply Z.ltb_lt in E. cbn [value length].
      rewrite Nat2Z.inj_succ, Z.pow_succ_r in Hv by lia.
      assert (Hq : 0 <= v / 10 < 10 ^ Z.of_nat f).
      { split; [apply Z.div_pos; lia|]. apply Z.div_lt_upper_bound; lia. }
      destruct (IH (v / 10) Hq) as [H1 [H2 H3]].
      split; [rewrite H1; pose proof (Z.div_mod v 10 ltac:(lia)); lia|].
      split; [constructor; [pose proof (Z.mod_pos_bound v 10 ltac:(lia)); lia|exact H2]|].
      intros [|k] Hk; [simpl in Hk; lia|]. simpl.
      rewrite Nat2Z.inj_succ, Z.pow_succ_r in Hk by lia.
      specialize (H3 k ltac:(apply Z.div_lt_upper_bound; lia)). lia.
    + apply Z.ltb_ge in E. assert (v = 0) by lia. subst v.
      split; [reflexivity|]. split; [constructor|]. intros; simpl; lia.
Qed.

Lemma fromInt64_spec (n : Z) :
  - 2 ^ 63 < n < 2 ^ 63 ->
  value (digits (fromInt64 n)) = Z.abs n /\ scale (fromInt64 n) = 0 /\
  negative (fromInt64 n) = (n <? 0) /\ dig (digits (fromInt64 n)) /\
  (length (digits (fromInt64 n)) <= 19)%nat.
Proof.
  change (2 ^ 63) with 9223372036854775808. intros Hn. unfold fromInt64.
  destruct (n =? 0) eqn:E0.
  { apply Z.eqb_eq in E0. subst n. simpl.
    split; [reflexivity|]. split; [reflexivity|]. split; [reflexivity|].
    split; [constructor; [lia|constructor]|lia]. }
  apply Z.eqb_neq in E0.
  replace (if n <? 0 then wrap64 (- n) else n) with (Z.abs n).
  2: { destruct (n <? 0) eqn:E; [apply Z.ltb_lt in E; rewrite wrap64_id; lia|].
       apply Z.ltb_ge in E. lia. }
  assert (Hb : 0 <= Z.abs n < 10 ^ Z.of_nat 19)
    by (change (10 ^ Z.of_nat 19) with 10000000000000000000; lia).
  destruct (digits_of_spec 19 (Z.abs n) Hb) as [H1 [H2 H3]]. cbn [digits scale negative].
  split; [exact H1|]. split; [reflexivity|]. split; [reflexivity|].
  split; [exact H2|]. apply H3. lia.
Qed.

(** X10: [fromInt64] represents every [int64] except the minimum exactly:
    its digits are decimal digits whose value is [|n|], the scale is 0 and
    the sign flag is set exactly for negative [n]. *)
Theorem fromInt64_exact (n : Z) :
  - 2 ^ 63 < n < 2 ^ 63 ->
  value (digits (fromInt64 n)) = Z.abs n /\ scale (fromInt64 n) = 0 /\
  negative (fromInt64 n) = (n <? 0) /\ wf_digits (digits (fromInt64 n)) = true.
Proof.
  intros Hn. destruct (fromInt64_spec n Hn) as [H1 [H2 [H3 [H4 _]]]].
  repeat split; auto. apply dig_wf_digits. exact H4.
Qed.

Lemma fromInt64_exact_witness :
  - 2 ^ 63 < -1234 < 2 ^ 63 /\
  value (digits (fromInt64 (-1234))) = Z.abs (-1234) /\ scale (fromInt64 (-1234)) = 0 /\
  negative (fromInt64 (-1234)) = (-1234 <? 0) /\
  wf_digits (digits (fromInt64 (-1234))) = true.
Proof.
  assert (H : - 2 ^ 63 < -1234 < 2 ^ 63) by (vm_compute; split; reflexivity).
  split; [exact H|]. exact (fromInt64_exact (-1234) H).
Defined.

Lemma toInt64_loop_spec (ds : list Z) :
  dig ds -> forall (i : nat) (r : Z),
  (i + length ds <= 18)%nat -> 0 <= r < 10 ^ Z.of_nat i ->
  toInt64_loop ds r (10 ^ Z.of_nat i) = Ok (r + value ds * 10 ^ Z.of_nat i).
Proof.
  induction ds as [|d t IH]; intros Hd i r Hi Hr; simpl; [f_equal; ring|].
  inversion Hd as [|? ? Hd1 Hd2]; subst. simpl in Hi.
  assert (Hp : 10 ^ Z.of_nat i <= 10 ^ 17) by (apply Z.pow_le_mono_r; lia).
  change (10 ^ 17) with 100000000000000000 in Hp.
  assert (Hp0 : 0 < 10 ^ Z.of_nat i) by (apply Z.pow_pos_nonneg; lia).
  set (p := 10 ^ Z.of_nat i) in *.
  change (MaxInt64 / 10) with 922337203685477580.
  rewrite (proj2 (Z.ltb_ge _ _)) by lia.
  rewrite (wrap64_id (d * p)) by nia.
  rewrite (wrap64_id (r + d * p)) by nia.
  rewrite (proj2 (Z.ltb_ge (r + d * p) r)) by nia.
  rewrite (proj2 (Z.ltb_ge r 0)) by lia. rewrite !andb_false_r. simpl.
  rewrite (wrap64_id (p * 10)) by nia.
  replace (p * 10) with (10 ^ Z.of_nat (S i))
    by (unfold p; rewrite Nat2Z.inj_succ, Z.pow_succ_r; lia).
  assert (Hs : 10 ^ Z.of_nat (S i) = 10 * p)
    by (unfold p; rewrite Nat2Z.inj_succ, Z.pow_succ_r; lia).
  rewrite IH by (auto; lia || (rewrite Hs; nia)).
  rewrite Hs. f_equal. ring.
Qed.

(** X11: an integer with fewer than 19 digits survives the round trip
    through [fromInt64] and [ToInt64]. *)
Theorem ToInt64_fromInt64 (n : Z) :
  - 10 ^ 18 < n < 10 ^ 18 -> ToInt64 (fromInt64 n) = Ok n.
Proof.
  intros Hn. destruct (Z.eq_dec n 0) as [->|Hn0]; [reflexivity|].
  assert (Hr : - 2 ^ 63 < n < 2 ^ 63)
    by (change (2 ^ 63) with 9223372036854775808;
        change (10 ^ 18) with 1000000000000000000 in Hn; lia).
  destruct (fromInt64_spec n Hr) as [V [S [N [D L]]]].
  unfold ToInt64.
  rewrite (Round_noop (fromInt64 n) 0 RoundDown) by (rewrite S; lia).
  assert (Hz : IsZero (fromInt64 n) = false).
  { destruct (IsZero (fromInt64 n)) eqn:E; [|reflexivity].
    apply isZero_value in E. lia. }
  rewrite Hz.
  assert (Hl : (length (digits (fromInt64 n)) <= 18)%nat).
  { unfold fromInt64. rewrite (proj2 (Z.eqb_neq n 0) Hn0). cbn [digits].
    replace (if n <? 0 then wrap64 (- n) else n) with (Z.abs n).
    2: { destruct (n <? 0) eqn:E; [apply Z.ltb_lt in E; rewrite wrap64_id; lia|].
         apply Z.ltb_ge in E. lia. }
    apply digits_of_spec; change (10 ^ Z.of_nat 19) with 10000000000000000000;
      change (10 ^ Z.of_nat 18) with 1000000000000000000;
      change (10 ^ 18) with 1000000000000000000 in Hn; lia. }
  change 1 with (10 ^ Z.of_nat 0).
  rewrite (toInt64_loop_spec _ D 0 0) by (simpl; lia).
  rewrite V, N. simpl.
  destruct (n <? 0) eqn:E.
  - apply Z.ltb_lt in E.
    rewrite wrap64_id by (change (10 ^ 18) with 1000000000000000000 in Hn; lia).
    rewrite (proj2 (Z.ltb_ge _ _)) by lia. f_equal. lia.
  - apply Z.ltb_ge in E. f_equal. lia.
Qed.

Lemma ToInt64_fromInt64_witness :
  - 10 ^ 18 < -987654321 < 10 ^ 18 /\ ToInt64 (fromInt64 (-987654321)) = Ok (-987654321).
Proof.
  assert (H : - 10 ^ 18 < -987654321 < 10 ^ 18) by (vm_compute; split; reflexivity).
  split; [exact H|]. exact (ToInt64_fromInt64 (-987654321) H).
Defined.

(** X12: [New] on a [uint64] refuses exactly the values above
    [math.MaxInt64], and represents the others exactly, as nonnegative
    integers of scale 0. *)
Theorem New_uint64_exact (v : Z) :
  0 <= v < 2 ^ 64 ->
  (New_uint64 v = Err ErrOverflow <-> MaxInt64 < v) /\
  (v <= MaxInt64 -> exists b, New_uint64 v = Ok b /\
     value (digits b) = v /\ scale b = 0 /\ negative b = false /\
     wf_digits (digits b) = true).
Proof.
  intros Hv. unfold New_uint64.
  destruct (MaxInt64 <? v) eqn:E.
  - apply Z.ltb_lt in E. split; [split; auto|]. intros H; lia.
  - apply Z.ltb_ge in E. split; [split; [discriminate|lia]|]. intros _.
    unfold MaxInt64 in E.
    rewrite wrap64_id by (change (2 ^ 63) with 9223372036854775808 in E; lia).
    destruct (fromInt64_spec v ltac:(lia)) as [H1 [H2 [H3 [H4 _]]]].
    exists (fromInt64 v). split; [reflexivity|].
    rewrite H1, H2, H3. split; [lia|]. split; [reflexivity|].
    split; [apply Z.ltb_ge; lia|]. apply dig_wf_digits. exact H4.
Qed.

Lemma New_uint64_exact_witness :
  0 <= 18446744073709551615 < 2 ^ 64 /\
  (New_uint64 18446744073709551615 = Err ErrOverflow <-> MaxInt64 < 18446744073709551615) /\
  (18446744073709551615 <= MaxInt64 -> exists b, New_uint64 18446744073709551615 = Ok b /\
     value (digits b) = 18446744073709551615 /\ scale b = 0 /\ negative b = false /\
     wf_digits (digits b) = true).
Proof.
  assert (H : 0 <= 18446744073709551615 < 2 ^ 64)
    by (split; [apply Z.leb_le | apply Z.ltb_lt]; reflexivity).
  split; [exact H|]. exact (New_uint64_exact 18446744073709551615 H).
Defined.

(** ** Exactness of multiplication and of addition *)

Lemma value_app (l m : list Z) :
  value (l ++ m) = value l + 10 ^ Z.of_nat (length l) * value m.
Proof.
  induction l as [|x l IH]; simpl; [lia|].
  rewrite IH, Nat2Z.inj_succ, Z.pow_succ_r by lia. ring.
Qed.

Lemma value_rev_trim_rev (r : list Z) : value (rev (trim_rev r)) = value (rev r).
Proof.
  induction r as [|x r IH]; simpl; [reflexivity|].
  destruct x; try reflexivity. destruct r as [|y r]; [reflexivity|].
  rewrite IH. simpl rev at 2. rewrite value_app. simpl. lia.
Qed.

Lemma value_trimTop (l : list Z) : value (trimTop l) = value l.
Proof. unfold trimTop. rewrite value_rev_trim_rev, rev_involutive. reflexivity. Qed.

Lemma wf_digits_trimTop (l : list Z) : wf_digits l = true -> wf_digits (trimTop l) = true.
Proof.
  unfold wf_digits, trimTop. intros H.
  rewrite forallb_rev'. apply forallb_trim_rev. rewrite forallb_rev'. exact H.
Qed.

(** X13: for operands with decimal digits and nonzero value, [Mul] is
    exact: the product's digits are decimal digits whose value is the
    product of the operands' digit values, its scale is the sum of the
    scales and it is negative exactly when the signs differ. *)
Theorem Mul_exact (a b : BCD) :
  wf_digits (digits a) = true -> wf_digits (digits b) = true ->
  IsZero a = false -> IsZero b = false ->
  value (digits (Mul a b)) = value (digits a) * value (digits b) /\
  scale (Mul a b) = scale a + scale b /\
  negative (Mul a b) = negb (Bool.eqb (negative a) (negative b)) /\
  wf_digits (digits (Mul a b)) = true.
Proof.
  intros Ha Hb Za Zb. pose proof (wf_digits_dig _ Ha) as Da.
  pose proof (wf_digits_dig _ Hb) as Db.
  unfold Mul. rewrite Za, Zb. cbn [orb digits scale negative].
  destruct (mul_outer_spec (digits b) Db (digits a) 0
              (repeat 0 (length (digits a) + length (digits b))) Da
              (dig_repeat_zero _) ltac:(rewrite repeat_length; lia)
              ltac:(intros p _; apply nth_repeat_zero)) as [L1 [D1 V1]].
  split; [rewrite value_trimTop, V1, value_repeat_zero;
          change (Z.of_nat 0) with 0; rewrite Z.pow_0_r; ring|].
  split; [reflexivity|]. split; [reflexivity|].
  apply wf_digits_trimTop, dig_wf_digits. exact D1.
Qed.

Lemma Mul_exact_witness :
  wf_digits (digits (parse "-1.25")) = true /\ wf_digits (digits (parse "0.4")) = true /\
  IsZero (parse "-1.25") = false /\ IsZero (parse "0.4") = false /\
  value (digits (Mul (parse "-1.25") (parse "0.4")))
    = value (digits (parse "-1.25")) * value (digits (parse "0.4")) /\
  scale (Mul (parse "-1.25") (parse "0.4")) = scale (parse "-1.25") + scale (parse "0.4") /\
  negative (Mul (parse "-1.25") (parse "0.4"))
    = negb (Bool.eqb (negative (parse "-1.25")) (negative (parse "0.4"))) /\
  wf_digits (digits (Mul (parse "-1.25") (parse "0.4"))) = true.
Proof.
  assert (H1 : wf_digits (digits (parse "-1.25")) = true) by reflexivity.
  assert (H2 : wf_digits (digits (parse "0.4")) = true) by reflexivity.
  assert (H3 : IsZero (parse "-1.25") = false) by reflexivity.
  assert (H4 : IsZero (parse "0.4") = false) by reflexivity.
  split; [exact H1|]. split; [exact H2|]. split; [exact H3|]. split; [exact H4|].
  exact (Mul_exact _ _ H1 H2 H3 H4).
Defined.

Lemma value_skipn (l : list Z) (i : nat) :
  value (skipn i l) = nth i l 0 + 10 * value (skipn (S i) l).
Proof.
  revert i; induction l as [|x l IH]; intros i.
  - destruct i; reflexivity.
  - destruct i as [|i]; [reflexivity|]. simpl. apply IH.
Qed.

Lemma skipn_long (l : list Z) (i : nat) : (length l <= i)%nat -> skipn i l = [].
Proof. intros H. apply skipn_all2. exact H. Qed.

Lemma add_loop_spec (a b : list Z) (m : nat) :
  dig a -> dig b -> (length a <= m)%nat -> (length b <= m)%nat ->
  forall (fuel i : nat) (c : Z) (r : list Z),
  fuel = (S m - i)%nat -> (i <= S m)%nat -> length r = S m -> dig r ->
  (forall p, (i <= p)%nat -> nth p r 0 = 0) ->
  0 <= c <= 1 -> (i = S m -> c = 0) ->
  length (add_loop fuel i m a b c r) = S m /\ dig (add_loop fuel i m a b c r) /\
  value (add_loop fuel i m a b c r)
    = value r + (c + value (skipn i a) + value (skipn i b)) * 10 ^ Z.of_nat i.
Proof.
  intros Da Db La Lb fuel. induction fuel as [|f IH];
    intros i c r Hf Hi Lr Dr Zr Hc Hend.
  - assert (i = S m) by lia. subst i. rewrite Hend by reflexivity.
    rewrite !skipn_long by lia. simpl. split; [exact Lr|]. split; [exact Dr|]. lia.
  - assert (Him : (i <= m)%nat) by lia. cbn [add_loop].
    destruct ((i <? m)%nat || (0 <? c)) eqn:Econd.
    + pose proof (dig_nth a i Da) as Hai. pose proof (dig_nth b i Db) as Hbi.
      assert (Hsum : (if (i <? length b)%nat
                      then u8 ((if (i <? length a)%nat then u8 (c + nth i a 0) else c)
                               + nth i b 0)
                      else (if (i <? length a)%nat then u8 (c + nth i a 0) else c))
                     = c + nth i a 0 + nth i b 0).
      { destruct (i <? length a)%nat eqn:Ea; destruct (i <? length b)%nat eqn:Eb;
          try (apply Nat.ltb_ge in Ea; rewrite (nth_overflow a) by exact Ea);
          try (apply Nat.ltb_ge in Eb; rewrite (nth_overflow b) by exact Eb);
          rewrite ?(u8_small (c + nth i a 0)) by lia; rewrite ?u8_small by lia; lia. }
      rewrite Hsum.
      remember (c + nth i a 0 + nth i b 0) as s eqn:Hs.
      assert (Hs0 : 0 <= s <= 19) by lia.
      assert (Hmod : 0 <= s mod 10 <= 9) by (pose proof (Z.mod_pos_bound s 10); lia).
      assert (Hdiv : 0 <= s / 10 <= 1)
        by (split; [apply Z.div_pos; lia|]; apply Z.lt_succ_r, Z.div_lt_upper_bound; lia).
      destruct (IH (S i) (s / 10) (<[i := s mod 10]> r)) as [L1 [D1 V1]].
      * lia.
      * lia.
      * rewrite length_insert. exact Lr.
      * apply dig_insert; assumption.
      * intros p Hp. rewrite nth_insert_ne by lia. apply Zr. lia.
      * exact Hdiv.
      * intros Heq. assert (i = m) by lia. subst i.
        rewrite (nth_overflow a), (nth_overflow b) in Hs by lia.
        assert (s = c) by lia. subst s. apply Z.div_small. lia.
      * split; [exact L1|]. split; [exact D1|]. rewrite V1.
        rewrite value_insert by lia. rewrite (Zr i) by lia.
        rewrite (value_skipn a i), (value_skipn b i).
        rewrite Nat2Z.inj_succ, Z.pow_succ_r by lia.
        pose proof (Z.div_mod s 10 ltac:(lia)) as Hdm.
        replace c with (s - nth i a 0 - nth i b 0) by lia.
        remember (s / 10) as q. remember (s mod 10) as t.
        remember (10 ^ Z.of_nat i) as P. nia.
    + apply orb_false_iff in Econd as [E1 E2].
      apply Nat.ltb_ge in E1. apply Z.ltb_ge in E2.
      rewrite !skipn_long by lia. simpl.
      split; [exact Lr|]. split; [exact Dr|]. nia.
Qed.

Lemma addMagnitudes_spec (x y : BCD) :
  dig (digits x) -> dig (digits y) ->
  value (digits (addMagnitudes x y)) = value (digits x) + value (digits y) /\
  dig (digits (addMagnitudes x y)) /\ scale (addMagnitudes x y) = scale x.
Proof.
  intros Dx Dy. unfold addMagnitudes. cbn [digits scale].
  set (m := Nat.max (length (digits y)) (length (digits x))).
  destruct (add_loop_spec (digits x) (digits y) m Dx Dy ltac:(lia) ltac:(lia)
              (S m) 0 0 (repeat 0 (S m)) ltac:(lia) ltac:(lia)
              ltac:(apply repeat_length) (dig_repeat_zero _)
              ltac:(intros p _; apply nth_repeat_zero) ltac:(lia) ltac:(lia))
    as [L1 [D1 V1]].
  split; [rewrite value_trimTop, V1, value_repeat_zero;
          change (Z.of_nat 0) with 0; rewrite Z.pow_0_r;
          change (skipn 0 (digits x)) with (digits x);
          change (skipn 0 (digits y)) with (digits y); ring|].
  split; [|reflexivity].
  apply wf_digits_dig, wf_digits_trimTop, dig_wf_digits. exact D1.
Qed.

Lemma value_zeros_app (k : Z) (l : list Z) :
  0 <= k -> value (zeros k ++ l) = 10 ^ k * value l.
Proof.
  intros Hk. unfold zeros. rewrite value_app, value_repeat_zero, repeat_length.
  rewrite Z2Nat.id by exact Hk. ring.
Qed.

Lemma dig_zeros_app (k : Z) (l : list Z) : dig l -> dig (zeros k ++ l).
Proof. intros H. apply Forall_app. split; [apply dig_repeat_zero|exact H]. Qed.

(** X14: for operands of the same sign with decimal digits, [Add] is
    exact: the sum has the larger scale, the operands' sign, decimal
    digits, and the value of the aligned digit sequences added. *)
Theorem Add_same_sign_exact (a b : BCD) :
  wf_digits (digits a) = true -> wf_digits (digits b) = true ->
  negative a = negative b ->
  scale (Add a b) = Z.max (scale a) (scale b) /\ negative (Add a b) = negative a /\
  value (digits (Add a b))
    = value (digits a) * 10 ^ (Z.max (scale a) (scale b) - scale a)
      + value (digits b) * 10 ^ (Z.max (scale a) (scale b) - scale b) /\
  wf_digits (digits (Add a b)) = true.
Proof.
  intros Ha Hb Hn. pose proof (wf_digits_dig _ Ha) as Da.
  pose proof (wf_digits_dig _ Hb) as Db.
  unfold Add. rewrite Hn, eqb_reflx. unfold alignDecimals, Copy.
  destruct (scale a =? scale b) eqn:E1; [|destruct (scale a <? scale b) eqn:E2].
  - apply Z.eqb_eq in E1.
    destruct (addMagnitudes_spec a b Da Db) as [V [D S]]. cbn [digits scale negative].
    rewrite V, S, <- E1, Z.max_id, Z.sub_diag, Z.pow_0_r.
    split; [reflexivity|]. split; [congruence|]. split; [ring|].
    apply dig_wf_digits. exact D.
  - apply Z.ltb_lt in E2.
    destruct (addMagnitudes_spec (mkBCD (zeros (scale b - scale a) ++ digits a)
                                        (scale b) (negative a)) b
                (dig_zeros_app _ _ Da) Db) as [V [D S]].
    cbn [digits scale negative] in *.
    rewrite V, S, value_zeros_app by lia.
    rewrite Z.max_r by lia. rewrite Z.sub_diag, Z.pow_0_r.
    split; [reflexivity|]. split; [congruence|]. split; [ring|].
    apply dig_wf_digits. exact D.
  - apply Z.eqb_neq in E1. apply Z.ltb_ge in E2.
    destruct (addMagnitudes_spec a (mkBCD (zeros (scale a - scale b) ++ digits b)
                                          (scale a) (negative b))
                Da (dig_zeros_app _ _ Db)) as [V [D S]].
    cbn [digits scale negative] in *.
    rewrite V, S, value_zeros_app by lia.
    rewrite Z.max_l by lia. rewrite Z.sub_diag, Z.pow_0_r.
    split; [reflexivity|]. split; [congruence|]. split; [ring|].
    apply dig_wf_digits. exact D.
Qed.

Lemma Add_same_sign_exact_witness :
  wf_digits (digits (parse "-99.5")) = true /\ wf_digits (digits (parse "-0.75")) = true /\
  negative (parse "-99.5") = negative (parse "-0.75") /\
  scale (Add (parse "-99.5") (parse "-0.75"))
    = Z.max (scale (parse "-99.5")) (scale (parse "-0.75")) /\
  negative (Add (parse "-99.5") (parse "-0.75")) = negative (parse "-99.5") /\
  value (digits (Add (parse "-99.5") (parse "-0.75")))
    = value (digits (parse "-99.5"))
        * 10 ^ (Z.max (scale (parse "-99.5")) (scale (parse "-0.75")) - scale (parse "-99.5"))
      + value (digits (parse "-0.75"))
        * 10 ^ (Z.max (scale (parse "-99.5")) (scale (parse "-0.75")) - scale (parse "-0.75")) /\
  wf_digits (digits (Add (parse "-99.5") (parse "-0.75"))) = true.
Proof.
  assert (H1 : wf_digits (digits (parse "-99.5")) = true) by reflexivity.
  assert (H2 : wf_digits (digits (parse "-0.75")) = true) by reflexivity.
  assert (H3 : negative (parse "-99.5") = negative (parse "-0.75")) by reflexivity.
  split; [exact H1|]. split; [exact H2|]. split; [exact H3|].
  exact (Add_same_sign_exact _ _ H1 H2 H3).
Defined.

(** ** Exactness of comparison and subtraction on canonical values *)

Lemma value_bound (l : list Z) : dig l -> 0 <= value l < 10 ^ Z.of_nat (length l).
Proof.
  induction l as [|d t IH]; intros H; simpl; [lia|].
  inversion H as [|? ? Hd Ht]; subst. specialize (IH Ht).
  rewrite Nat2Z.inj_succ, Z.pow_succ_r by lia. lia.
Qed.

Lemma value_rev_cons (p : Z) (t : list Z) :
  value (rev (p :: t)) = value (rev t) + 10 ^ Z.of_nat (length t) * p.
Proof. simpl. rewrite value_app, length_rev. simpl. ring. Qed.

Lemma dig_rev (l : list Z) : dig (rev l) <-> dig l.
Proof.
  unfold dig. split; intros H.
  - apply Forall_rev in H. rewrite rev_involutive in H. exact H.
  - apply Forall_rev. exact H.
Qed.

Lemma value_pos (l : list Z) : dig l -> isZero l = false -> 0 < value l.
Proof.
  induction l as [|d t IH]; intros D H; [discriminate|].
  inversion D as [|? ? Hd Ht]; subst. unfold isZero in H; simpl in H; simpl.
  pose proof (value_bound t Ht).
  destruct (d =? 0) eqn:E; simpl in H.
  - specialize (IH Ht H). lia.
  - apply Z.eqb_neq in E. lia.
Qed.

Lemma value_msd (l : list Z) :
  dig l -> msd_nonzero l = true -> 10 ^ Z.of_nat (length l - 1) <= value l.
Proof.
  intros D H. unfold msd_nonzero in H.
  rewrite <- (rev_involutive l) in D |- *.
  destruct (rev l) as [|p t]; [discriminate|].
  apply negb_true_iff, Z.eqb_neq in H.
  apply (proj1 (dig_rev (p :: t))) in D. inversion D as [|? ? Hp Ht]; subst.
  rewrite value_rev_cons, length_rev. simpl length.
  replace (S (length t) - 1)%nat with (length t) by lia.
  pose proof (value_bound (rev t) (proj2 (dig_rev t) Ht)).
  assert (0 < 10 ^ Z.of_nat (length t)) by (apply Z.pow_pos_nonneg; lia).
  nia.
Qed.

Lemma msd_nonzero_zeros_app (k : Z) (l : list Z) :
  msd_nonzero l = true -> msd_nonzero (zeros k ++ l) = true.
Proof.
  unfold msd_nonzero. rewrite rev_app_distr.
  destruct (rev l); [discriminate|]. simpl. auto.
Qed.

Lemma msd_nonzero_trimTop (l : list Z) : 0 < value l -> msd_nonzero (trimTop l) = true.
Proof.
  intros H. pose proof (value_trimTop l) as V.
  unfold msd_nonzero. unfold trimTop in *. rewrite rev_involutive.
  assert (Hne : rev l <> []) by (intros E; rewrite <- (rev_involutive l), E in H; simpl in H; lia).
  destruct (trim_rev_shape (rev l) Hne) as [x [t [Ht Hx]]]. rewrite Ht in V |- *.
  destruct Hx as [Hx|Hx]; [apply negb_true_iff, Z.eqb_neq; exact Hx|].
  subst t. simpl in V. apply negb_true_iff, Z.eqb_neq. lia.
Qed.

Lemma length_le_of_value (x y : list Z) :
  dig x -> dig y -> msd_nonzero y = true -> value y <= value x ->
  (length y <= length x)%nat.
Proof.
  intros Dx Dy My Hv. destruct (Nat.le_gt_cases (length y) (length x)) as [H|H]; [exact H|].
  exfalso. pose proof (value_bound x Dx). pose proof (value_msd y Dy My).
  assert (10 ^ Z.of_nat (length x) <= 10 ^ Z.of_nat (length y - 1))
    by (apply Z.pow_le_mono_r; lia).
  lia.
Qed.

Lemma cmp_from_top_value (x y : list Z) :
  dig x -> dig y -> length x = length y ->
  cmp_from_top x y = Z.sgn (value (rev x) - value (rev y)).
Proof.
  revert y; induction x as [|p xs IH]; intros [|q ys] Dx Dy Hl;
    simpl in Hl; try discriminate; [reflexivity|].
  inversion Dx as [|? ? Hp Hxs]; inversion Dy as [|? ? Hq Hys]; subst.
  rewrite !value_rev_cons.
  pose proof (value_bound (rev xs) (proj2 (dig_rev xs) Hxs)) as Bx.
  pose proof (value_bound (rev ys) (proj2 (dig_rev ys) Hys)) as By.
  rewrite length_rev in Bx, By.
  assert (Hl' : length xs = length ys) by lia. rewrite Hl' in *.
  assert (HP : 0 < 10 ^ Z.of_nat (length ys)) by (apply Z.pow_pos_nonneg; lia).
  set (P := 10 ^ Z.of_nat (length ys)) in *.
  cbn [cmp_from_top].
  destruct (q <? p) eqn:E1; [apply Z.ltb_lt in E1; symmetry; apply Z.sgn_pos; nia|].
  destruct (p <? q) eqn:E2; [apply Z.ltb_lt in E2; symmetry; apply Z.sgn_neg; nia|].
  apply Z.ltb_ge in E1, E2. assert (p = q) by lia. subst q.
  rewrite IH by auto. f_equal. ring.
Qed.

Lemma compare_lists_value (x y : list Z) :
  dig x -> dig y -> msd_nonzero x = true -> msd_nonzero y = true ->
  (if len y <? len x then 1 else if len x <? len y then -1
   else cmp_from_top (rev x) (rev y)) = Z.sgn (value x - value y).
Proof.
  intros Dx Dy Mx My. unfold len.
  pose proof (value_bound x Dx). pose proof (value_bound y Dy).
  pose proof (value_msd x Dx Mx). pose proof (value_msd y Dy My).
  destruct (Z.of_nat (length y) <? Z.of_nat (length x)) eqn:E1.
  { apply Z.ltb_lt in E1. symmetry. apply Z.sgn_pos.
    assert (10 ^ Z.of_nat (length y) <= 10 ^ Z.of_nat (length x - 1))
      by (apply Z.pow_le_mono_r; lia). lia. }
  destruct (Z.of_nat (length x) <? Z.of_nat (length y)) eqn:E2.
  { apply Z.ltb_lt in E2. symmetry. apply Z.sgn_neg.
    assert (10 ^ Z.of_nat (length x) <= 10 ^ Z.of_nat (length y - 1))
      by (apply Z.pow_le_mono_r; lia). lia. }
  apply Z.ltb_ge in E1, E2.
  rewrite cmp_from_top_value by (try (apply dig_rev; assumption); rewrite !length_rev; lia).
  rewrite !rev_involutive. reflexivity.
Qed.

Lemma alignDecimals_spec (a b : BCD) :
  dig (digits a) -> dig (digits b) ->
  value (digits (fst (alignDecimals a b)))
    = value (digits a) * 10 ^ (Z.max (scale a) (scale b) - scale a) /\
  value (digits (snd (alignDecimals a b)))
    = value (digits b) * 10 ^ (Z.max (scale a) (scale b) - scale b) /\
  scale (fst (alignDecimals a b)) = Z.max (scale a) (scale b) /\
  scale (snd (alignDecimals a b)) = Z.max (scale a) (scale b) /\
  dig (digits (fst (alignDecimals a b))) /\ dig (digits (snd (alignDecimals a b))) /\
  (msd_nonzero (digits a) = true -> msd_nonzero (digits (fst (alignDecimals a b))) = true) /\
  (msd_nonzero (digits b) = true -> msd_nonzero (digits (snd (alignDecimals a b))) = true) /\
  negative (fst (alignDecimals a b)) = negative a /\
  negative (snd (alignDecimals a b)) = negative b.
Proof.
  intros Da Db. unfold alignDecimals, Copy.
  destruct (scale a =? scale b) eqn:E1; [|destruct (scale a <? scale b) eqn:E2];
    cbn [fst snd digits scale negative].
  - apply Z.eqb_eq in E1. rewrite <- E1, Z.max_id, Z.sub_diag, Z.pow_0_r.
    repeat split; auto; ring.
  - apply Z.ltb_lt in E2. rewrite Z.max_r by lia. rewrite Z.sub_diag, Z.pow_0_r.
    rewrite value_zeros_app by lia.
    repeat split; auto; try ring.
    + apply dig_zeros_app. exact Da.
    + apply msd_nonzero_zeros_app.
  - apply Z.ltb_ge in E2. apply Z.eqb_neq in E1.
    rewrite Z.max_l by lia. rewrite Z.sub_diag, Z.pow_0_r.
    rewrite value_zeros_app by lia.
    repeat split; auto; try ring.
    + apply dig_zeros_app. exact Db.
    + apply msd_nonzero_zeros_app.
Qed.

Lemma compareMagnitudes_value (a b : BCD) :
  dig (digits a) -> dig (digits b) ->
  msd_nonzero (digits a) = true -> msd_nonzero (digits b) = true ->
  compareMagnitudes a b
  = Z.sgn (value (digits a) * 10 ^ (Z.max (scale a) (scale b) - scale a)
           - value (digits b) * 10 ^ (Z.max (scale a) (scale b) - scale b)).
Proof.
  intros Da Db Ma Mb.
  destruct (alignDecimals_spec a b Da Db)
    as [V1 [V2 [_ [_ [D1 [D2 [M1 [M2 _]]]]]]]].
  unfold compareMagnitudes. destruct (alignDecimals a b) as [a1 a2]. cbn [fst snd] in *.
  rewrite <- V1, <- V2. apply compare_lists_value; auto.
Qed.

(** X15: on values with decimal digits and no leading zero, [Cmp] is the
    sign of the difference of the values, both written at the larger
    scale. *)
Theorem Cmp_exact (a b : BCD) :
  wf_digits (digits a) = true -> wf_digits (digits b) = true ->
  msd_nonzero (digits a) = true -> msd_nonzero (digits b) = true ->
  Cmp a b = Z.sgn (signed_value a * 10 ^ (Z.max (scale a) (scale b) - scale a)
                   - signed_value b * 10 ^ (Z.max (scale a) (scale b) - scale b)).
Proof.
  intros Ha Hb Ma Mb. apply wf_digits_dig in Ha, Hb.
  pose proof (value_msd _ Ha Ma). pose proof (value_msd _ Hb Mb).
  assert (1 <= 10 ^ Z.of_nat (length (digits a) - 1))
    by (apply (Z.pow_le_mono_r 10 0); lia).
  assert (1 <= 10 ^ Z.of_nat (length (digits b) - 1))
    by (apply (Z.pow_le_mono_r 10 0); lia).
  assert (1 <= 10 ^ (Z.max (scale a) (scale b) - scale a))
    by (apply (Z.pow_le_mono_r 10 0); lia).
  assert (1 <= 10 ^ (Z.max (scale a) (scale b) - scale b))
    by (apply (Z.pow_le_mono_r 10 0); lia).
  unfold Cmp, signed_value. rewrite (compareMagnitudes_value a b Ha Hb Ma Mb).
  destruct (negative a), (negative b); simpl.
  - rewrite <- Z.sgn_opp. f_equal. ring.
  - symmetry. apply Z.sgn_neg. nia.
  - symmetry. apply Z.sgn_pos. nia.
  - reflexivity.
Qed.

Lemma Cmp_exact_witness :
  wf_digits (digits (parse "-2.5")) = true /\ wf_digits (digits (parse "-2.45")) = true /\
  msd_nonzero (digits (parse "-2.5")) = true /\ msd_nonzero (digits (parse "-2.45")) = true /\
  Cmp (parse "-2.5") (parse "-2.45")
  = Z.sgn (signed_value (parse "-2.5")
             * 10 ^ (Z.max (scale (parse "-2.5")) (scale (parse "-2.45")) - scale (parse "-2.5"))
           - signed_value (parse "-2.45")
             * 10 ^ (Z.max (scale (parse "-2.5")) (scale (parse "-2.45")) - scale (parse "-2.45"))).
Proof.
  assert (H1 : wf_digits (digits (parse "-2.5")) = true) by reflexivity.
  assert (H2 : wf_digits (digits (parse "-2.45")) = true) by reflexivity.
  assert (H3 : msd_nonzero (digits (parse "-2.5")) = true) by reflexivity.
  assert (H4 : msd_nonzero (digits (parse "-2.45")) = true) by reflexivity.
  split; [exact H1|]. split; [exact H2|]. split; [exact H3|]. split; [exact H4|].
  exact (Cmp_exact _ _ H1 H2 H3 H4).
Defined.

Lemma i8_small (x : Z) : -128 <= x < 128 -> i8 x = x.
Proof. intros H. unfold i8. rewrite Z.mod_small by lia. lia. Qed.

Lemma value_firstn_skipn (b : list Z) (i n : nat) :
  value (firstn (S n) (skipn i b)) = nth i b 0 + 10 * value (firstn n (skipn (S i) b)).
Proof.
  revert i; induction b as [|x b IH]; intros i.
  - destruct i; simpl; rewrite ?firstn_nil; reflexivity.
  - destruct i as [|i]; [reflexivity|]. simpl. apply IH.
Qed.

Lemma sub_loop_spec (b : list Z) :
  dig b -> forall (a : list Z) (i : nat) (bw : Z), dig a -> 0 <= bw <= 1 ->
  length (sub_loop i a b bw) = length a /\ dig (sub_loop i a b bw) /\
  exists bo, 0 <= bo <= 1 /\
    value (sub_loop i a b bw)
    = value a - bw - value (firstn (length a) (skipn i b)) + bo * 10 ^ Z.of_nat (length a).
Proof.
  intros Db a. induction a as [|ai a' IH]; intros i bw Da Hbw.
  - split; [reflexivity|]. split; [constructor|]. exists bw. split; [exact Hbw|].
    simpl. lia.
  - inversion Da as [|? ? Hai Ha']; subst.
    pose proof (dig_nth b i Db) as Hbi.
    cbn [sub_loop].
    assert (Hd : (if (i <? length b)%nat then i8 (i8 (i8 ai - i8 bw) - i8 (nth i b 0))
                  else i8 (i8 ai - i8 bw)) = ai - bw - nth i b 0).
    { rewrite (i8_small ai), (i8_small bw), (i8_small (ai - bw)) by lia.
      destruct (i <? length b)%nat eqn:Eb.
      - rewrite (i8_small (nth i b 0)), i8_small by lia. reflexivity.
      - apply Nat.ltb_ge in Eb. rewrite (nth_overflow b) by exact Eb. lia. }
    rewrite Hd.
    remember (ai - bw - nth i b 0) as d eqn:Hdd.
    destruct (d <? 0) eqn:En; cbn beta iota.
    + apply Z.ltb_lt in En.
      rewrite (i8_small (d + 10)), (u8_small (d + 10)) by lia.
      destruct (IH (S i) 1 Ha' ltac:(lia)) as [L [D [bo [Hbo V]]]].
      split; [simpl; rewrite L; reflexivity|].
      split; [constructor; [lia|exact D]|].
      exists bo. split; [exact Hbo|].
      cbn [value length]. rewrite V, value_firstn_skipn.
      rewrite Nat2Z.inj_succ, Z.pow_succ_r by lia. lia.
    + apply Z.ltb_ge in En.
      rewrite (u8_small d) by lia.
      destruct (IH (S i) 0 Ha' ltac:(lia)) as [L [D [bo [Hbo V]]]].
      split; [simpl; rewrite L; reflexivity|].
      split; [constructor; [lia|exact D]|].
      exists bo. split; [exact Hbo|].
      cbn [value length]. rewrite V, value_firstn_skipn.
      rewrite Nat2Z.inj_succ, Z.pow_succ_r by lia. lia.
Qed.

Lemma subtractMagnitudes_spec (x y : BCD) :
  dig (digits x) -> dig (digits y) -> (length (digits y) <= length (digits x))%nat ->
  value (digits y) <= value (digits x) ->
  value (digits (subtractMagnitudes x y)) = value (digits x) - value (digits y) /\
  dig (digits (subtractMagnitudes x y)) /\ scale (subtractMagnitudes x y) = scale x /\
  (0 < value (digits (subtractMagnitudes x y)) ->
   msd_nonzero (digits (subtractMagnitudes x y)) = true).
Proof.
  intros Dx Dy Hl Hv. unfold subtractMagnitudes. cbn [digits scale].
  destruct (sub_loop_spec (digits y) Dy (digits x) 0 0 Dx ltac:(lia))
    as [L [D [bo [Hbo V]]]].
  change (skipn 0 (digits y)) with (digits y) in V.
  rewrite firstn_all2 in V by exact Hl.
  pose proof (value_bound _ D) as B. rewrite L in B.
  pose proof (value_bound _ Dx) as Bx. pose proof (value_bound _ Dy) as By.
  assert (bo = 0) by nia. subst bo.
  cbn [digits scale].
  split; [rewrite value_trimTop, V; ring|].
  split; [apply wf_digits_dig, wf_digits_trimTop, dig_wf_digits; exact D|].
  split; [reflexivity|]. rewrite value_trimTop. apply msd_nonzero_trimTop.
Qed.

Lemma addMagnitudes_msd (x y : BCD) :
  0 < value (digits (addMagnitudes x y)) -> msd_nonzero (digits (addMagnitudes x y)) = true.
Proof. unfold addMagnitudes. cbn [digits]. rewrite value_trimTop. apply msd_nonzero_trimTop. Qed.

(** X16: on values with decimal digits and no leading zero, [Add] is
    exact whatever the signs: either the sum is 0 and the result is
    [Zero], or the result has the larger scale, its signed value is the
    sum of the operands' signed values written at that scale, and it
    again has decimal digits and no leading zero. *)
Theorem Add_exact (a b : BCD) :
  wf_digits (digits a) = true -> wf_digits (digits b) = true ->
  msd_nonzero (digits a) = true -> msd_nonzero (digits b) = true ->
  wf_digits (digits (Add a b)) = true /\
  ((Add a b = Zero /\
    signed_value a * 10 ^ (Z.max (scale a) (scale b) - scale a)
    + signed_value b * 10 ^ (Z.max (scale a) (scale b) - scale b) = 0) \/
   (scale (Add a b) = Z.max (scale a) (scale b) /\
    signed_value (Add a b)
    = signed_value a * 10 ^ (Z.max (scale a) (scale b) - scale a)
      + signed_value b * 10 ^ (Z.max (scale a) (scale b) - scale b) /\
    msd_nonzero (digits (Add a b)) = true)).
Proof.
  intros Ha Hb Ma Mb. apply wf_digits_dig in Ha, Hb.
  pose proof (value_msd _ Ha Ma). pose proof (value_msd _ Hb Mb).
  assert (1 <= 10 ^ Z.of_nat (length (digits a) - 1))
    by (apply (Z.pow_le_mono_r 10 0); lia).
  assert (1 <= 10 ^ Z.of_nat (length (digits b) - 1))
    by (apply (Z.pow_le_mono_r 10 0); lia).
  assert (1 <= 10 ^ (Z.max (scale a) (scale b) - scale a))
    by (apply (Z.pow_le_mono_r 10 0); lia).
  assert (1 <= 10 ^ (Z.max (scale a) (scale b) - scale b))
    by (apply (Z.pow_le_mono_r 10 0); lia).
  pose proof (compareMagnitudes_value a b Ha Hb Ma Mb) as Hc.
  destruct (alignDecimals_spec a b Ha Hb)
    as [V1 [V2 [S1 [S2 [D1 [D2 [M1 [M2 [N1 N2]]]]]]]]].
  specialize (M1 Ma). specialize (M2 Mb).
  set (Pa := 10 ^ (Z.max (scale a) (scale b) - scale a)) in *.
  set (Pb := 10 ^ (Z.max (scale a) (scale b) - scale b)) in *.
  unfold Add. unfold signed_value.
  destruct (Bool.eqb (negative a) (negative b)) eqn:Es.
  - apply Bool.eqb_prop in Es.
    destruct (alignDecimals a b) as [a1 a2]. cbn [fst snd] in *.
    destruct (addMagnitudes_spec a1 a2 D1 D2) as [AV [AD AS]].
    cbn [digits scale negative].
    split; [apply dig_wf_digits; exact AD|]. right.
    split; [rewrite AS; exact S1|].
    split; [rewrite AV, V1, V2, <- Es; destruct (negative a); ring|].
    apply addMagnitudes_msd. rewrite AV, V1, V2. nia.
  - destruct (compareMagnitudes a b =? 0) eqn:E0.
    + apply Z.eqb_eq in E0. rewrite Hc in E0. apply Z.sgn_null_iff in E0.
      split; [reflexivity|]. left. split; [reflexivity|].
      destruct (negative a), (negative b); try discriminate; lia.
    + apply Z.eqb_neq in E0.
      destruct (alignDecimals a b) as [a1 a2]. cbn [fst snd] in *.
      destruct (0 <? compareMagnitudes a b) eqn:E1.
      * apply Z.ltb_lt in E1. rewrite Hc in E1. apply Z.sgn_pos_iff in E1.
        destruct (subtractMagnitudes_spec a1 a2 D1 D2
                    ltac:(apply length_le_of_value; auto; lia) ltac:(lia))
          as [SV [SD [SS SM]]].
        cbn [digits scale negative].
        split; [apply dig_wf_digits; exact SD|]. right.
        split; [rewrite SS; exact S1|].
        split; [rewrite SV, V1, V2; destruct (negative a), (negative b);
                try discriminate; ring|].
        apply SM. rewrite SV, V1, V2. lia.
      * apply Z.ltb_ge in E1. assert (E1' : compareMagnitudes a b < 0) by lia.
        rewrite Hc in E1'. apply Z.sgn_neg_iff in E1'.
        destruct (subtractMagnitudes_spec a2 a1 D2 D1
                    ltac:(apply length_le_of_value; auto; lia) ltac:(lia))
          as [SV [SD [SS SM]]].
        cbn [digits scale negative].
        split; [apply dig_wf_digits; exact SD|]. right.
        split; [rewrite SS; exact S2|].
        split; [rewrite SV, V1, V2; destruct (negative a), (negative b);
                try discriminate; ring|].
        apply SM. rewrite SV, V1, V2. lia.
Qed.

Lemma Add_exact_witness :
  wf_digits (digits (parse "3.5")) = true /\ wf_digits (digits (parse "-10.25")) = true /\
  msd_nonzero (digits (parse "3.5")) = true /\ msd_nonzero (digits (parse "-10.25")) = true /\
  wf_digits (digits (Add (parse "3.5") (parse "-10.25"))) = true /\
  ((Add (parse "3.5") (parse "-10.25") = Zero /\
    signed_value (parse "3.5")
      * 10 ^ (Z.max (scale (parse "3.5")) (scale (parse "-10.25")) - scale (parse "3.5"))
    + signed_value (parse "-10.25")
      * 10 ^ (Z.max (scale (parse "3.5")) (scale (parse "-10.25")) - scale (parse "-10.25"))
    = 0) \/
   (scale (Add (parse "3.5") (parse "-10.25"))
      = Z.max (scale (parse "3.5")) (scale (parse "-10.25")) /\
    signed_value (Add (parse "3.5") (parse "-10.25"))
    = signed_value (parse "3.5")
        * 10 ^ (Z.max (scale (parse "3.5")) (scale (parse "-10.25")) - scale (parse "3.5"))
      + signed_value (parse "-10.25")
        * 10 ^ (Z.max (scale (parse "3.5")) (scale (parse "-10.25")) - scale (parse "-10.25")) /\
    msd_nonzero (digits (Add (parse "3.5") (parse "-10.25"))) = true)).
Proof.
  assert (H1 : wf_digits (digits (parse "3.5")) = true) by reflexivity.
  assert (H2 : wf_digits (digits (parse "-10.25")) = true) by reflexivity.
  assert (H3 : msd_nonzero (digits (parse "3.5")) = true) by reflexivity.
  assert (H4 : msd_nonzero (digits (parse "-10.25")) = true) by reflexivity.
  split; [exact H1|]. split; [exact H2|]. split; [exact H3|]. split; [exact H4|].
  exact (Add_exact _ _ H1 H2 H3 H4).
Defined.

Lemma alignDecimals_Zero_l (c : BCD) :
  0 < scale c -> alignDecimals Zero c = (mkBCD (zeros (scale c) ++ [0]) (scale c) false, c).
Proof.
  intros H. unfold alignDecimals. cbn [scale Zero digits negative].
  replace (0 =? scale c) with false by (symmetry; apply Z.eqb_neq; lia).
  replace (0 <? scale c) with true by (symmetry; apply Z.ltb_lt; lia).
  rewrite Z.sub_0_r. reflexivity.
Qed.

Lemma alignDecimals_Zero_r (c : BCD) :
  0 < scale c -> alignDecimals c Zero = (c, mkBCD (zeros (scale c) ++ [0]) (scale c) false).
Proof.
  intros H. unfold alignDecimals. cbn [scale Zero digits negative].
  replace (scale c =? 0) with false by (symmetry; apply Z.eqb_neq; lia).
  replace (scale c <? 0) with false by (symmetry; apply Z.ltb_ge; lia).
  rewrite Z.sub_0_r. reflexivity.
Qed.

Lemma length_zeros_app0 (s : Z) :
  0 <= s -> len (zeros s ++ [0]) = s + 1.
Proof.
  intros H. unfold len, zeros. rewrite length_app, repeat_length. simpl. lia.
Qed.

Lemma sub_from_padded_zero (s : Z) (l : list Z) :
  0 <= s -> dig l -> isZero l = false -> (length l <= Z.to_nat s)%nat ->
  value (trimTop (sub_loop 0 (zeros s ++ [0]) l 0)) = 10 ^ (s + 1) - value l.
Proof.
  intros Hs D Z L.
  assert (Da : dig (zeros s ++ [0])) by (apply dig_zeros_app; repeat constructor; lia).
  destruct (sub_loop_spec l D (zeros s ++ [0]) 0 0 Da ltac:(lia))
    as [Ln [Dr [bo [Hbo V]]]].
  assert (La : length (zeros s ++ [0]) = S (Z.to_nat s))
    by (unfold zeros; rewrite length_app, repeat_length; simpl; lia).
  change (skipn 0 l) with l in V.
  rewrite firstn_all2 in V by lia.
  rewrite value_zeros_app in V by lia. rewrite La in V.
  replace (Z.of_nat (S (Z.to_nat s))) with (s + 1) in V by lia.
  pose proof (value_bound _ Dr) as B. rewrite Ln, La in B.
  replace (Z.of_nat (S (Z.to_nat s))) with (s + 1) in B by lia.
  pose proof (value_pos _ D Z) as P. pose proof (value_bound _ D) as Bl.
  assert (10 ^ Z.of_nat (length l) <= 10 ^ (s + 1)) by (apply Z.pow_le_mono_r; lia).
  assert (bo = 1) by (cbn [value] in V; nia). subst bo.
  rewrite value_trimTop, V. cbn [value]. ring.
Qed.

(** X17: [Zero] does not compare or combine correctly with a positive
    value below one.  [Zero] is the digit slice [0] at scale 0, and
    [alignDecimals] pads it to one digit more than the fraction's scale.
    So for a nonzero positive [b] whose digits all lie after the point,
    [Cmp Zero b] is 1: [Zero] counts as greater than [b].  Also,
    [Sub Zero b] and [Add (Neg b) Zero] are the same value, and that
    value is positive, at scale [scale b], with magnitude
    10^(scale b + 1) - value b rather than -b. *)
Theorem Zero_vs_fraction (b : BCD) :
  wf_digits (digits b) = true -> negative b = false -> IsZero b = false ->
  (length (digits b) <= Z.to_nat (scale b))%nat ->
  Cmp Zero b = 1 /\ LessThan Zero b = false /\
  Add (Neg b) Zero = Sub Zero b /\
  negative (Sub Zero b) = false /\ scale (Sub Zero b) = scale b /\
  value (digits (Sub Zero b)) = 10 ^ (scale b + 1) - value (digits b).
Proof.
  intros W N Z L. apply wf_digits_dig in W.
  destruct b as [ds s n]. cbn [digits scale negative] in *. subst n.
  unfold IsZero in Z. cbn [digits] in Z.
  assert (Hl : (0 < length ds)%nat) by (destruct ds; [discriminate|simpl; lia]).
  assert (Hs : 0 < s) by lia.
  assert (Hc : forall n, compareMagnitudes Zero (mkBCD ds s n) = 1).
  { intros n. unfold compareMagnitudes. rewrite alignDecimals_Zero_l by exact Hs.
    cbn [digits scale]. rewrite length_zeros_app0 by lia.
    replace (len ds <? s + 1) with true by (symmetry; apply Z.ltb_lt; unfold len; lia).
    reflexivity. }
  assert (Hc' : compareMagnitudes (mkBCD ds s true) Zero = -1).
  { unfold compareMagnitudes. rewrite alignDecimals_Zero_r by exact Hs.
    cbn [digits scale]. rewrite length_zeros_app0 by lia.
    replace (s + 1 <? len ds) with false by (symmetry; apply Z.ltb_ge; unfold len; lia).
    replace (len ds <? s + 1) with true by (symmetry; apply Z.ltb_lt; unfold len; lia).
    reflexivity. }
  assert (HN : Neg (mkBCD ds s false) = mkBCD ds s true)
    by (unfold Neg, IsZero; cbn [digits]; rewrite Z; reflexivity).
  assert (HS : Sub Zero (mkBCD ds s false)
               = mkBCD (trimTop (sub_loop 0 (zeros s ++ [0]) ds 0)) s false).
  { unfold Sub. rewrite HN. unfold Add. cbn [negative Zero Bool.eqb].
    rewrite Hc. cbn -[alignDecimals subtractMagnitudes].
    rewrite alignDecimals_Zero_l by exact Hs. reflexivity. }
  split; [unfold Cmp; cbn [negative Zero andb negb]; apply Hc|].
  split; [unfold LessThan, Cmp; cbn [negative Zero andb negb]; rewrite Hc; reflexivity|].
  split.
  { rewrite HS, HN. unfold Add. cbn [negative Zero Bool.eqb].
    rewrite Hc'. cbn -[alignDecimals subtractMagnitudes].
    rewrite alignDecimals_Zero_r by exact Hs. reflexivity. }
  rewrite HS. cbn [digits scale negative].
  split; [reflexivity|]. split; [reflexivity|].
  apply sub_from_padded_zero; auto; lia.
Qed.

Lemma Zero_vs_fraction_witness :
  wf_digits (digits (parse "0.5")) = true /\ negative (parse "0.5") = false /\
  IsZero (parse "0.5") = false /\
  (length (digits (parse "0.5")) <= Z.to_nat (scale (parse "0.5")))%nat /\
  Cmp Zero (parse "0.5") = 1 /\ LessThan Zero (parse "0.5") = false /\
  Add (Neg (parse "0.5")) Zero = Sub Zero (parse "0.5") /\
  negative (Sub Zero (parse "0.5")) = false /\
  scale (Sub Zero (parse "0.5")) = scale (parse "0.5") /\
  value (digits (Sub Zero (parse "0.5")))
  = 10 ^ (scale (parse "0.5") + 1) - value (digits (parse "0.5")).
Proof.
  assert (H1 : wf_digits (digits (parse "0.5")) = true) by reflexivity.
  assert (H2 : negative (parse "0.5") = false) by reflexivity.
  assert (H3 : IsZero (parse "0.5") = false) by reflexivity.
  assert (H4 : (length (digits (parse "0.5")) <= Z.to_nat (scale (parse "0.5")))%nat)
    by (vm_compute; lia).
  split; [exact H1|]. split; [exact H2|]. split; [exact H3|]. split; [exact H4|].
  exact (Zero_vs_fraction _ H1 H2 H3 H4).
Defined.

(** ** Division *)

Lemma u16_small (x : Z) : 0 <= x < 65536 -> u16 x = x.
Proof. intros H. unfold u16. apply Z.mod_small. exact H. Qed.

Lemma sbi_loop_cons (d x : Z) (xs : list Z) (r : Z) :
  divideBySmallInt_loop d (x :: xs) r
  = let dividend := u16 (u16 (r * 10) + x) in
    let '(qs, r') := divideBySmallInt_loop d xs (dividend mod d) in
    (u8 (dividend / d) :: qs, r').
Proof. reflexivity. Qed.

Lemma sbi_loop_spec (d : Z) (m : list Z) :
  1 <= d <= 9 -> dig m ->
  forall r qs r', 0 <= r < d -> divideBySmallInt_loop d m r = (qs, r') ->
  dig qs /\ length qs = length m /\ 0 <= r' < d /\
  value (rev qs) * d + r' = r * 10 ^ Z.of_nat (length m) + value (rev m).
Proof.
  intros Hd. induction m as [|x xs IH]; intros Dm r qs r' Hr E.
  - change (([], r) = (qs, r')) in E. injection E as <- <-. split; [constructor|]. simpl. lia.
  - inversion Dm as [|? ? Hx Hxs]; subst.
    rewrite sbi_loop_cons in E.
    rewrite (u16_small (r * 10)), (u16_small (r * 10 + x)) in E by lia.
    cbv zeta in E.
    destruct (divideBySmallInt_loop d xs ((r * 10 + x) mod d)) as [qs0 r0] eqn:E2.
    injection E as <- <-.
    pose proof (Z.mod_pos_bound (r * 10 + x) d ltac:(lia)) as Bm.
    destruct (IH Hxs _ _ _ Bm E2) as [D [L [R V]]].
    assert (Hq : 0 <= (r * 10 + x) / d <= 9).
    { split; [apply Z.div_pos; lia|].
      assert ((r * 10 + x) / d < 10) by (apply Z.div_lt_upper_bound; lia). lia. }
    rewrite (u8_small ((r * 10 + x) / d)) by lia.
    split; [constructor; [lia|exact D]|].
    split; [simpl; rewrite L; reflexivity|].
    split; [exact R|].
    rewrite !value_rev_cons, L. cbn [length]. rewrite Nat2Z.inj_succ, Z.pow_succ_r by lia.
    pose proof (Z.div_mod (r * 10 + x) d ltac:(lia)) as DM.
    set (P := 10 ^ Z.of_nat (length xs)) in *.
    set (q := (r * 10 + x) / d) in *. set (r1 := (r * 10 + x) mod d) in *.
    transitivity (P * (d * q + r1) + value (rev xs)); [|rewrite <- DM; ring].
    nia.
Qed.

Lemma divideBySmallInt_spec (a : BCD) (d : Z) :
  wf_digits (digits a) = true -> 1 <= d <= 9 ->
  value (digits (fst (divideBySmallInt a d))) = value (digits a) / d /\
  wf_digits (digits (fst (divideBySmallInt a d))) = true /\
  digits (snd (divideBySmallInt a d)) = [value (digits a) mod d] /\
  scale (fst (divideBySmallInt a d)) = 0 /\ scale (snd (divideBySmallInt a d)) = 0 /\
  negative (fst (divideBySmallInt a d)) = false /\
  negative (snd (divideBySmallInt a d)) = false.
Proof.
  intros W Hd. apply wf_digits_dig in W.
  unfold divideBySmallInt.
  destruct (divideBySmallInt_loop d (rev (digits a)) 0) as [qs r] eqn:E.
  destruct (sbi_loop_spec d (rev (digits a)) Hd (proj2 (dig_rev _) W) 0 qs r
              ltac:(lia) E) as [D [L [R V]]].
  rewrite rev_involutive in V.
  assert (Hq : value (rev qs) = value (digits a) / d)
    by (apply (Z.div_unique _ _ _ r); lia).
  assert (Hr : r = value (digits a) mod d)
    by (apply (Z.mod_unique _ _ (value (rev qs))); lia).
  cbn [fst snd digits scale negative].
  split; [rewrite value_trimTop; exact Hq|].
  split; [apply wf_digits_trimTop, dig_wf_digits, (proj2 (dig_rev _)); exact D|].
  split; [rewrite u8_small by lia; rewrite Hr; reflexivity|].
  repeat split.
Qed.

(** X18: [divideBySmallInt] divides exactly by a digit from 1 to 9: the
    quotient holds the integer quotient of the dividend's digits, with
    decimal digits, and the remainder is the single digit of the
    remainder; both have scale 0 and no sign. *)
Theorem divideBySmallInt_exact (a : BCD) (d : Z) :
  wf_digits (digits a) = true -> 1 <= d <= 9 ->
  value (digits (fst (divideBySmallInt a d))) = value (digits a) / d /\
  wf_digits (digits (fst (divideBySmallInt a d))) = true /\
  digits (snd (divideBySmallInt a d)) = [value (digits a) mod d] /\
  scale (fst (divideBySmallInt a d)) = 0 /\ scale (snd (divideBySmallInt a d)) = 0 /\
  negative (fst (divideBySmallInt a d)) = false /\
  negative (snd (divideBySmallInt a d)) = false.
Proof. exact (divideBySmallInt_spec a d). Qed.

Lemma divideBySmallInt_exact_witness :
  wf_digits (digits (parse "-12.34")) = true /\ 1 <= 7 <= 9 /\
  value (digits (fst (divideBySmallInt (parse "-12.34") 7)))
    = value (digits (parse "-12.34")) / 7 /\
  wf_digits (digits (fst (divideBySmallInt (parse "-12.34") 7))) = true /\
  digits (snd (divideBySmallInt (parse "-12.34") 7)) = [value (digits (parse "-12.34")) mod 7] /\
  scale (fst (divideBySmallInt (parse "-12.34") 7)) = 0 /\
  scale (snd (divideBySmallInt (parse "-12.34") 7)) = 0 /\
  negative (fst (divideBySmallInt (parse "-12.34") 7)) = false /\
  negative (snd (divideBySmallInt (parse "-12.34") 7)) = false.
Proof.
  assert (H1 : wf_digits (digits (parse "-12.34")) = true) by reflexivity.
  assert (H2 : 1 <= 7 <= 9) by lia.
  split; [exact H1|]. split; [exact H2|].
  exact (divideBySmallInt_exact _ 7 H1 H2).
Defined.

Lemma value_skipn_div (l : list Z) (k : nat) :
  dig l -> value (skipn k l) = value l / 10 ^ Z.of_nat k.
Proof.
  revert l; induction k as [|k IH]; intros l D.
  - change (skipn 0 l) with l. rewrite Z.pow_0_r, Z.div_1_r. reflexivity.
  - destruct l as [|x t]; [reflexivity|].
    inversion D as [|? ? Hx Ht]; subst. cbn [skipn value].
    rewrite IH by exact Ht. rewrite Nat2Z.inj_succ, Z.pow_succ_r by lia.
    rewrite <- Z.div_div by lia.
    f_equal. rewrite (Z.add_comm x), (Z.mul_comm 10 (value t)), Z.div_add_l by lia.
    rewrite (Z.div_small x) by lia. ring.
Qed.

Lemma dig_skipn (l : list Z) (k : nat) : dig l -> dig (skipn k l).
Proof.
  revert l; induction k as [|k IH]; intros l D; [exact D|].
  destruct l as [|x t]; [constructor|]. inversion D; subst. apply IH. assumption.
Qed.

Lemma longDivision_fast (x y : BCD) :
  dig (digits x) -> dig (digits y) ->
  msd_nonzero (digits x) = true -> msd_nonzero (digits y) = true ->
  scale x = 0 -> scale y = 0 ->
  (length (digits x) <= 15)%nat -> (length (digits y) <= 15)%nat ->
  value (digits (fst (longDivision x y))) = value (digits x) / value (digits y) /\
  value (digits (snd (longDivision x y))) = value (digits x) mod value (digits y) /\
  dig (digits (fst (longDivision x y))) /\ dig (digits (snd (longDivision x y))) /\
  scale (snd (longDivision x y)) = 0.
Proof.
  intros Dx Dy Mx My Sx Sy Lx Ly.
  pose proof (compareMagnitudes_value x y Dx Dy Mx My) as Hc.
  rewrite Sx, Sy in Hc. change (Z.max 0 0 - 0) with 0 in Hc.
  rewrite Z.pow_0_r, !Z.mul_1_r in Hc.
  unfold longDivision. rewrite Hc.
  pose proof (value_msd _ Dx Mx). pose proof (value_msd _ Dy My).
  pose proof (value_bound _ Dx) as Bx.
  assert (Pl : 10 ^ Z.of_nat (length (digits x)) <= 10 ^ 15)
    by (apply Z.pow_le_mono_r; lia).
  assert (1 <= 10 ^ Z.of_nat (length (digits y) - 1))
    by (apply (Z.pow_le_mono_r 10 0); lia).
  set (vx := value (digits x)) in *. set (vy := value (digits y)) in *.
  destruct (Z.sgn (vx - vy) <? 0) eqn:E.
  - rewrite Z.ltb_lt in E. pose proof (Z.sgn_spec (vx - vy)). assert (vx < vy) by lia.
    cbn [fst snd digits value Copy].
    rewrite Z.div_small, Z.mod_small by lia.
    split; [reflexivity|]. split; [reflexivity|].
    split; [repeat constructor; lia|]. split; [exact Dx|exact Sx].
  - replace ((length (digits y) <=? 15)%nat && (length (digits x) <=? 15)%nat) with true
      by (symmetry; apply andb_true_intro; split; apply Nat.leb_le; assumption).
    cbn [fst snd digits scale].
    assert (Q : 0 <= vx / vy < 10 ^ Z.of_nat 20).
    { split; [apply Z.div_pos; lia|].
      assert (vx / vy <= vx) by (apply Z.div_le_upper_bound; nia).
      assert (10 ^ 15 < 10 ^ Z.of_nat 20) by (apply Z.pow_lt_mono_r; lia). lia. }
    assert (R : 0 <= vx mod vy < 10 ^ Z.of_nat 20).
    { pose proof (Z.mod_pos_bound vx vy ltac:(lia)).
      assert (vx mod vy <= vx) by (apply Z.mod_le; lia).
      assert (10 ^ 15 < 10 ^ Z.of_nat 20) by (apply Z.pow_lt_mono_r; lia). lia. }
    destruct (digits_of_spec 20 _ Q) as [QV [QD _]].
    destruct (digits_of_spec 20 _ R) as [RV [RD _]].
    split; [destruct (0 <? vx / vy) eqn:E1; [exact QV|apply Z.ltb_ge in E1; simpl; lia]|].
    split; [destruct (0 <? vx mod vy) eqn:E1; [exact RV|apply Z.ltb_ge in E1; simpl; lia]|].
    split; [destruct (0 <? vx / vy); [exact QD|repeat constructor; lia]|].
    split; [destruct (0 <? vx mod vy); [exact RD|repeat constructor; lia]|].
    reflexivity.
Qed.

Lemma divideIntegers_spec (x y : BCD) :
  dig (digits x) -> dig (digits y) ->
  msd_nonzero (digits x) = true -> msd_nonzero (digits y) = true ->
  scale x = 0 -> scale y = 0 ->
  (length (digits y) = 1%nat \/
   ((length (digits x) <= 15)%nat /\ (length (digits y) <= 15)%nat)) ->
  value (digits (fst (divideIntegers x y))) = value (digits x) / value (digits y) /\
  value (digits (snd (divideIntegers x y))) = value (digits x) mod value (digits y) /\
  dig (digits (fst (divideIntegers x y))) /\ dig (digits (snd (divideIntegers x y))) /\
  scale (snd (divideIntegers x y)) = 0.
Proof.
  intros Dx Dy Mx My Sx Sy HL. unfold divideIntegers.
  destruct (digits y) as [|d [|d' t]] eqn:Ey.
  - discriminate.
  - pose proof (value_msd _ Dy My) as Hd. simpl in Hd.
    inversion Dy as [|? ? Hd9 _]; subst.
    destruct (divideBySmallInt_spec x d (dig_wf_digits _ Dx) ltac:(lia))
      as [QV [QW [RD [_ [RS _]]]]].
    cbn [value]. rewrite Z.mul_0_r, Z.add_0_r.
    split; [exact QV|]. split; [rewrite RD; simpl; lia|].
    split; [apply wf_digits_dig; exact QW|].
    split; [rewrite RD; pose proof (Z.mod_pos_bound (value (digits x)) d ltac:(lia));
            repeat constructor; lia|exact RS].
  - destruct HL as [HL|[Lx Ly]]; [discriminate|].
    rewrite <- Ey in Dy, My, Ly |- *.
    apply longDivision_fast; assumption.
Qed.

Lemma divideWithRemainder_spec (a b : BCD) (t : Z) :
  dig (digits a) -> dig (digits b) ->
  msd_nonzero (digits a) = true -> msd_nonzero (digits b) = true ->
  0 <= t -> 0 <= scale b ->
  (length (digits b) = 1%nat \/
   ((Z.to_nat (t + scale b) + length (digits a) <= 15)%nat /\ (length (digits b) <= 15)%nat)) ->
  value (digits (fst (divideWithRemainder a b t)))
    = value (digits a) * 10 ^ (t + scale b) / value (digits b) /\
  value (digits (snd (divideWithRemainder a b t)))
    = value (digits a) * 10 ^ (t + scale b) mod value (digits b) /\
  dig (digits (fst (divideWithRemainder a b t))) /\
  dig (digits (snd (divideWithRemainder a b t))) /\
  scale (fst (divideWithRemainder a b t)) = t + scale a /\
  scale (snd (divideWithRemainder a b t)) = 0.
Proof.
  intros Da Db Ma Mb Ht Sb HL. unfold divideWithRemainder.
  set (dd := if 0 <? t + scale b then zeros (t + scale b) ++ digits a else digits a).
  assert (Vd : value dd = value (digits a) * 10 ^ (t + scale b)).
  { subst dd. destruct (0 <? t + scale b) eqn:E.
    - rewrite value_zeros_app by lia. ring.
    - apply Z.ltb_ge in E. replace (t + scale b) with 0 by lia. simpl. ring. }
  assert (Dd : dig dd) by (subst dd; destruct (0 <? t + scale b);
                             [apply dig_zeros_app|]; exact Da).
  assert (Md : msd_nonzero dd = true)
    by (subst dd; destruct (0 <? t + scale b); [apply msd_nonzero_zeros_app|]; exact Ma).
  assert (Ld : (length dd <= Z.to_nat (t + scale b) + length (digits a))%nat).
  { subst dd. destruct (0 <? t + scale b).
    - unfold zeros. rewrite length_app, repeat_length. lia.
    - lia. }
  destruct (divideIntegers_spec (mkBCD dd 0 (negative a)) (mkBCD (digits b) 0 (negative b))
              Dd Db Md Mb eq_refl eq_refl ltac:(cbn [digits]; lia))
    as [QV [RV [QD [RD RS]]]].
  destruct (divideIntegers (mkBCD dd 0 (negative a)) (mkBCD (digits b) 0 (negative b)))
    as [q r]. cbn [fst snd digits scale] in *.
  rewrite <- Vd. repeat split; assumption.
Qed.

Lemma IsZero_msd (l : list Z) : dig l -> msd_nonzero l = true -> isZero l = false.
Proof.
  intros D M. destruct (isZero l) eqn:E; [|reflexivity].
  pose proof (value_msd _ D M). apply isZero_value in E.
  assert (0 < 10 ^ Z.of_nat (length l - 1)) by (apply Z.pow_pos_nonneg; lia). lia.
Qed.

(** X19: with digits and no leading zero on both sides, a divisor of one
    digit or operands short enough for the 64-bit path of
    [longDivision], [DivInt] is exact integer division truncated toward
    zero: its result has scale 0, decimal digits, the value
    floor(|a| / |b|) computed on the scaled digits, and, when nonzero,
    the exclusive-or of the operand signs. *)
Theorem DivInt_exact (a b : BCD) :
  wf_digits (digits a) = true -> wf_digits (digits b) = true ->
  msd_nonzero (digits a) = true -> msd_nonzero (digits b) = true ->
  0 <= scale a -> 0 <= scale b ->
  (length (digits b) = 1%nat \/
   ((Z.to_nat (scale b) + length (digits a) <= 15)%nat /\ (length (digits b) <= 15)%nat)) ->
  exists q, DivInt a b = Ok q /\ scale q = 0 /\ wf_digits (digits q) = true /\
    value (digits q)
      = value (digits a) * 10 ^ scale b / (value (digits b) * 10 ^ scale a) /\
    (0 < value (digits q) -> negative q = negb (Bool.eqb (negative a) (negative b))).
Proof.
  intros Wa Wb Ma Mb Sa Sb HL. apply wf_digits_dig in Wa, Wb.
  pose proof (value_msd _ Wb Mb).
  assert (1 <= 10 ^ Z.of_nat (length (digits b) - 1))
    by (apply (Z.pow_le_mono_r 10 0); lia).
  assert (0 < 10 ^ scale a) by (apply Z.pow_pos_nonneg; lia).
  destruct (divideWithRemainder_spec a b 0 Wa Wb Ma Mb ltac:(lia) Sb HL) as [QV [_ [QD [_ [QS _]]]]].
  rewrite Z.add_0_l in QV, QS.
  unfold DivInt, IsZero. rewrite (IsZero_msd _ Wb Mb), (IsZero_msd _ Wa Ma).
  cbn [negb].
  destruct (divideWithRemainder a b 0) as [q r]. cbn [fst snd] in *.
  cbn [digits scale negative]. rewrite QS.
  rewrite <- Z.div_div, <- QV by lia.
  destruct (0 <? scale a) eqn:E.
  - pose proof (value_bound _ QD) as B.
    destruct (len (digits q) <=? scale a) eqn:E2.
    + eexists. split; [reflexivity|]. cbn [digits scale value].
      apply Z.leb_le in E2. unfold len in E2.
      assert (10 ^ Z.of_nat (length (digits q)) <= 10 ^ scale a)
        by (apply Z.pow_le_mono_r; lia).
      split; [reflexivity|]. split; [reflexivity|].
      split; [symmetry; apply Z.div_small; lia|]. simpl. lia.
    + eexists. split; [reflexivity|]. cbn [digits scale negative].
      split; [reflexivity|].
      split; [apply dig_wf_digits, dig_skipn; exact QD|].
      split; [rewrite value_skipn_div by exact QD; rewrite Z2Nat.id by lia; reflexivity|].
      reflexivity.
  - apply Z.ltb_ge in E.
    eexists. split; [reflexivity|]. cbn [digits scale negative].
    split; [lia|]. split; [apply dig_wf_digits; exact QD|].
    split; [replace (scale a) with 0 by lia; rewrite Z.pow_0_r, Z.div_1_r; reflexivity|].
    reflexivity.
Qed.

Lemma DivInt_exact_witness :
  exists q, DivInt (parse "-7.5") (parse "0.4") = Ok q /\ scale q = 0 /\
    wf_digits (digits q) = true /\
    value (digits q)
      = value (digits (parse "-7.5")) * 10 ^ scale (parse "0.4")
        / (value (digits (parse "0.4")) * 10 ^ scale (parse "-7.5")) /\
    (0 < value (digits q) ->
     negative q = negb (Bool.eqb (negative (parse "-7.5")) (negative (parse "0.4")))).
Proof.
  apply DivInt_exact; try reflexivity; try (vm_compute; congruence).
  left. reflexivity.
Defined.

(** X20: under the same conditions, [Mod] returns the remainder of the
    scaled integers, (|a| * 10^(scale b)) mod |b|, at scale 0, whatever
    the scale of [a], with the sign flag of [a]. *)
Theorem Mod_exact (a b : BCD) :
  wf_digits (digits a) = true -> wf_digits (digits b) = true ->
  msd_nonzero (digits a) = true -> msd_nonzero (digits b) = true ->
  0 <= scale b ->
  (length (digits b) = 1%nat \/
   ((Z.to_nat (scale b) + length (digits a) <= 15)%nat /\ (length (digits b) <= 15)%nat)) ->
  exists r, Mod a b = Ok r /\ scale r = 0 /\ negative r = negative a /\
    wf_digits (digits r) = true /\
    value (digits r) = value (digits a) * 10 ^ scale b mod value (digits b).
Proof.
  intros Wa Wb Ma Mb Sb HL. apply wf_digits_dig in Wa, Wb.
  destruct (divideWithRemainder_spec a b 0 Wa Wb Ma Mb ltac:(lia) Sb HL) as [_ [RV [_ [RD [_ RS]]]]].
  rewrite Z.add_0_l in RV.
  unfold Mod, IsZero. rewrite (IsZero_msd _ Wb Mb), (IsZero_msd _ Wa Ma).
  cbn [negb].
  destruct (divideWithRemainder a b 0) as [q r]. cbn [fst snd] in *.
  eexists. split; [reflexivity|]. cbn [digits scale negative].
  split; [exact RS|]. split; [reflexivity|].
  split; [apply dig_wf_digits; exact RD|exact RV].
Qed.

Lemma Mod_exact_witness :
  exists r, Mod (parse "-7.5") (parse "0.4") = Ok r /\ scale r = 0 /\
    negative r = negative (parse "-7.5") /\ wf_digits (digits r) = true /\
    value (digits r)
      = value (digits (parse "-7.5")) * 10 ^ scale (parse "0.4") mod value (digits (parse "0.4")).
Proof.
  apply Mod_exact; try reflexivity; try (vm_compute; congruence).
  left. reflexivity.
Defined.

(** X21: under the same conditions (the fast path now sees the dividend
    padded with [scale + 1 + scale b] zeros), [Div] at a scale of at
    least 1 with [RoundDown] truncates exactly: the result has decimal
    digits and the value floor(|a| * 10^scale / |b|) at that scale, with
    the exclusive-or of the operand signs when nonzero. *)
Theorem Div_RoundDown_exact (a b : BCD) (sc : Z) :
  wf_digits (digits a) = true -> wf_digits (digits b) = true ->
  msd_nonzero (digits a) = true -> msd_nonzero (digits b) = true ->
  0 <= scale a -> 0 <= scale b -> 1 <= sc ->
  (length (digits b) = 1%nat \/
   ((Z.to_nat (sc + 1 + scale b) + length (digits a) <= 15)%nat /\
    (length (digits b) <= 15)%nat)) ->
  exists q, Div a b sc RoundDown = Ok q /\ wf_digits (digits q) = true /\
    value (digits q)
      = value (digits a) * 10 ^ (sc + scale b) / (value (digits b) * 10 ^ scale a) /\
    (0 < value (digits q) ->
     scale q = sc /\ negative q = negb (Bool.eqb (negative a) (negative b))).
Proof.
  intros Wa Wb Ma Mb Sa Sb Hsc HL. apply wf_digits_dig in Wa, Wb.
  pose proof (value_msd _ Wb Mb).
  assert (1 <= 10 ^ Z.of_nat (length (digits b) - 1))
    by (apply (Z.pow_le_mono_r 10 0); lia).
  assert (0 < 10 ^ scale a) by (apply Z.pow_pos_nonneg; lia).
  assert (0 < 10 ^ (sc + scale b)) by (apply Z.pow_pos_nonneg; lia).
  destruct (divideWithRemainder_spec a b (sc + 1) Wa Wb Ma Mb ltac:(lia) Sb HL)
    as [QV [_ [QD [_ [QS _]]]]].
  assert (Key : value (digits a) * 10 ^ (sc + 1 + scale b) / value (digits b)
                  / 10 ^ (1 + scale a)
                = value (digits a) * 10 ^ (sc + scale b) / (value (digits b) * 10 ^ scale a)).
  { rewrite Z.div_div by lia.
    replace (sc + 1 + scale b) with (Z.succ (sc + scale b)) by lia.
    replace (1 + scale a) with (Z.succ (scale a)) by lia.
    rewrite !Z.pow_succ_r by lia.
    replace (value (digits a) * (10 * 10 ^ (sc + scale b)))
      with (10 * (value (digits a) * 10 ^ (sc + scale b))) by ring.
    replace (value (digits b) * (10 * 10 ^ scale a))
      with (10 * (value (digits b) * 10 ^ scale a)) by ring.
    assert (0 < value (digits b) * 10 ^ scale a) by (apply Z.mul_pos_pos; lia).
    apply Z.div_mul_cancel_l; lia. }
  unfold Div, IsZero. rewrite (IsZero_msd _ Wb Mb), (IsZero_msd _ Wa Ma).
  cbn [negb].
  destruct (divideWithRemainder a b (sc + 1)) as [q r]. cbn [fst snd] in *.
  eexists. split; [reflexivity|].
  unfold Round. cbn [digits scale negative]. rewrite QS.
  replace (sc <? 0) with false by (symmetry; apply Z.ltb_ge; lia).
  replace (sc + 1 + scale a <=? sc) with false by (symmetry; apply Z.leb_gt; lia).
  replace (sc + 1 + scale a - sc) with (1 + scale a) by lia.
  pose proof (value_bound _ QD) as B.
  destruct (len (digits q) <=? 1 + scale a) eqn:E.
  - apply Z.leb_le in E. unfold len in E.
    assert (10 ^ Z.of_nat (length (digits q)) <= 10 ^ (1 + scale a))
      by (apply Z.pow_le_mono_r; lia).
    assert (Hz : value (digits a) * 10 ^ (sc + scale b) / (value (digits b) * 10 ^ scale a)
                 = 0) by (rewrite <- Key, <- QV; apply Z.div_small; lia).
    rewrite Hz.
    assert (Round_Zero : (if IsZero (mkBCD (digits q) (sc + 1 + scale a)
                                        (negb (Bool.eqb (negative a) (negative b))))
                          then Zero
                          else if shouldRoundUp (nth (length (digits q) - 1) (digits q) 0) 0
                                    false RoundDown
                                    (negb (Bool.eqb (negative a) (negative b)))
                               then if sc =? 0 then mkBCD [1] 0
                                         (negb (Bool.eqb (negative a) (negative b)))
                                    else mkBCD (zeros (sc - 1) ++ [1]) sc
                                         (negb (Bool.eqb (negative a) (negative b)))
                               else Zero) = Zero)
      by (destruct (IsZero _); reflexivity).
    cbv zeta. cbn [digits scale negative]. rewrite Round_Zero.
    split; [reflexivity|]. split; [reflexivity|]. simpl. lia.
  - cbv zeta. cbn [digits scale negative shouldRoundUp].
    replace (sc =? 0) with false by (symmetry; apply Z.eqb_neq; lia).
    split; [apply dig_wf_digits, dig_skipn; exact QD|].
    split; [rewrite value_skipn_div, Z2Nat.id, <- Key, <- QV by (auto; lia); reflexivity|].
    intros _. split; reflexivity.
Qed.

Lemma Div_RoundDown_exact_witness :
  exists q, Div (parse "-2") (parse "0.3") 2 RoundDown = Ok q /\
    wf_digits (digits q) = true /\
    value (digits q)
      = value (digits (parse "-2")) * 10 ^ (2 + scale (parse "0.3"))
        / (value (digits (parse "0.3")) * 10 ^ scale (parse "-2")) /\
    (0 < value (digits q) ->
     scale q = 2 /\
     negative q = negb (Bool.eqb (negative (parse "-2")) (negative (parse "0.3")))).
Proof.
  apply Div_RoundDown_exact; try reflexivity; try (vm_compute; congruence); try lia.
  left. reflexivity.
Defined.

(** ** Rejected input of [parseString] *)

Lemma split_dot_cons (s : string) : exists p ps, split_dot s = p :: ps.
Proof.
  induction s as [|c t [p [ps IH]]]; [exists EmptyString, []; reflexivity|].
  simpl. rewrite IH. destruct (is_char "."%char c); eexists; eexists; reflexivity.
Qed.

Lemma split_dot_length (s : string) :
  length (split_dot s) = S (count_char (is_char "."%char) s).
Proof.
  induction s as [|c t IH]; [reflexivity|].
  simpl. destruct (split_dot_cons t) as [p [ps E]]. rewrite E in *.
  destruct (is_char "."%char c); simpl in *; lia.
Qed.

Lemma split_dot_contains (q : ascii -> bool) (s : string) :
  q "."%char = false ->
  contains_char q s = existsb (contains_char q) (split_dot s).
Proof.
  intros Hq. induction s as [|c t IH]; [reflexivity|].
  simpl. destruct (split_dot_cons t) as [p [ps E]]. rewrite E in *.
  destruct (is_char "."%char c) eqn:Ec.
  - unfold is_char in Ec. apply Ascii.eqb_eq in Ec. subst c.
    rewrite Hq, IH. reflexivity.
  - simpl in *. rewrite IH, orb_assoc. reflexivity.
Qed.

Lemma trim_left_contains (p q : ascii -> bool) (s : string) :
  (forall c, p c = true -> q c = false) ->
  contains_char q (trim_left_by p s) = contains_char q s.
Proof.
  intros H. induction s as [|c t IH]; [reflexivity|].
  simpl. destruct (p c) eqn:E; [rewrite IH, (H c E); reflexivity|reflexivity].
Qed.

Lemma trim_right_contains (p q : ascii -> bool) (s : string) :
  (forall c, p c = true -> q c = false) ->
  contains_char q (trim_right_by p s) = contains_char q s.
Proof.
  intros H. unfold trim_right_by.
  rewrite rev_string_contains, trim_left_contains, rev_string_contains by exact H.
  reflexivity.
Qed.

Lemma forallb_not_contains (f q : ascii -> bool) (s : string) :
  (forall c, q c = true -> f c = false) ->
  contains_char q s = true -> forallb f (list_ascii_of_string s) = false.
Proof.
  intros H. induction s as [|c t IH]; [discriminate|].
  simpl. intros Hc. destruct (q c) eqn:E.
  - rewrite (H c E). reflexivity.
  - rewrite IH by exact Hc. apply andb_false_r.
Qed.

Definition bad_char (c : ascii) : bool := negb (is_number_char c).

Lemma bad_char_not_zero (c : ascii) : is_char "0"%char c = true -> bad_char c = false.
Proof. unfold is_char. intros E. apply Ascii.eqb_eq in E. subst c. reflexivity. Qed.

Lemma bad_char_not_digit (c : ascii) : bad_char c = true -> is_digit_char c = false.
Proof.
  unfold bad_char, is_number_char. destruct (is_digit_char c); [discriminate|reflexivity].
Qed.

Lemma body_not_digits (u : string) :
  (length (split_dot u) <= 2)%nat -> contains_char bad_char u = true ->
  forallb is_digit_char (list_ascii_of_string
    ((if String.eqb (trim_left_by (is_char "0"%char) (nth 0 (split_dot u) EmptyString))
           EmptyString then "0"%string
      else trim_left_by (is_char "0"%char) (nth 0 (split_dot u) EmptyString)) ++
     (if (length (split_dot u) =? 2)%nat
      then trim_right_by (is_char "0"%char) (nth 1 (split_dot u) EmptyString)
      else EmptyString))) = false.
Proof.
  intros L H. rewrite split_dot_contains in H by reflexivity.
  apply (forallb_not_contains _ bad_char); [exact bad_char_not_digit|].
  rewrite contains_char_app.
  assert (Hi : forall p0, contains_char bad_char
                 (if String.eqb (trim_left_by (is_char "0"%char) p0) EmptyString
                  then "0"%string else trim_left_by (is_char "0"%char) p0)
               = contains_char bad_char p0).
  { intros p0. rewrite <- (trim_left_contains (is_char "0"%char) bad_char p0)
      by exact bad_char_not_zero.
    destruct (trim_left_by (is_char "0"%char) p0); reflexivity. }
  destruct (split_dot u) as [|p0 [|p1 [|p2 ps]]]; simpl in L; try lia;
    cbn [nth length Nat.eqb]; rewrite Hi; simpl in H; try discriminate.
  - rewrite orb_false_r in H. rewrite H. reflexivity.
  - rewrite trim_right_contains by exact bad_char_not_zero.
    rewrite orb_false_r in H. exact H.
Qed.

(** X22: once trimmed of white space, a string without an exponent
    letter is refused with [ErrInvalidFormat] when it holds a character
    other than a digit, the point or a sign, or when it holds two points
    or more. *)
Theorem parseString_rejects (s : string) :
  contains_char (fun c => is_char "e"%char c || is_char "E"%char c) (TrimSpace s) = false ->
  (contains_char bad_char (TrimSpace s) = true \/
   (2 <= count_char (is_char "."%char) (TrimSpace s))%nat) ->
  parseString s = ParseError ErrInvalidFormat.
Proof.
  intros He Hb. unfold parseString. cbv zeta.
  destruct (TrimSpace s) as [|c t].
  { destruct Hb as [Hb|Hb]; simpl in Hb; [discriminate|lia]. }
  cbn [String.eqb]. rewrite He.
  assert (Hu : forall u, (contains_char bad_char u = true \/
                          (2 <= count_char (is_char "."%char) u)%nat) ->
               (length (split_dot u) <= 2)%nat -> contains_char bad_char u = true).
  { intros u [H|H] L; [exact H|]. rewrite split_dot_length in L. lia. }
  assert (Hbody : forall u, (contains_char bad_char u = true \/
                             (2 <= count_char (is_char "."%char) u)%nat) ->
                  (2 <? length (split_dot u))%nat = false ->
                  forallb is_digit_char (list_ascii_of_string
                    ((if String.eqb (trim_left_by (is_char "0"%char)
                                       (nth 0 (split_dot u) EmptyString)) EmptyString
                      then "0"%string
                      else trim_left_by (is_char "0"%char) (nth 0 (split_dot u) EmptyString)) ++
                     (if (length (split_dot u) =? 2)%nat
                      then trim_right_by (is_char "0"%char) (nth 1 (split_dot u) EmptyString)
                      else EmptyString))) = false).
  { intros u H L. apply Nat.ltb_ge in L. apply body_not_digits; [exact L|]. apply Hu; assumption. }
  destruct (is_char "-"%char c) eqn:Em; [|destruct (is_char "+"%char c) eqn:Ep];
    cbv beta iota.
  - unfold is_char in Em. apply Ascii.eqb_eq in Em. subst c. simpl in Hb.
    destruct (2 <? length (split_dot t))%nat eqn:L; [reflexivity|].
    rewrite (Hbody t Hb L). reflexivity.
  - unfold is_char in Ep. apply Ascii.eqb_eq in Ep. subst c. simpl in Hb.
    destruct (2 <? length (split_dot t))%nat eqn:L; [reflexivity|].
    rewrite (Hbody t Hb L). reflexivity.
  - destruct (2 <? length (split_dot (String c t)))%nat eqn:L; [reflexivity|].
    rewrite (Hbody (String c t) Hb L). reflexivity.
Qed.

Lemma parseString_rejects_witness :
  contains_char (fun c => is_char "e"%char c || is_char "E"%char c)
    (TrimSpace (string_of_bytes [194; 160]%Z ++ "-1.2.3" ++ string_of_bytes [227; 128; 128]%Z)) = false /\
  (contains_char bad_char (TrimSpace (string_of_bytes [194; 160]%Z ++ "-1.2.3" ++ string_of_bytes [227; 128; 128]%Z)) = true \/
   (2 <= count_char (is_char "."%char) (TrimSpace (string_of_bytes [194; 160]%Z ++ "-1.2.3" ++ string_of_bytes [227; 128; 128]%Z)))%nat) /\
  parseString (string_of_bytes [194; 160]%Z ++ "-1.2.3" ++ string_of_bytes [227; 128; 128]%Z) = ParseError ErrInvalidFormat.
Proof.
  assert (H1 : contains_char (fun c => is_char "e"%char c || is_char "E"%char c)
                 (TrimSpace (string_of_bytes [194; 160]%Z ++ "-1.2.3" ++ string_of_bytes [227; 128; 128]%Z)) = false) by reflexivity.
  assert (H2 : contains_char bad_char (TrimSpace (string_of_bytes [194; 160]%Z ++ "-1.2.3" ++ string_of_bytes [227; 128; 128]%Z)) = true \/
               (2 <= count_char (is_char "."%char) (TrimSpace (string_of_bytes [194; 160]%Z ++ "-1.2.3" ++ string_of_bytes [227; 128; 128]%Z)))%nat)
    by (right; vm_compute; lia).
  split; [exact H1|]. split; [exact H2|]. exact (parseString_rejects _ H1 H2).
Defined.

(** ** Multiplication by a digit *)

Lemma mbd_loop_cons (digit x : Z) (t : list Z) (carry : Z) :
  multiplyByDigit_loop digit (x :: t) carry
  = let prod := u8 (u8 (x * digit) + carry) in
    let '(rs, c) := multiplyByDigit_loop digit t (prod / 10) in ((prod mod 10) :: rs, c).
Proof. reflexivity. Qed.

Lemma mbd_loop_spec (digit : Z) (l : list Z) :
  0 <= digit <= 9 -> dig l ->
  forall carry rs c, 0 <= carry <= 9 -> multiplyByDigit_loop digit l carry = (rs, c) ->
  dig rs /\ length rs = length l /\ 0 <= c <= 9 /\
  value rs + 10 ^ Z.of_nat (length l) * c = value l * digit + carry.
Proof.
  intros Hd. induction l as [|x t IH]; intros Dl carry rs c Hc E.
  - change (([], carry) = (rs, c)) in E. injection E as <- <-.
    split; [constructor|]. simpl. lia.
  - inversion Dl as [|? ? Hx Ht]; subst.
    rewrite mbd_loop_cons in E. cbv zeta in E.
    assert (0 <= x * digit <= 81) by nia.
    rewrite (u8_small (x * digit)), (u8_small (x * digit + carry)) in E by lia.
    destruct (multiplyByDigit_loop digit t ((x * digit + carry) / 10)) as [rs0 c0] eqn:E2.
    injection E as <- <-.
    assert (Hq : 0 <= (x * digit + carry) / 10 <= 9).
    { split; [apply Z.div_pos; lia|].
      assert ((x * digit + carry) / 10 < 10) by (apply Z.div_lt_upper_bound; lia). lia. }
    destruct (IH Ht _ _ _ Hq E2) as [D [L [C V]]].
    pose proof (Z.mod_pos_bound (x * digit + carry) 10 ltac:(lia)).
    split; [constructor; [lia|exact D]|].
    split; [simpl; rewrite L; reflexivity|].
    split; [exact C|].
    cbn [value length]. rewrite Nat2Z.inj_succ, Z.pow_succ_r by lia.
    pose proof (Z.div_mod (x * digit + carry) 10 ltac:(lia)). nia.
Qed.

(** X23: [multiplyByDigit] multiplies exactly by a digit: the result
    keeps the scale, has decimal digits and the value of the digits
    times the digit, and it has no leading zero when the operand has
    none and the digit is not 0. *)
Theorem multiplyByDigit_exact (b : BCD) (digit : Z) :
  wf_digits (digits b) = true -> 0 <= digit <= 9 ->
  wf_digits (digits (multiplyByDigit b digit)) = true /\
  value (digits (multiplyByDigit b digit)) = value (digits b) * digit /\
  negative (multiplyByDigit b digit) = false /\
  (digit <> 0 -> scale (multiplyByDigit b digit) = scale b /\
                 (msd_nonzero (digits b) = true ->
                  msd_nonzero (digits (multiplyByDigit b digit)) = true)).
Proof.
  intros W Hd. apply wf_digits_dig in W. unfold multiplyByDigit.
  destruct (digit =? 0) eqn:E0.
  - apply Z.eqb_eq in E0. subst digit. cbn [Zero digits value negative].
    split; [reflexivity|]. split; [lia|]. split; [reflexivity|].
    intros H. exfalso. apply H. reflexivity.
  - apply Z.eqb_neq in E0.
    destruct (multiplyByDigit_loop digit (digits b) 0) as [rs c] eqn:E.
    destruct (mbd_loop_spec digit (digits b) Hd W 0 rs c ltac:(lia) E) as [D [L [C V]]].
    cbn [digits scale negative].
    destruct (0 <? c) eqn:Ec.
    + apply Z.ltb_lt in Ec.
      split; [apply dig_wf_digits, Forall_app; split; [exact D|repeat constructor; lia]|].
      split; [rewrite value_app; simpl; rewrite L; lia|].
      split; [reflexivity|]. intros _. split; [reflexivity|]. intros _.
      unfold msd_nonzero. rewrite rev_app_distr. simpl.
      apply negb_true_iff, Z.eqb_neq. lia.
    + apply Z.ltb_ge in Ec. assert (c = 0) by lia. subst c.
      split; [apply dig_wf_digits; exact D|].
      split; [lia|]. split; [reflexivity|]. intros _. split; [reflexivity|].
      intros M. pose proof (value_msd _ W M).
      assert (1 <= 10 ^ Z.of_nat (length (digits b) - 1))
        by (apply (Z.pow_le_mono_r 10 0); lia).
      assert (Hpos : 0 < value rs) by nia.
      destruct (rev rs) as [|r rr] eqn:Er.
      * apply (f_equal (@rev Z)) in Er. rewrite rev_involutive in Er. subst rs.
        simpl in Hpos. lia.
      * unfold msd_nonzero. rewrite Er. apply negb_true_iff, Z.eqb_neq. intros Hr. subst r.
        assert (Hrs : rs = rev rr ++ [0])
          by (rewrite <- (rev_involutive rs), Er; reflexivity).
        pose proof (value_bound _ D) as B.
        assert (Drr : dig (rev rr)) by (rewrite Hrs in D; apply Forall_app in D; apply D).
        pose proof (value_bound _ Drr) as B2.
        rewrite Hrs, value_app in V. simpl in V.
        assert (Lr : length (rev rr) = (length (digits b) - 1)%nat)
          by (rewrite <- L, Hrs, length_app; simpl; lia).
        rewrite Lr in B2.
        assert (value (digits b) * digit < 10 ^ Z.of_nat (length (digits b) - 1))
          by lia.
        nia.
Qed.

Lemma multiplyByDigit_exact_witness :
  wf_digits (digits (parse "9.87")) = true /\ 0 <= 7 <= 9 /\
  wf_digits (digits (multiplyByDigit (parse "9.87") 7)) = true /\
  value (digits (multiplyByDigit (parse "9.87") 7)) = value (digits (parse "9.87")) * 7 /\
  negative (multiplyByDigit (parse "9.87") 7) = false /\
  (7 <> 0 -> scale (multiplyByDigit (parse "9.87") 7) = scale (parse "9.87") /\
             (msd_nonzero (digits (parse "9.87")) = true ->
              msd_nonzero (digits (multiplyByDigit (parse "9.87") 7)) = true)).
Proof.
  assert (H1 : wf_digits (digits (parse "9.87")) = true) by reflexivity.
  assert (H2 : 0 <= 7 <= 9) by lia.
  split; [exact H1|]. split; [exact H2|]. exact (multiplyByDigit_exact _ 7 H1 H2).
Defined.

(** ** Printing and parsing back *)

(** A byte at which both loops of [strings.TrimSpace] stop at once: an
    ASCII byte that is not white space. *)
Definition high_or_space (c : ascii) : bool :=
  (RuneSelf <=? byte_of c) || asciiSpace (byte_of c).

Lemma digit_char_props (d : Z) :
  0 <= d <= 9 ->
  Z.of_nat (nat_of_ascii (digit_char d)) - 48 = d /\
  high_or_space (digit_char d) = false /\ is_digit_char (digit_char d) = true /\
  is_char "."%char (digit_char d) = false /\ is_char "-"%char (digit_char d) = false /\
  is_char "+"%char (digit_char d) = false /\
  (is_char "e"%char (digit_char d) || is_char "E"%char (digit_char d)) = false /\
  is_char "0"%char (digit_char d) = (d =? 0).
Proof.
  intros H.
  assert (d = 0 \/ d = 1 \/ d = 2 \/ d = 3 \/ d = 4 \/ d = 5 \/ d = 6 \/ d = 7 \/
          d = 8 \/ d = 9) as Hd by lia.
  repeat destruct Hd as [Hd|Hd]; subst d; vm_compute; repeat split.
Qed.

Lemma chars_of_app (l m : list Z) : chars_of (l ++ m) = (chars_of l ++ chars_of m)%string.
Proof. induction l as [|d l IH]; simpl; [reflexivity|]. rewrite IH. reflexivity. Qed.

Lemma repeat_char_zero (k : nat) : repeat_char k "0"%char = chars_of (repeat 0 k).
Proof. induction k as [|k IH]; simpl; [reflexivity|]. rewrite IH. reflexivity. Qed.

Lemma chars_of_length (l : list Z) : String.length (chars_of l) = length l.
Proof. induction l as [|d l IH]; simpl; [reflexivity|]. rewrite IH. reflexivity. Qed.

Lemma digit_values_app (x y : string) :
  digit_values (x ++ y) = digit_values x ++ digit_values y.
Proof. induction x as [|c x IH]; simpl; [reflexivity|]. rewrite IH. reflexivity. Qed.

Lemma digit_values_chars_of (l : list Z) : dig l -> digit_values (chars_of l) = l.
Proof.
  induction l as [|d l IH]; intros D; [reflexivity|]. inversion D; subst.
  simpl. rewrite IH by assumption. f_equal. apply digit_char_props. assumption.
Qed.

Lemma chars_of_no (q : ascii -> bool) (l : list Z) :
  (forall d, 0 <= d <= 9 -> q (digit_char d) = false) -> dig l ->
  contains_char q (chars_of l) = false.
Proof.
  intros H. induction l as [|d l IH]; intros D; [reflexivity|]. inversion D; subst.
  simpl. rewrite H, IH by assumption. reflexivity.
Qed.

Lemma chars_of_digits (l : list Z) :
  dig l -> forallb is_digit_char (list_ascii_of_string (chars_of l)) = true.
Proof.
  induction l as [|d l IH]; intros D; [reflexivity|]. inversion D; subst.
  simpl. rewrite IH by assumption. rewrite (proj1 (proj2 (proj2 (digit_char_props d H1)))).
  reflexivity.
Qed.

Lemma rev_string_invol (s : string) : rev_string (rev_string s) = s.
Proof.
  induction s as [|c t IH]; [reflexivity|].
  simpl. rewrite rev_string_app, IH. reflexivity.
Qed.

Lemma trim_right_last (p : ascii -> bool) (x : string) (c : ascii) :
  p c = false -> trim_right_by p (x ++ String c EmptyString) = (x ++ String c EmptyString)%string.
Proof.
  intros H. unfold trim_right_by. rewrite rev_string_app. simpl. rewrite H.
  simpl. rewrite rev_string_invol. reflexivity.
Qed.

Lemma chars_of_snoc (l : list Z) (d : Z) :
  chars_of (l ++ [d]) = (chars_of l ++ String (digit_char d) EmptyString)%string.
Proof. rewrite chars_of_app. reflexivity. Qed.

Lemma trim_left_none (p : ascii -> bool) (s : string) :
  contains_char p s = false -> trim_left_by p s = s.
Proof.
  destruct s as [|c t]; [reflexivity|]. simpl. intros H.
  apply orb_false_iff in H as [H _]. rewrite H. reflexivity.
Qed.

Lemma contains_char_bytes (s : string) :
  contains_char high_or_space s = false ->
  Forall (fun b => (RuneSelf <=? b) || asciiSpace b = false) (bytes_of s).
Proof.
  induction s as [|c t IH]; cbn [contains_char]; intros H; [constructor|].
  apply orb_false_iff in H as [Hc Ht]. constructor; [exact Hc|]. apply IH. exact Ht.
Qed.

Lemma trim_space_right_stop (l : list Z) :
  Forall (fun b => (RuneSelf <=? b) || asciiSpace b = false) l ->
  trim_space_right (rev l) = l.
Proof.
  intros F. destruct (rev l) as [|b bs] eqn:E.
  - apply (f_equal (@rev Z)) in E. rewrite rev_involutive in E. subst l. reflexivity.
  - assert (Hb : (RuneSelf <=? b) || asciiSpace b = false).
    { rewrite List.Forall_forall in F. apply F. apply in_rev. rewrite E. left. reflexivity. }
    apply orb_false_iff in Hb as [H1 H2].
    cbn [trim_space_right]. rewrite H1, H2, <- E, rev_involutive. reflexivity.
Qed.

Lemma TrimSpace_none (s : string) : contains_char high_or_space s = false -> TrimSpace s = s.
Proof.
  intros H. pose proof (contains_char_bytes s H) as F. unfold TrimSpace.
  destruct (bytes_of s) as [|b bs] eqn:E; [change (trim_space_left []) with (@nil Z); rewrite <- E; apply string_of_bytes_of|].
  pose proof F as F'. inversion F' as [|? ? Hb _]; subst.
  apply orb_false_iff in Hb as [H1 H2].
  cbn [trim_space_left]. rewrite H1, H2, trim_space_right_stop by exact F.
  rewrite <- E. apply string_of_bytes_of.
Qed.

Lemma split_dot_nodot (x : string) :
  contains_char (is_char "."%char) x = false -> split_dot x = [x].
Proof.
  induction x as [|c t IH]; [reflexivity|]. simpl. intros H.
  apply orb_false_iff in H as [H1 H2]. rewrite IH by exact H2. rewrite H1. reflexivity.
Qed.

Lemma split_dot_dot (x y : string) :
  contains_char (is_char "."%char) x = false ->
  split_dot (x ++ String "."%char y) = x :: split_dot y.
Proof.
  induction x as [|c t IH]; intros H.
  - simpl. destruct (split_dot_cons y) as [p [ps E]]. rewrite E. reflexivity.
  - simpl in *. apply orb_false_iff in H as [H1 H2]. rewrite IH by exact H2.
    rewrite H1. reflexivity.
Qed.

Definition printed (neg : bool) (I F : list Z) : string :=
  ((if neg then "-" else "") ++ chars_of I ++
   match F with [] => EmptyString | _ => "." ++ chars_of F end)%string.

Lemma printed_no (q : ascii -> bool) (neg : bool) (I F : list Z) :
  q "-"%char = false -> q "."%char = false ->
  (forall d, 0 <= d <= 9 -> q (digit_char d) = false) -> dig I -> dig F ->
  contains_char q (printed neg I F) = false.
Proof.
  intros H1 H2 H3 DI DF. unfold printed. rewrite !contains_char_app.
  rewrite (chars_of_no q I H3 DI).
  assert (contains_char q (if neg then "-" else "") = false)
    by (destruct neg; simpl; rewrite ?H1; reflexivity).
  assert (contains_char q (match F with [] => EmptyString | _ => "." ++ chars_of F end)
          = false).
  { destruct F; [reflexivity|]. simpl. rewrite H2. simpl.
    exact (chars_of_no q (z :: F) H3 DF). }
  rewrite H, H0. reflexivity.
Qed.

Lemma split_dot_printed (d : Z) (I F : list Z) :
  dig (d :: I) -> dig F ->
  split_dot (chars_of (d :: I) ++
             match F with [] => EmptyString | _ => "." ++ chars_of F end)%string
  = chars_of (d :: I) :: match F with [] => [] | _ => [chars_of F] end.
Proof.
  intros DI DF.
  assert (Hq : forall x, 0 <= x <= 9 -> is_char "."%char (digit_char x) = false)
    by (intros x Hx; apply digit_char_props; exact Hx).
  destruct F as [|z F].
  - rewrite str_app_nil_r. apply split_dot_nodot. apply chars_of_no; assumption.
  - change ("." ++ chars_of (z :: F))%string with (String "."%char (chars_of (z :: F))).
    rewrite split_dot_dot by (apply chars_of_no; assumption).
    rewrite split_dot_nodot by (apply chars_of_no; assumption). reflexivity.
Qed.

Lemma intPart_printed (d : Z) (I : list Z) :
  dig (d :: I) -> ((d = 0 /\ I = []) \/ d <> 0) ->
  (if String.eqb (trim_left_by (is_char "0"%char) (chars_of (d :: I))) EmptyString
   then "0"%string else trim_left_by (is_char "0"%char) (chars_of (d :: I)))
  = chars_of (d :: I).
Proof.
  intros D [[-> ->]|Hd]; [reflexivity|].
  inversion D; subst. cbn [chars_of trim_left_by].
  rewrite (proj2 (proj2 (proj2 (proj2 (proj2 (proj2 (proj2 (digit_char_props d H1)))))))).
  replace (d =? 0) with false by (symmetry; apply Z.eqb_neq; exact Hd). reflexivity.
Qed.

Lemma chars_of_not_zero (l : list Z) :
  dig l -> l <> [] -> l <> [0] ->
  (String.eqb (chars_of l) EmptyString || String.eqb (chars_of l) "0") = false.
Proof.
  intros D H1 H2. destruct l as [|d [|x t]]; [congruence| |].
  2: { apply orb_false_iff; split; apply String.eqb_neq; cbn [chars_of]; discriminate. }
  inversion D; subst. cbn [chars_of].
  pose proof (proj2 (proj2 (proj2 (proj2 (proj2 (proj2 (proj2 (digit_char_props d H3))))))))
    as Hz.
  unfold is_char in Hz.
  destruct (String.eqb (String (digit_char d) EmptyString) "0") eqn:E; [|reflexivity].
  apply String.eqb_eq in E. injection E as E. rewrite E in Hz. simpl in Hz.
  symmetry in Hz. apply Z.eqb_eq in Hz. subst d. congruence.
Qed.

Lemma parse_printed (neg : bool) (d : Z) (I F : list Z) :
  dig (d :: I) -> dig F ->
  ((d = 0 /\ I = []) \/ d <> 0) ->
  (F = [] \/ exists t e, F = t ++ [e] /\ e <> 0) ->
  d :: I ++ F <> [0] ->
  parseString (printed neg (d :: I) F)
  = Parsed (mkBCD (trimTop (rev (d :: I ++ F))) (len F)
              (neg && negb (isZero (trimTop (rev (d :: I ++ F)))))).
Proof.
  intros DI DF HI HF Hne.
  unfold parseString.
  rewrite TrimSpace_none by (apply printed_no; try reflexivity; auto;
                              intros x Hx; apply digit_char_props; exact Hx).
  rewrite (printed_no (fun c => is_char "e"%char c || is_char "E"%char c))
    by (try reflexivity; auto; intros x Hx; apply digit_char_props; exact Hx).
  pose proof (digit_char_props d ltac:(inversion DI; assumption)) as Pd.
  assert (Hbody : forall ng,
    (let parts := split_dot (chars_of (d :: I) ++
             match F with [] => EmptyString | _ => "." ++ chars_of F end)%string in
    if (2 <? length parts)%nat then ParseError ErrInvalidFormat
    else
      let intPart := trim_left_by (is_char "0"%char) (nth 0 parts EmptyString) in
      let intPart := if String.eqb intPart EmptyString then "0"%string else intPart in
      let decPart := if (length parts =? 2)%nat
                     then trim_right_by (is_char "0"%char) (nth 1 parts EmptyString)
                     else EmptyString in
      let sc := Z.of_nat (String.length decPart) in
      let allDigits := (intPart ++ decPart)%string in
      if negb (forallb is_digit_char (list_ascii_of_string allDigits))
      then ParseError ErrInvalidFormat
      else if String.eqb allDigits EmptyString || String.eqb allDigits "0"
      then Parsed Zero
      else
        let ds := trimTop (rev (digit_values allDigits)) in
        Parsed (mkBCD ds sc (ng && negb (isZero ds))))
    = Parsed (mkBCD (trimTop (rev (d :: I ++ F))) (len F)
                (ng && negb (isZero (trimTop (rev (d :: I ++ F))))))).
  { intros ng. cbv zeta. rewrite (split_dot_printed d I F DI DF).
    assert (Hall : forall dp, dp = match F with [] => EmptyString | _ => chars_of F end ->
              (chars_of (d :: I) ++ dp)%string = chars_of (d :: I ++ F)).
    { intros dp ->. destruct F; [rewrite str_app_nil_r, app_nil_r; reflexivity|].
      change (d :: I ++ z :: F) with ((d :: I) ++ z :: F). rewrite chars_of_app. reflexivity. }
    assert (Hdec : (if (length (chars_of (d :: I) :: match F with [] => [] | _ => [chars_of F] end)
                        =? 2)%nat
                    then trim_right_by (is_char "0"%char)
                           (nth 1 (chars_of (d :: I) :: match F with [] => [] | _ => [chars_of F] end)
                              EmptyString)
                    else EmptyString) = match F with [] => EmptyString | _ => chars_of F end).
    { destruct HF as [->|[t [e [-> He]]]]; [reflexivity|].
      destruct (t ++ [e]) eqn:Et; [destruct t; discriminate|].
      cbn [length nth Nat.eqb]. rewrite <- Et, chars_of_snoc.
      apply trim_right_last.
      assert (0 <= e <= 9) by (rewrite <- Et in DF; apply Forall_app in DF as [_ DF];
                               inversion DF; assumption).
      rewrite (proj2 (proj2 (proj2 (proj2 (proj2 (proj2 (proj2 (digit_char_props e H)))))))).
      apply Z.eqb_neq. exact He. }
    assert (Hlen : (2 <? length (chars_of (d :: I) ::
                                 match F with [] => [] | _ => [chars_of F] end))%nat = false)
      by (destruct F; reflexivity).
    rewrite Hlen, Hdec. cbn [nth]. rewrite (intPart_printed d I DI HI).
    rewrite (Hall _ eq_refl).
    assert (DA : dig (d :: I ++ F)) by (change (d :: I ++ F) with ((d :: I) ++ F);
                                          apply Forall_app; split; assumption).
    rewrite (chars_of_digits _ DA). cbn [negb].
    rewrite (chars_of_not_zero _ DA ltac:(discriminate) Hne).
    rewrite (digit_values_chars_of _ DA).
    replace (Z.of_nat (String.length match F with [] => EmptyString | _ => chars_of F end))
      with (len F) by (destruct F; [reflexivity|]; unfold len; rewrite chars_of_length;
                       reflexivity).
    reflexivity. }
  destruct neg.
  - change (printed true (d :: I) F) with
      (String "-"%char (chars_of (d :: I) ++
             match F with [] => EmptyString | _ => "." ++ chars_of F end)%string).
    cbn [String.eqb orb]. exact (Hbody true).
  - change (printed false (d :: I) F) with
      (String (digit_char d) (chars_of I ++
             match F with [] => EmptyString | _ => "." ++ chars_of F end)%string).
    cbn [String.eqb orb].
    destruct Pd as [_ [_ [_ [_ [Hm [Hp _]]]]]]. rewrite Hm, Hp.
    exact (Hbody false).
Qed.


Lemma String_of_general (b : BCD) :
  digits b <> [] -> digits b <> [0] ->
  String_of b =
  (let sign := if negative b then "-"%string else EmptyString in
   let intDigits := len (digits b) - scale b in
   if intDigits <=? 0 then
     (sign ++ "0." ++ repeat_char (Z.to_nat (- intDigits)) "0"%char
           ++ chars_of (rev (digits b)))%string
   else
     let sc := Z.to_nat (scale b) in
     (sign ++ chars_of (rev (skipn sc (digits b)))
           ++ (if Z.ltb 0 (scale b) then "." ++ chars_of (rev (firstn sc (digits b)))
               else EmptyString))%string).
Proof.
  intros H1 H2. unfold String_of.
  destruct (digits b) as [|[|p|p] [|x r]]; try congruence; reflexivity.
Qed.

Lemma trim_rev_zeros (m : nat) (top : Z) (r : list Z) :
  top <> 0 -> trim_rev (repeat 0 m ++ top :: r) = top :: r.
Proof.
  intros H. induction m as [|m IH].
  - simpl. destruct top; [congruence|reflexivity|reflexivity].
  - cbn [repeat app].
    destruct (repeat 0 m ++ top :: r) as [|y ys] eqn:E; [destruct m; discriminate|].
    exact IH.
Qed.

Lemma repeat_snoc (k : nat) : repeat 0 (S k) = repeat 0 k ++ [0].
Proof. induction k as [|k IH]; [reflexivity|]. cbn [repeat app] in *. rewrite IH. reflexivity. Qed.

Lemma trimTop_msd (ds : list Z) (m : nat) :
  msd_nonzero ds = true -> trimTop (ds ++ repeat 0 m) = ds.
Proof.
  unfold msd_nonzero, trimTop. intros H.
  rewrite rev_app_distr, rev_repeat.
  destruct (rev ds) as [|top r] eqn:E; [discriminate|].
  rewrite trim_rev_zeros by (intros ->; discriminate).
  rewrite <- E, rev_involutive. reflexivity.
Qed.

(** X24: printing and parsing back is the identity on canonical values:
    for a value with decimal digits, no leading zero, a nonnegative scale
    and, when it has a fractional part, a nonzero last fractional digit,
    [parseString] of its [String] is the value itself, sign included. *)
Theorem parseString_String (b : BCD) :
  wf_digits (digits b) = true -> msd_nonzero (digits b) = true -> 0 <= scale b ->
  (scale b = 0 \/ nth 0 (digits b) 0 <> 0) ->
  parseString (String_of b) = Parsed b.
Proof.
  intros W M Sb Hlow. apply wf_digits_dig in W.
  pose proof (IsZero_msd _ W M) as Hz.
  destruct b as [ds s neg]. cbn [digits scale negative] in *.
  assert (Hne : ds <> []) by (intros ->; discriminate).
  assert (H0 : ds <> [0]) by (intros ->; discriminate).
  rewrite String_of_general by assumption. cbn [digits scale negative]. cbv zeta.
  destruct ds as [|d0 rest]; [congruence|].
  destruct (len (d0 :: rest) - s <=? 0) eqn:Ei.
  - apply Z.leb_le in Ei. unfold len in Ei. simpl in Ei.
    assert (Hd0 : d0 <> 0) by (destruct Hlow; [lia|exact H]).
    set (k := Z.to_nat (- (len (d0 :: rest) - s))).
    set (F := repeat 0 k ++ rev (d0 :: rest)).
    assert (Hs : ((if neg then "-" else "") ++ "0." ++ repeat_char k "0"%char ++
                  chars_of (rev (d0 :: rest)))%string = printed neg [0] F).
    { unfold printed, F. rewrite repeat_char_zero, <- chars_of_app.
      destruct (repeat 0 k ++ rev (d0 :: rest)) eqn:EF.
      - apply (f_equal (@length Z)) in EF. rewrite length_app, length_rev in EF.
        simpl in EF. lia.
      - reflexivity. }
    rewrite Hs.
    assert (DF : dig F) by (apply Forall_app; split; [apply dig_repeat_zero|];
                            apply (proj2 (dig_rev _)); exact W).
    rewrite (parse_printed neg 0 [] F ltac:(repeat constructor; lia) DF).
    + f_equal.
      replace (rev (0 :: [] ++ F)) with ((d0 :: rest) ++ repeat 0 (S k)).
      2: { unfold F. change (0 :: [] ++ repeat 0 k ++ rev (d0 :: rest))
             with ([0] ++ repeat 0 k ++ rev (d0 :: rest)).
           rewrite !rev_app_distr, rev_involutive, rev_repeat.
           change (rev [0]) with [0]. rewrite repeat_snoc, app_assoc. reflexivity. }
      rewrite trimTop_msd by exact M.
      replace (len F) with s.
      2: { unfold len, F, k. rewrite length_app, repeat_length, length_rev. unfold len.
           simpl. lia. }
      rewrite Hz. destruct neg; reflexivity.
    + left. split; reflexivity.
    + right. exists (repeat 0 k ++ rev rest), d0. split; [|exact Hd0].
      unfold F. simpl. rewrite app_assoc. reflexivity.
    + unfold F. intros E. injection E as E. cbn [app] in E.
      apply app_eq_nil in E as [_ E]. apply app_eq_nil in E as [_ E]. discriminate.
  - apply Z.leb_gt in Ei. unfold len in Ei. simpl in Ei.
    set (sc := Z.to_nat s).
    set (I := rev (skipn sc (d0 :: rest))). set (F := rev (firstn sc (d0 :: rest))).
    assert (Hsplit : rev (d0 :: rest) = I ++ F).
    { unfold I, F. rewrite <- rev_app_distr, firstn_skipn. reflexivity. }
    assert (HI : I <> []).
    { unfold I. intros E. apply (f_equal (@length Z)) in E.
      rewrite length_rev, length_skipn in E. simpl in E. unfold sc in E. lia. }
    destruct I as [|top I'] eqn:EI; [congruence|].
    assert (Htop : top <> 0).
    { unfold msd_nonzero in M. rewrite Hsplit in M. simpl in M.
      apply negb_true_iff, Z.eqb_neq in M. exact M. }
    assert (DIF : dig (top :: I' ++ F)).
    { change (top :: I' ++ F) with ((top :: I') ++ F). rewrite <- Hsplit.
      apply (proj2 (dig_rev _)). exact W. }
    assert (DI : dig (top :: I')) by (change (top :: I' ++ F) with ((top :: I') ++ F) in DIF;
                                      apply Forall_app in DIF; apply DIF).
    assert (DF : dig F) by (change (top :: I' ++ F) with ((top :: I') ++ F) in DIF;
                            apply Forall_app in DIF; apply DIF).
    assert (Hs : ((if neg then "-" else "") ++ chars_of (top :: I') ++
                  (if Z.ltb 0 s then "." ++ chars_of F else EmptyString))%string
                 = printed neg (top :: I') F).
    { unfold printed. f_equal. f_equal.
      destruct (0 <? s) eqn:Es.
      - apply Z.ltb_lt in Es. destruct F as [|z F'] eqn:EF; [|reflexivity].
        unfold F in EF. apply (f_equal (@length Z)) in EF.
        rewrite length_rev, length_firstn in EF. simpl in EF. unfold sc in EF. lia.
      - apply Z.ltb_ge in Es. replace F with (@nil Z); [reflexivity|].
        unfold F, sc. replace (Z.to_nat s) with 0%nat by lia. reflexivity. }
    rewrite Hs.
    rewrite (parse_printed neg top I' F DI DF (or_intror Htop)).
    + f_equal. change (top :: I' ++ F) with ((top :: I') ++ F). rewrite <- Hsplit.
      rewrite rev_involutive.
      assert (T : trimTop (d0 :: rest) = d0 :: rest).
      { pose proof (trimTop_msd (d0 :: rest) 0 M) as T.
        rewrite List.app_nil_r in T. exact T. }
      rewrite T.
      replace (len F) with s.
      2: { unfold len, F. rewrite length_rev, length_firstn. simpl. unfold sc. lia. }
      rewrite Hz. destruct neg; reflexivity.
    + destruct (Z.eq_dec s 0) as [E0|E0].
      * left. unfold F, sc. rewrite E0. reflexivity.
      * right. destruct Hlow as [Hlow|Hlow]; [lia|].
        destruct sc as [|sc'] eqn:Esc; [unfold sc in Esc; lia|].
        unfold F. cbn [firstn rev]. simpl in Hlow.
        exists (rev (firstn sc' rest)), d0. split; [reflexivity|exact Hlow].
    + intros E. injection E as E1 _. congruence.
Qed.

Lemma parseString_String_witness :
  wf_digits (digits (mkBCD [5; 0; 3; 0; 1] 3 true)) = true /\
  msd_nonzero (digits (mkBCD [5; 0; 3; 0; 1] 3 true)) = true /\
  0 <= scale (mkBCD [5; 0; 3; 0; 1] 3 true) /\
  (scale (mkBCD [5; 0; 3; 0; 1] 3 true) = 0 \/
   nth 0 (digits (mkBCD [5; 0; 3; 0; 1] 3 true)) 0 <> 0) /\
  parseString (String_of (mkBCD [5; 0; 3; 0; 1] 3 true)) = Parsed (mkBCD [5; 0; 3; 0; 1] 3 true).
Proof.
  assert (H1 : wf_digits (digits (mkBCD [5; 0; 3; 0; 1] 3 true)) = true) by reflexivity.
  assert (H2 : msd_nonzero (digits (mkBCD [5; 0; 3; 0; 1] 3 true)) = true) by reflexivity.
  assert (H3 : 0 <= scale (mkBCD [5; 0; 3; 0; 1] 3 true)) by (simpl; lia).
  assert (H4 : scale (mkBCD [5; 0; 3; 0; 1] 3 true) = 0 \/
               nth 0 (digits (mkBCD [5; 0; 3; 0; 1] 3 true)) 0 <> 0) by (right; simpl; lia).
  split; [exact H1|]. split; [exact H2|]. split; [exact H3|]. split; [exact H4|].
  exact (parseString_String _ H1 H2 H3 H4).
Defined.

(** ** Rounding that keeps a digit *)

Lemma inc_digits_spec (l : list Z) :
  dig l -> forall c, 0 <= c <= 1 ->
  value (inc_digits l c) = value l + c /\ dig (inc_digits l c).
Proof.
  induction l as [|d t IH]; intros D c Hc.
  - cbn [inc_digits]. destruct (0 <? c) eqn:E.
    + apply Z.ltb_lt in E. split; [simpl; lia|repeat constructor; lia].
    + apply Z.ltb_ge in E. split; [simpl; lia|constructor].
  - inversion D as [|? ? Hd Ht]; subst. cbn [inc_digits].
    destruct (0 <? c) eqn:E.
    + rewrite u8_small by lia.
      assert (Hq : 0 <= (d + c) / 10 <= 1).
      { split; [apply Z.div_pos; lia|].
        assert ((d + c) / 10 < 2) by (apply Z.div_lt_upper_bound; lia). lia. }
      destruct (IH Ht _ Hq) as [V Dg].
      pose proof (Z.mod_pos_bound (d + c) 10 ltac:(lia)).
      pose proof (Z.div_mod (d + c) 10 ltac:(lia)).
      split; [cbn [value]; rewrite V; lia|constructor; [lia|exact Dg]].
    + apply Z.ltb_ge in E. split; [lia|exact D].
Qed.

Lemma nth_digit (l : list Z) (k : nat) :
  dig l -> nth k l 0 = value l / 10 ^ Z.of_nat k mod 10.
Proof.
  intros D. rewrite <- value_skipn_div by exact D. rewrite value_skipn.
  pose proof (dig_nth l k D).
  apply (Z.mod_unique _ _ (value (skipn (S k) l))); lia.
Qed.

Lemma Round_retained (b : BCD) (p : Z) (mode : RoundingMode) :
  1 <= p < scale b -> scale b - p < len (digits b) ->
  Round b p mode =
  let rc := Z.to_nat (scale b - p) in
  let newDigits := skipn rc (digits b) in
  let roundDigit := nth (rc - 1) (digits b) 0 in
  let nextDigit := if 2 <=? scale b - p then nth (rc - 2) (digits b) 0 else 0 in
  let isEven := nth 0 newDigits 0 mod 2 =? 0 in
  mkBCD (if shouldRoundUp roundDigit nextDigit isEven mode (negative b)
         then inc_digits newDigits 1 else newDigits) p (negative b).
Proof.
  intros Hp L. unfold Round.
  replace (p <? 0) with false by (symmetry; apply Z.ltb_ge; lia).
  replace (scale b <=? p) with false by (symmetry; apply Z.leb_gt; lia).
  replace (len (digits b) <=? scale b - p) with false
    by (symmetry; apply Z.leb_gt; lia).
  replace (p =? 0) with false by (symmetry; apply Z.eqb_neq; lia).
  reflexivity.
Qed.

(** X25: when [Round] keeps at least one digit, i.e. its test
    [removeCount >= len(b.digits)] fails for removeCount = scale - p, and
    rounds to a scale [p >= 1] below the current one, [RoundDown]
    truncates the magnitude exactly and [RoundHalfUp] rounds it half away
    from zero exactly: with r = scale - p discarded digits the kept
    magnitude is floor(v / 10^r) and floor((v + 5 * 10^(r-1)) / 10^r);
    both results have scale [p], the operand's sign and decimal digits. *)
Theorem Round_down_halfup_exact (b : BCD) (p : Z) :
  wf_digits (digits b) = true -> 1 <= p < scale b -> scale b - p < len (digits b) ->
  value (digits (Round b p RoundDown)) = value (digits b) / 10 ^ (scale b - p) /\
  value (digits (Round b p RoundHalfUp))
    = (value (digits b) + 5 * 10 ^ (scale b - p - 1)) / 10 ^ (scale b - p) /\
  scale (Round b p RoundDown) = p /\ scale (Round b p RoundHalfUp) = p /\
  negative (Round b p RoundDown) = negative b /\
  negative (Round b p RoundHalfUp) = negative b /\
  wf_digits (digits (Round b p RoundDown)) = true /\
  wf_digits (digits (Round b p RoundHalfUp)) = true.
Proof.
  intros W Hp L0. apply wf_digits_dig in W.
  rewrite !(Round_retained b p) by assumption. cbv zeta.
  assert (L : (Z.to_nat (scale b - p) < length (digits b))%nat) by (unfold len in L0; lia).
  cbn [shouldRoundUp digits scale negative].
  set (rc := Z.to_nat (scale b - p)) in *.
  set (v := value (digits b)).
  assert (Hrc : Z.of_nat rc = scale b - p) by (unfold rc; lia).
  assert (Hrc1 : Z.of_nat (rc - 1) = scale b - p - 1) by lia.
  set (P := 10 ^ (scale b - p - 1)).
  assert (HP : 0 < P) by (apply Z.pow_pos_nonneg; lia).
  assert (HP10 : 10 ^ (scale b - p) = 10 * P).
  { unfold P. replace (scale b - p) with (Z.succ (scale b - p - 1)) at 1 by lia.
    apply Z.pow_succ_r. lia. }
  assert (Vs : value (skipn rc (digits b)) = v / (10 * P))
    by (rewrite value_skipn_div, Hrc, HP10 by exact W; reflexivity).
  assert (Ds : dig (skipn rc (digits b))) by (apply dig_skipn; exact W).
  assert (Hd : nth (rc - 1) (digits b) 0 = v / P mod 10)
    by (rewrite nth_digit, Hrc1 by exact W; reflexivity).
  assert (Hv : 0 <= v) by (apply value_bound; exact W).
  split; [rewrite Vs, HP10; reflexivity|].
  split.
  { rewrite Hd, HP10.
    pose proof (Z.div_mod v P ltac:(lia)) as E1.
    pose proof (Z.mod_pos_bound v P HP) as B1.
    pose proof (Z.div_mod (v / P) 10 ltac:(lia)) as E2.
    pose proof (Z.mod_pos_bound (v / P) 10 ltac:(lia)) as B2.
    assert (Q : v / P / 10 = v / (10 * P))
      by (rewrite Z.div_div by lia; f_equal; ring).
    destruct (5 <=? v / P mod 10) eqn:E.
    - apply Z.leb_le in E.
      destruct (inc_digits_spec _ Ds 1 ltac:(lia)) as [Vi _]. rewrite Vi, Vs.
      apply (Z.div_unique _ _ _ (P * (v / P mod 10 - 5) + v mod P)); [|nia].
      left. nia.
    - apply Z.leb_gt in E. rewrite Vs.
      apply (Z.div_unique _ _ _ (P * (v / P mod 10 + 5) + v mod P)); [|nia].
      left. nia. }
  split; [reflexivity|]. split; [reflexivity|].
  split; [reflexivity|]. split; [reflexivity|].
  split; [apply dig_wf_digits; exact Ds|].
  destruct (5 <=? _); [|apply dig_wf_digits; exact Ds].
  apply dig_wf_digits. apply (inc_digits_spec _ Ds 1). lia.
Qed.

Lemma Round_down_halfup_exact_witness :
  wf_digits (digits (mkBCD [5; 7] 3 false)) = true /\ 1 <= 2 < scale (mkBCD [5; 7] 3 false) /\
  scale (mkBCD [5; 7] 3 false) - 2 < len (digits (mkBCD [5; 7] 3 false)) /\
  value (digits (Round (mkBCD [5; 7] 3 false) 2 RoundDown))
    = value (digits (mkBCD [5; 7] 3 false)) / 10 ^ (scale (mkBCD [5; 7] 3 false) - 2) /\
  value (digits (Round (mkBCD [5; 7] 3 false) 2 RoundHalfUp))
    = (value (digits (mkBCD [5; 7] 3 false)) + 5 * 10 ^ (scale (mkBCD [5; 7] 3 false) - 2 - 1))
      / 10 ^ (scale (mkBCD [5; 7] 3 false) - 2) /\
  scale (Round (mkBCD [5; 7] 3 false) 2 RoundDown) = 2 /\
  scale (Round (mkBCD [5; 7] 3 false) 2 RoundHalfUp) = 2 /\
  negative (Round (mkBCD [5; 7] 3 false) 2 RoundDown) = negative (mkBCD [5; 7] 3 false) /\
  negative (Round (mkBCD [5; 7] 3 false) 2 RoundHalfUp) = negative (mkBCD [5; 7] 3 false) /\
  wf_digits (digits (Round (mkBCD [5; 7] 3 false) 2 RoundDown)) = true /\
  wf_digits (digits (Round (mkBCD [5; 7] 3 false) 2 RoundHalfUp)) = true.
Proof.
  assert (H1 : wf_digits (digits (mkBCD [5; 7] 3 false)) = true) by reflexivity.
  assert (H2 : 1 <= 2 < scale (mkBCD [5; 7] 3 false)) by (simpl; lia).
  assert (H3 : scale (mkBCD [5; 7] 3 false) - 2 < len (digits (mkBCD [5; 7] 3 false))) by (vm_compute; reflexivity).
  split; [exact H1|]. split; [exact H2|]. split; [exact H3|].
  exact (Round_down_halfup_exact _ 2 H1 H2 H3).
Defined.

(** X26: [ToInt64] converts an integer [BCD] (scale 0) of at most 18
    decimal digits exactly to its signed value; a zero magnitude of either
    sign gives 0. *)
Theorem ToInt64_integer_exact (b : BCD) :
  wf_digits (digits b) = true -> scale b = 0 -> (length (digits b) <= 18)%nat ->
  ToInt64 b = Ok (if negative b then - value (digits b) else value (digits b)).
Proof.
  intros W S L. apply wf_digits_dig in W.
  unfold ToInt64. rewrite (Round_noop b 0 RoundDown) by (rewrite S; lia).
  destruct (IsZero b) eqn:Z.
  - unfold IsZero in Z. apply isZero_value in Z. rewrite Z.
    destruct (negative b); reflexivity.
  - change 1 with (10 ^ Z.of_nat 0).
    rewrite (toInt64_loop_spec _ W 0 0) by (simpl; lia).
    pose proof (value_bound _ W) as B.
    assert (B18 : 10 ^ Z.of_nat (length (digits b)) <= 10 ^ 18)
      by (apply Z.pow_le_mono_r; lia).
    change (10 ^ 18) with 1000000000000000000 in B18.
    change (10 ^ Z.of_nat 0) with 1. rewrite Z.add_0_l, Z.mul_1_r.
    destruct (negative b).
    + rewrite wrap64_id by lia.
      rewrite (proj2 (Z.ltb_ge _ _)) by lia. reflexivity.
    + reflexivity.
Qed.

Lemma ToInt64_integer_exact_witness :
  wf_digits (digits (mkBCD [4;0;0;9;1]%Z 0 true)) = true /\
  scale (mkBCD [4;0;0;9;1]%Z 0 true) = 0 /\
  (length (digits (mkBCD [4;0;0;9;1]%Z 0 true)) <= 18)%nat /\
  ToInt64 (mkBCD [4;0;0;9;1]%Z 0 true) = Ok (-19004).
Proof.
  assert (H1 : wf_digits (digits (mkBCD [4;0;0;9;1]%Z 0 true)) = true) by reflexivity.
  assert (H2 : scale (mkBCD [4;0;0;9;1]%Z 0 true) = 0) by reflexivity.
  assert (H3 : (length (digits (mkBCD [4;0;0;9;1]%Z 0 true)) <= 18)%nat) by (simpl; lia).
  split; [exact H1|]. split; [exact H2|]. split; [exact H3|].
  exact (ToInt64_integer_exact _ H1 H2 H3).
Defined.
